(** * rootly-datadog-pagerduty-migrator: a shallow embedding

    The migrator scans Datadog monitors for [@pagerduty-<name>] mentions,
    resolves each one through the cached PagerDuty and Rootly service lists,
    creates a Datadog webhook for the Rootly service and appends
    [@webhook-rootly-<name>] after the mention.

    The script embedded here is the current one, with the Rootly cache, the
    dry-run switch and the report.  Of the earlier [index.js] the check of
    the environment is embedded in [Module Legacy] and the rest in
    [Module Index]; its normalizer is the same function.

    Strings are lists of 8-bit characters.  What the script prints on the
    console is left out, and the report is kept as the list of outcomes it is
    rendered from. *)

From Stdlib Require Import Ascii String NArith Bool.
From stdpp Require Import base list strings gmap.

Local Open Scope list_scope.

(** ** Strings *)

Abbreviation str := (list ascii).

Definition lit (s : string) : str := list_ascii_of_string s.

Definition code (c : ascii) : N := N_of_ascii c.

Definition between (lo hi : N) (c : ascii) : bool :=
  ((lo <=? code c) && (code c <=? hi))%N.

Definition is_upper (c : ascii) : bool := between 65 90 c.
Definition is_lower (c : ascii) : bool := between 97 122 c.
Definition is_digit (c : ascii) : bool := between 48 57 c.

Definition chr_underscore : ascii := "_"%char.
Definition chr_dash : ascii := "-"%char.
Definition chr_dollar : ascii := "$"%char.

(** The regular-expression class [\w], which is [[A-Za-z0-9_]]. *)
Definition is_word (c : ascii) : bool :=
  is_upper c || is_lower c || is_digit c || bool_decide (c = chr_underscore).

(** The class [[\w_-]]; the normalizer replaces what is outside of it. *)
Definition in_name_class (c : ascii) : bool :=
  is_word c || bool_decide (c = chr_underscore) || bool_decide (c = chr_dash).

(** The class [[_-]] of the second replacement. *)
Definition is_sep (c : ascii) : bool :=
  bool_decide (c = chr_underscore) || bool_decide (c = chr_dash).

(** The class [\s] on 8-bit characters: tab, line feed, vertical tab, form
    feed, carriage return, space and the no-break space. *)
Definition is_space (c : ascii) : bool :=
  between 9 13 c || bool_decide (code c = 32%N) || bool_decide (code c = 160%N).

(** [toLowerCase] on one character.  Only the letters [A-Z] are mapped: the
    normalizer lowercases after its first replacement, when nothing outside
    [[A-Za-z0-9_-]] is left in the string. *)
Definition lower_char (c : ascii) : ascii :=
  if is_upper c then ascii_of_N (code c + 32) else c.

Definition toLowerCase (s : str) : str := map lower_char s.

(** [s.replace(/[^...]+/g, rep)] for a replacement without [$]: every maximal
    run of characters outside the class becomes one copy of [rep].  [in_run]
    tells whether the previous character was already part of the run. *)
Fixpoint replace_runs (keep : ascii -> bool) (rep : str) (in_run : bool)
    (s : str) : str :=
  match s with
  | [] => []
  | c :: s' =>
      if keep c then c :: replace_runs keep rep false s'
      else (if in_run then [] else rep) ++ replace_runs keep rep true s'
  end.

(** [s.replace(/^[_-]/, "")]. *)
Definition strip_leading_sep (s : str) : str :=
  match s with
  | c :: s' => if is_sep c then s' else s
  | [] => []
  end.

(** [normalizedServiceName], the same in both scripts:
    [serviceName.replace(/[^\w_-]+/g, "_").toLowerCase().replace(/^[_-]/, "")]. *)
Definition normalizedServiceName (serviceName : str) : str :=
  strip_leading_sep
    (toLowerCase (replace_runs in_name_class [chr_underscore] false serviceName)).

(** The normalizer as the specification words it: lowercase, then every
    single character outside [[A-Za-z0-9_-]] becomes one underscore, then one
    leading separator is dropped. *)
Definition normalize_spec (name : str) : str :=
  strip_leading_sep
    (map (fun c => if in_name_class c then c else chr_underscore)
         (toLowerCase name)).

(** Keeps the first character of every maximal run of characters outside the
    class and drops the rest of the run. *)
Fixpoint squeeze_runs (keep : ascii -> bool) (in_run : bool) (s : str) : str :=
  match s with
  | [] => []
  | c :: s' =>
      if keep c then c :: squeeze_runs keep false s'
      else (if in_run then [] else [c]) ++ squeeze_runs keep true s'
  end.

(** The normalizer with the runs spelled out: every maximal run of
    characters outside [[A-Za-z0-9_-]] becomes one underscore, the result is
    lowercased, and one leading separator is dropped. *)
Definition normalize_runs (name : str) : str :=
  strip_leading_sep
    (toLowerCase
       (map (fun c => if in_name_class c then c else chr_underscore)
            (squeeze_runs in_name_class false name))).

Definition starts_with_sep (s : str) : bool :=
  match s with
  | c :: _ => is_sep c
  | [] => false
  end.

(** Characters a normalized name is made of: [[a-z0-9_-]]. *)
Definition is_normal_char (c : ascii) : bool :=
  is_lower c || is_digit c || is_sep c.


(** ** String operations of the scripts *)

(** [s.startsWith(p)]. *)
Fixpoint starts_with (p s : str) : bool :=
  match p, s with
  | [], _ => true
  | a :: p', b :: s' => bool_decide (a = b) && starts_with p' s'
  | _ :: _, [] => false
  end.

(** The first occurrence of [pat] in [s]: what is before it and what is after
    it, as [indexOf] finds it. *)
Fixpoint find_first (pat s : str) : option (str * str) :=
  if starts_with pat s then Some ([], drop (length pat) s)
  else match s with
       | [] => None
       | c :: s' =>
           match find_first pat s' with
           | Some (before, after) => Some (c :: before, after)
           | None => None
           end
       end.

(** [GetSubstitution] for a string pattern (no capture groups): in the
    replacement text [$$] stands for a dollar sign, [$&] for the matched text,
    [$`] for what precedes the match and [$'] for what follows it; any other
    [$] is kept. *)
Fixpoint getSubstitution (matched before after replacement : str) : str :=
  match replacement with
  | [] => []
  | c :: r =>
      if bool_decide (c = chr_dollar) then
        match r with
        | d :: r' =>
            if bool_decide (d = "$"%char) then
              chr_dollar :: getSubstitution matched before after r'
            else if bool_decide (d = "&"%char) then
              matched ++ getSubstitution matched before after r'
            else if bool_decide (d = "`"%char) then
              before ++ getSubstitution matched before after r'
            else if bool_decide (d = "'"%char) then
              after ++ getSubstitution matched before after r'
            else c :: getSubstitution matched before after r
        | [] => [c]
        end
      else c :: getSubstitution matched before after r
  end.

(** [s.replace(pat, replacement)] with a string pattern: only the first
    occurrence is replaced, and the replacement goes through
    [GetSubstitution]. *)
Definition replace (s pat replacement : str) : str :=
  match find_first pat s with
  | Some (before, after) =>
      before ++ getSubstitution pat before after replacement ++ after
  | None => s
  end.

(** [s.split(sep)] for a non-empty separator.  [skip] counts the characters
    of a separator that are still to be passed over, [cur] is the current
    piece in reverse. *)
Fixpoint split_scan (sep : str) (skip : nat) (cur : str) (s : str) : list str :=
  match s with
  | [] => [rev cur]
  | c :: s' =>
      match skip with
      | S k => split_scan sep k cur s'
      | O =>
          if starts_with sep s
          then rev cur :: split_scan sep (length sep - 1) [] s'
          else split_scan sep 0 (c :: cur) s'
      end
  end.

Definition split (s sep : str) : list str := split_scan sep 0 [] s.

(** The longest prefix of [s] whose characters satisfy [p], and the rest. *)
Fixpoint span (p : ascii -> bool) (s : str) : str * str :=
  match s with
  | c :: s' => if p c then let '(run, rest) := span p s' in (c :: run, rest)
               else ([], s)
  | [] => ([], [])
  end.

Definition non_space (c : ascii) : bool := negb (is_space c).

(** The regular expression [/<prefix>[^\s]+/] tried at the start of [s]: the
    text matched and what follows it. *)
Definition match_at (prefix s : str) : option (str * str) :=
  if starts_with prefix s then
    match span non_space (drop (length prefix) s) with
    | ([], _) => None
    | (run, rest) => Some (prefix ++ run, rest)
    end
  else None.

(** The leftmost match of [/<prefix>[^\s]+/] in [s]: what is before it, the
    match, and what is after it. *)
Fixpoint regex_exec (prefix s : str) : option (str * str * str) :=
  match match_at prefix s with
  | Some (m, rest) => Some ([], m, rest)
  | None =>
      match s with
      | [] => None
      | c :: s' =>
          match regex_exec prefix s' with
          | Some (before, m, rest) => Some (c :: before, m, rest)
          | None => None
          end
      end
  end.

(** [s.match(/<prefix>[^\s]+/g)]: all matches from left to right, each search
    resuming after the previous match.  The empty list stands for [null]. *)
Fixpoint match_all_from (fuel : nat) (prefix s : str) : list str :=
  match fuel with
  | O => []
  | S fuel' =>
      match regex_exec prefix s with
      | Some (_, m, rest) => m :: match_all_from fuel' prefix rest
      | None => []
      end
  end.

Definition match_all (prefix s : str) : list str :=
  match_all_from (length s) prefix s.

Definition pagerduty_mention : str := Eval cbv in lit "@pagerduty-".
Definition rootly_mention : str := Eval cbv in lit "@webhook-rootly-".

(** ** Data *)

(** An entry of [response.data.services] of PagerDuty. *)
Record PagerdutyService := {
  pd_id : str;
  pd_name : str
}.

(** An entry of [response.data.data] of Rootly; [rootly_pagerduty_id] is
    [attributes.pagerduty_id], [None] when the service is not linked. *)
Record RootlyService := {
  rootly_id : str;
  rootly_pagerduty_id : option str
}.

(** A Datadog monitor; [synthetics_check_id] is [options.synthetics_check_id]. *)
Record Monitor := {
  monitor_id : str;
  monitor_name : str;
  monitor_message : str;
  monitor_type : str;
  synthetics_check_id : option str
}.

Definition set_message (m : Monitor) (message : str) : Monitor :=
  {| monitor_id := monitor_id m; monitor_name := monitor_name m;
     monitor_message := message; monitor_type := monitor_type m;
     synthetics_check_id := synthetics_check_id m |}.

(** An object pushed onto [results]; a field that is absent or [null] is
    [None]. *)
Record Outcome := {
  o_monitor : Monitor;
  o_old : option str;
  o_new : option str;
  o_oldMessage : option str;
  o_newMessage : option str;
  o_error : option str
}.

(** Outbound HTTP requests. *)
Inductive Call :=
| GetPagerdutyServices (offset : nat)
| GetRootlyServices (page : nat)
| GetMonitors (page : nat)
| GetMonitor (id : str)
| PostWebhook (name serviceId : str) (secret : option string)
| PutMonitor (id : str) (m : Monitor)
| PatchSynthetics (checkId message : str).

(** The error axios rejects with: without [response] on a timeout or a
    network failure, otherwise with the [errors] member of the response body
    ([None] when the body has none). *)
Inductive AxiosError :=
| NoResponse
| ErrorResponse (errors : option (list str)).

Inductive Reply (A : Type) :=
| Ok (a : A)
| Failed (e : AxiosError).
Arguments Ok {A} a.
Arguments Failed {A} e.

(** How the three services answer.  A listing page is asked for once per run
    and is answered by its page parameter; the other requests may be repeated
    and are answered in view of the requests made so far. *)
Record Remote := {
  pagerduty_page : nat -> Reply (list PagerdutyService);
  rootly_page : nat -> Reply (list RootlyService);
  monitors_page : nat -> Reply (list Monitor);
  monitor_by_id : list Call -> str -> Reply (option Monitor);
  webhook_created : list Call -> str -> str -> Reply unit;
  monitor_put : list Call -> str -> Monitor -> Reply unit;
  synthetics_patched : list Call -> str -> str -> Reply unit
}.

Inductive Exn :=
| AxiosFailure (e : AxiosError)
| TypeError.

(** Truthiness of a string that may be [null] or [undefined]. *)
Definition truthy {A} (v : option (list A)) : bool :=
  match v with
  | Some (_ :: _) => true
  | _ => false
  end.

Definition truthy_string (v : option string) : bool :=
  match v with
  | Some (String _ _) => true
  | _ => false
  end.

(** ** Configuration *)

(** [process.env]. *)
Abbreviation Env := (gmap string string).

Definition requiredEnvVars : list string :=
  ["DATADOG_API_KEY"; "DATADOG_APP_KEY"; "PAGERDUTY_API_TOKEN";
   "ROOTLY_API_TOKEN"; "ROOTLY_ALERT_SOURCE_SECRET"]%string.

(** The [forEach] over the required variables: the first one that is unset
    or empty, at which the script calls [process.exit(1)]. *)
Definition first_missing (required : list string) (env : Env) : option string :=
  find (fun envVar => negb (truthy_string (env !! envVar))) required.

(** The exit code, when the script stops at the check of its environment. *)
Definition exit_at_startup (required : list string) (env : Env) : option nat :=
  match first_missing required env with
  | Some _ => Some 1
  | None => None
  end.

Record Config := {
  ROOTLY_ALERT_SOURCE_SECRET : option string;
  DRY_RUN : option string
}.

Definition config_of (env : Env) : Config :=
  {| ROOTLY_ALERT_SOURCE_SECRET := env !! "ROOTLY_ALERT_SOURCE_SECRET"%string;
     DRY_RUN := env !! "DRY_RUN"%string |}.

Definition dry_run (cfg : Config) : bool := truthy_string (DRY_RUN cfg).

Module Legacy.

(** [requiredEnvVars] of the earlier script, which has no alert-source
    secret. *)
Definition requiredEnvVars : list string :=
  ["DATADOG_API_KEY"; "DATADOG_APP_KEY"; "PAGERDUTY_API_TOKEN";
   "ROOTLY_API_TOKEN"]%string.

Definition exit_at_startup (env : Env) : option nat :=
  match first_missing requiredEnvVars env with
  | Some _ => Some 1
  | None => None
  end.

End Legacy.

(** ** State *)

(** A callback of [notifications.map(async ...)] between two of its [await]s.
    - [AwaitRootlyId]: stopped at [await fetchRootlyServiceId(pagerdutyId)],
      whose body has already run and found [rootlyId];
    - [AwaitWebhook]: stopped inside [createDatadogWebhook]; [reply] is [None]
      in a dry run, where no request is made, and otherwise the answer the
      pending POST will get;
    - [Returned]: finished, with the patch it returns, if any;
    - [Rejected]: finished by an exception. *)
Inductive Task :=
| AwaitRootlyId (notification serviceName pagerdutyId : str) (rootlyId : option str)
| AwaitWebhook (notification serviceName : str) (reply : option (Reply unit))
| Returned (patch : option (str * str))
| Rejected (e : Exn).

(** The module-level variables of the script, the requests sent so far and
    the report file once written.  [detached] holds the callbacks that were
    still waiting when [Promise.all] rejected: [processMonitor] has returned
    without them; their request is already out and each may still push one
    outcome later, which the model does not follow.  Nothing is left behind
    in a run in which no webhook call throws. *)
Record World := {
  pagerdutyServicesCache : list PagerdutyService;
  rootlyServicesCache : list RootlyService;
  results : list Outcome;
  calls : list Call;
  detached : list (Monitor * Task);
  report : option (list Outcome)
}.

Definition initial_world : World :=
  {| pagerdutyServicesCache := []; rootlyServicesCache := []; results := [];
     calls := []; detached := []; report := None |}.

Definition push_result (o : Outcome) (w : World) : World :=
  {| pagerdutyServicesCache := pagerdutyServicesCache w;
     rootlyServicesCache := rootlyServicesCache w;
     results := results w ++ [o]; calls := calls w;
     detached := detached w; report := report w |}.

Definition push_call (c : Call) (w : World) : World :=
  {| pagerdutyServicesCache := pagerdutyServicesCache w;
     rootlyServicesCache := rootlyServicesCache w;
     results := results w; calls := calls w ++ [c];
     detached := detached w; report := report w |}.

Definition set_pagerdutyServicesCache (l : list PagerdutyService) (w : World) : World :=
  {| pagerdutyServicesCache := l;
     rootlyServicesCache := rootlyServicesCache w;
     results := results w; calls := calls w;
     detached := detached w; report := report w |}.

Definition set_rootlyServicesCache (l : list RootlyService) (w : World) : World :=
  {| pagerdutyServicesCache := pagerdutyServicesCache w;
     rootlyServicesCache := l;
     results := results w; calls := calls w;
     detached := detached w; report := report w |}.

Definition detach (l : list (Monitor * Task)) (w : World) : World :=
  {| pagerdutyServicesCache := pagerdutyServicesCache w;
     rootlyServicesCache := rootlyServicesCache w;
     results := results w; calls := calls w;
     detached := detached w ++ l; report := report w |}.

Definition write_report (w : World) : World :=
  {| pagerdutyServicesCache := pagerdutyServicesCache w;
     rootlyServicesCache := rootlyServicesCache w;
     results := results w; calls := calls w;
     detached := detached w; report := Some (results w) |}.

(** ** Computations that may throw *)

(** [Starved] is a loop that was not given enough fuel to end. *)
Inductive Res (A : Type) :=
| Ret (a : A)
| Throw (e : Exn)
| Starved.
Arguments Ret {A} a.
Arguments Throw {A} e.
Arguments Starved {A}.

Definition M (A : Type) : Type := World -> Res A * World.

Definition ret {A} (a : A) : M A := fun w => (Ret a, w).

Definition throw {A} (e : Exn) : M A := fun w => (Throw e, w).

Definition bind {A B} (m : M A) (k : A -> M B) : M B :=
  fun w =>
    match m w with
    | (Ret a, w') => k a w'
    | (Throw e, w') => (Throw e, w')
    | (Starved, w') => (Starved, w')
    end.

(** [try { body } catch (error) { handler }]. *)
Definition try_catch {A} (body : M A) (handler : Exn -> M A) : M A :=
  fun w =>
    match body w with
    | (Throw e, w') => handler e w'
    | other => other
    end.

Definition modify (f : World -> World) : M unit := fun w => (Ret tt, f w).

Notation "x <- m ;; k" := (bind m (fun x => k))
  (at level 100, m at next level, right associativity).
Notation "m ;;; k" := (bind m (fun _ => k))
  (at level 100, right associativity).

(** [await axiosInstance.<method>(...)]: the request goes out and the promise
    settles with the answer of the remote side. *)
Definition request {A} (c : Call) (answer : list Call -> Reply A) : M A :=
  fun w =>
    match answer (calls w) with
    | Ok a => (Ret a, push_call c w)
    | Failed e => (Throw (AxiosFailure e), push_call c w)
    end.

(** ** Fetching the three listings *)

(** The [while (true)] loop shared by the three fetchers: ask for a page,
    stop on an empty page or on an error, otherwise append the page and move
    on by [step]. *)
Fixpoint paginate {A} (get : nat -> Call) (answer : nat -> Reply (list A))
    (step fuel page : nat) (acc : list A) : M (list A) :=
  match fuel with
  | O => fun w => (Starved, w)
  | S fuel' =>
      fun w =>
        let w' := push_call (get page) w in
        match answer page with
        | Ok [] => (Ret acc, w')
        | Ok fetched =>
            paginate get answer step fuel' (page + step) (acc ++ fetched) w'
        | Failed _ => (Ret acc, w')
        end
  end.

Definition fetchAndCachePagerdutyServices (remote : Remote) (fuel : nat) : M unit :=
  services <- paginate GetPagerdutyServices (pagerduty_page remote) 25 fuel 0 [] ;;
  modify (set_pagerdutyServicesCache services).

Definition fetchAndCacheRootlyServices (remote : Remote) (fuel : nat)
    : M (list RootlyService) :=
  services <- paginate GetRootlyServices (rootly_page remote) 1 fuel 1 [] ;;
  modify (set_rootlyServicesCache services) ;;;
  ret services.

Definition fetchDatadogMonitors (remote : Remote) (fuel : nat) : M (list Monitor) :=
  paginate GetMonitors (monitors_page remote) 1 fuel 0 [].

(** ** Lookups *)

Definition getPagerdutyServiceId (cache : list PagerdutyService)
    (serviceName : str) : option str :=
  match find (fun s => bool_decide (normalizedServiceName (pd_name s)
                                    = normalizedServiceName serviceName)) cache with
  | Some service => Some (pd_id service)
  | None => None
  end.

Definition fetchRootlyServiceId (cache : list RootlyService)
    (pagerdutyId : str) : option str :=
  match find (fun s => bool_decide (rootly_pagerduty_id s = Some pagerdutyId)) cache with
  | Some service => Some (rootly_id service)
  | None => None
  end.

(** ** Creating the webhook *)

Definition webhook_name (serviceName : str) : str :=
  lit "rootly-" ++ normalizedServiceName serviceName.

(** [createDatadogWebhook] up to its [await]: nothing in a dry run, otherwise
    the POST goes out. *)
Definition createDatadogWebhook_send (cfg : Config) (remote : Remote)
    (serviceName serviceId : str) (w : World) : option (Reply unit) * World :=
  if dry_run cfg then (None, w)
  else
    (Some (webhook_created remote (calls w) (webhook_name serviceName) serviceId),
     push_call (PostWebhook (webhook_name serviceName) serviceId
                            (ROOTLY_ALERT_SOURCE_SECRET cfg)) w).

(** The [catch] block of [createDatadogWebhook].  It reads
    [error.response.data.errors[0]], which cannot be read when the error has
    no response or the response body has no [errors]. *)
Definition createDatadogWebhook_catch (error : AxiosError) : Res unit :=
  match error with
  | ErrorResponse (Some errors) =>
      if bool_decide (head errors = Some (lit "Webhook already exists"))
      then Ret tt
      else Ret tt
  | ErrorResponse None => Throw TypeError
  | NoResponse => Throw TypeError
  end.

(** [createDatadogWebhook] from its [await] on. *)
Definition createDatadogWebhook_settle (reply : option (Reply unit)) : Res unit :=
  match reply with
  | None => Ret tt
  | Some (Ok _) => Ret tt
  | Some (Failed error) => createDatadogWebhook_catch error
  end.

Definition createDatadogWebhook (cfg : Config) (remote : Remote)
    (serviceName serviceId : str) : M unit :=
  fun w =>
    let '(reply, w') := createDatadogWebhook_send cfg remote serviceName serviceId w in
    (createDatadogWebhook_settle reply, w').

(** ** Rewriting a monitor *)

(** The [patches.forEach] of [updateDatadogMonitor]. *)
Definition apply_patches (message : str) (patches : list (str * str)) : str :=
  fold_left
    (fun message '(oldNotification, newNotification) =>
       replace message oldNotification
               (oldNotification ++ lit " " ++ newNotification))
    patches message.

Definition rewrite_outcome (monitor : Monitor) (oldMessage : str) : Outcome :=
  {| o_monitor := monitor; o_old := None; o_new := None;
     o_oldMessage := Some oldMessage;
     o_newMessage := Some (monitor_message monitor); o_error := None |}.

Definition is_synthetics (monitor : Monitor) : bool :=
  bool_decide (monitor_type monitor = lit "synthetics alert")
  && truthy (synthetics_check_id monitor).

Definition updateDatadogMonitor (cfg : Config) (remote : Remote)
    (monitorId : str) (patches : list (str * str)) : M unit :=
  try_catch
    (fetched <- request (GetMonitor monitorId)
                        (fun h => monitor_by_id remote h monitorId) ;;
     match fetched with
     | Some monitor =>
         let oldMessage := monitor_message monitor in
         let monitor := set_message monitor (apply_patches oldMessage patches) in
         modify (push_result (rewrite_outcome monitor oldMessage)) ;;;
         if dry_run cfg then ret tt
         else if is_synthetics monitor then
           let checkId := default [] (synthetics_check_id monitor) in
           request (PatchSynthetics checkId (monitor_message monitor))
                   (fun h => synthetics_patched remote h checkId
                                                (monitor_message monitor))
         else
           request (PutMonitor monitorId monitor)
                   (fun h => monitor_put remote h monitorId monitor)
     | None => ret tt
     end)
    (fun error =>
       match error with
       | AxiosFailure (ErrorResponse _) => ret tt
       | AxiosFailure NoResponse => throw TypeError
       | TypeError => throw TypeError
       end).

(** ** Processing one monitor *)

Definition skip_outcome (monitor : Monitor) : Outcome :=
  {| o_monitor := monitor; o_old := None; o_new := None;
     o_oldMessage := None; o_newMessage := None;
     o_error := Some (lit "Skipping monitor ID: " ++ monitor_id monitor
                      ++ lit " as it already contains @webhook-rootly.") |}.

Definition no_mention_outcome (monitor : Monitor) : Outcome :=
  {| o_monitor := monitor; o_old := None; o_new := None;
     o_oldMessage := None; o_newMessage := None;
     o_error := Some (lit "No PagerDuty notifications found in monitor ID: "
                      ++ monitor_id monitor) |}.

Definition success_outcome (monitor : Monitor) (notification newNotification : str)
    : Outcome :=
  {| o_monitor := monitor; o_old := Some notification;
     o_new := Some newNotification;
     o_oldMessage := None; o_newMessage := None; o_error := None |}.

Definition error_outcome (monitor : Monitor) (notification error : str) : Outcome :=
  {| o_monitor := monitor; o_old := Some notification; o_new := None;
     o_oldMessage := None; o_newMessage := None; o_error := Some error |}.

(** [monitor.message.match(/@webhook-rootly-[^\s]+/)] as a condition. *)
Definition has_marker (message : str) : bool :=
  match regex_exec rootly_mention message with
  | Some _ => true
  | None => false
  end.

(** [notification.split('@pagerduty-')[1]].  A notification is a match of
    [/@pagerduty-([^\s]+)/], so the array always has this element. *)
Definition fragment_of (notification : str) : str :=
  nth 1 (split notification pagerduty_mention) [].

Definition new_notification (serviceName : str) : str :=
  rootly_mention ++ normalizedServiceName serviceName.

(** The callback from its start to its first [await], or to its end when the
    PagerDuty service is not found.  This part runs inside [map]. *)
Definition callback_start (monitor : Monitor) (notification : str) (w : World)
    : Task * World :=
  let serviceName := fragment_of notification in
  let pagerdutyId := getPagerdutyServiceId (pagerdutyServicesCache w) serviceName in
  if truthy pagerdutyId then
    let pagerdutyId := default [] pagerdutyId in
    (AwaitRootlyId notification serviceName pagerdutyId
                   (fetchRootlyServiceId (rootlyServicesCache w) pagerdutyId), w)
  else
    (Returned None,
     push_result
       (error_outcome monitor notification
          (lit "PagerDuty ID not found for service name: " ++ serviceName)) w).

(** The callback from one [await] to the next, or to its end. *)
Definition callback_resume (cfg : Config) (remote : Remote) (monitor : Monitor)
    (t : Task) (w : World) : Task * World :=
  match t with
  | AwaitRootlyId notification serviceName pagerdutyId rootlyId =>
      if truthy rootlyId then
        let '(reply, w') :=
          createDatadogWebhook_send cfg remote serviceName (default [] rootlyId) w in
        (AwaitWebhook notification serviceName reply, w')
      else
        (Returned None,
         push_result
           (error_outcome monitor notification
              (lit "Rootly ID not found for PagerDuty ID: " ++ pagerdutyId)) w)
  | AwaitWebhook notification serviceName reply =>
      match createDatadogWebhook_settle reply with
      | Ret _ =>
          let newNotification := new_notification serviceName in
          (Returned (Some (notification, newNotification)),
           push_result (success_outcome monitor notification newNotification) w)
      | Throw e => (Rejected e, w)
      | Starved => (t, w)
      end
  | Returned _ => (t, w)
  | Rejected _ => (t, w)
  end.

(** [notifications.map(async function(notification) {...})]: every callback
    is started, in order. *)
Fixpoint spawn (monitor : Monitor) (notifications : list str) (w : World)
    : list Task * World :=
  match notifications with
  | [] => ([], w)
  | notification :: rest =>
      let '(t, w1) := callback_start monitor notification w in
      let '(ts, w2) := spawn monitor rest w1 in
      (t :: ts, w2)
  end.

Definition is_rejected (t : Task) : bool :=
  match t with
  | Rejected _ => true
  | _ => false
  end.

Definition is_waiting (t : Task) : bool :=
  match t with
  | AwaitRootlyId _ _ _ _ => true
  | AwaitWebhook _ _ _ => true
  | _ => false
  end.

Definition returned_patch (t : Task) : option (str * str) :=
  match t with
  | Returned patch => patch
  | _ => None
  end.

(** One turn of the event loop while [processMonitor] waits at
    [await Promise.all(...)]: the callback number [i] runs up to its next
    [await] or to its end.  Once a callback has thrown, [Promise.all] has
    rejected and [processMonitor] no longer waits: no further turn is taken
    here.  In the script the callbacks that are still waiting then run on
    while [main] goes on; the model hands them over to [detached] and does
    not follow them, so that after a rejection [results] and [calls] are
    what they are when [processMonitor] returns.  What is stated about the
    outcomes of a whole run is stated for runs in which no webhook call
    throws. *)
Definition turn (cfg : Config) (remote : Remote) (monitor : Monitor)
    (st : list Task * World) (i : nat) : list Task * World :=
  if existsb is_rejected st.1 then st
  else
    match st.1 !! i with
    | Some t =>
        let '(t', w') := callback_resume cfg remote monitor t st.2 in
        (<[i:=t']> st.1, w')
    | None => st
    end.

(** Every callback gets one turn, in order. *)
Definition round (cfg : Config) (remote : Remote) (monitor : Monitor)
    (st : list Task * World) : list Task * World :=
  fold_left (turn cfg remote monitor) (seq 0 (length st.1)) st.

(** [await Promise.all(...)].  The callbacks take their turns in the order
    [sched], which stands for the order in which the pending promises settle;
    the callbacks that are still waiting after that run in their order
    of creation.  No callback has more than two [await]s, so two rounds end
    them all. *)
Definition await_all (cfg : Config) (remote : Remote) (monitor : Monitor)
    (sched : list nat) (tasks : list Task) (w : World) : list Task * World :=
  round cfg remote monitor
    (round cfg remote monitor
       (fold_left (turn cfg remote monitor) sched (tasks, w))).

(** [processMonitor].  Its body is one [try] block whose [catch] only logs:
    when [Promise.all] rejects the callbacks still waiting are left behind,
    and what [updateDatadogMonitor] throws is dropped. *)
Definition processMonitor (cfg : Config) (remote : Remote) (sched : list nat)
    (monitor : Monitor) (w : World) : World :=
  if has_marker (monitor_message monitor) then
    push_result (skip_outcome monitor) w
  else
    match match_all pagerduty_mention (monitor_message monitor) with
    | [] => push_result (no_mention_outcome monitor) w
    | notifications =>
        let '(tasks, w1) := spawn monitor notifications w in
        let '(tasks, w2) := await_all cfg remote monitor sched tasks w1 in
        if existsb is_rejected tasks then
          detach (map (pair monitor) (List.filter is_waiting tasks)) w2
        else
          match omap returned_patch tasks with
          | [] => w2
          | patches =>
              (updateDatadogMonitor cfg remote (monitor_id monitor) patches w2).2
          end
    end.

(** ** The whole run *)

(** The [for] loop of [main]; [scheds] gives the order of settlement for each
    monitor in turn. *)
Fixpoint process_monitors (cfg : Config) (remote : Remote)
    (scheds : list (list nat)) (monitors : list Monitor) (w : World) : World :=
  match monitors with
  | [] => w
  | monitor :: rest =>
      process_monitors cfg remote (tail scheds) rest
        (processMonitor cfg remote (hd [] scheds) monitor w)
  end.

Definition main (cfg : Config) (remote : Remote) (fuel : nat)
    (scheds : list (list nat)) : M unit :=
  try_catch
    (fetchAndCacheRootlyServices remote fuel ;;;
     fetchAndCachePagerdutyServices remote fuel ;;;
     monitors <- fetchDatadogMonitors remote fuel ;;
     modify (process_monitors cfg remote scheds monitors) ;;;
     modify write_report)
    (fun err => ret tt).

(** How a run of the script ends: stopped by [process.exit], or [main] ran. *)
Inductive Run :=
| Exited (code : nat) (w : World)
| Finished (r : Res unit) (w : World).

Definition program (env : Env) (remote : Remote) (fuel : nat)
    (scheds : list (list nat)) : Run :=
  match exit_at_startup requiredEnvVars env with
  | Some code => Exited code initial_world
  | None =>
      let '(r, w) := main (config_of env) remote fuel scheds initial_world in
      Finished r w
  end.

Definition world_of (r : Run) : World :=
  match r with
  | Exited _ w => w
  | Finished _ w => w
  end.

(** ** Vocabulary of the properties *)

Definition is_write (c : Call) : bool :=
  match c with
  | PostWebhook _ _ _ => true
  | PutMonitor _ _ => true
  | PatchSynthetics _ _ => true
  | _ => false
  end.

Definition is_monitor_write (c : Call) : bool :=
  match c with
  | PutMonitor _ _ => true
  | PatchSynthetics _ _ => true
  | _ => false
  end.

Definition is_monitor_read (c : Call) : bool :=
  match c with
  | GetMonitor _ => true
  | _ => false
  end.

(** A success outcome carries the mention to append and no error. *)
Definition is_success (o : Outcome) : bool :=
  match o_new o, o_error o with
  | Some _, None => true
  | _, _ => false
  end.

Definition is_error (o : Outcome) : bool :=
  match o_error o with
  | Some _ => true
  | None => false
  end.

(** The request that persists [monitor]: the synthetics PATCH or the PUT. *)
Definition write_call (monitorId : str) (monitor : Monitor) : Call :=
  if is_synthetics monitor
  then PatchSynthetics (default [] (synthetics_check_id monitor))
                       (monitor_message monitor)
  else PutMonitor monitorId monitor.

Definition push_calls (cs : list Call) (w : World) : World :=
  {| pagerdutyServicesCache := pagerdutyServicesCache w;
     rootlyServicesCache := rootlyServicesCache w;
     results := results w; calls := calls w ++ cs;
     detached := detached w; report := report w |}.

(** The listing answers [pages], none of them empty, to the requests for
    [page], [page + step], ... and [stop] to the request after them. *)
Fixpoint serves {A} (answer : nat -> Reply (list A)) (page step : nat)
    (pages : list (list A)) (stop : Reply (list A)) : Prop :=
  match pages with
  | [] => answer page = stop
  | p :: rest =>
      p <> [] /\ answer page = Ok p /\ serves answer (page + step) step rest stop
  end.

(** An answer that ends the loop: an empty page or a failure. *)
Definition ends_pagination {A} (stop : Reply (list A)) : bool :=
  match stop with
  | Ok [] => true
  | Ok (_ :: _) => false
  | Failed _ => true
  end.

(** The page parameters of the first [n] requests. *)
Fixpoint page_params (page step n : nat) : list nat :=
  match n with
  | O => []
  | S n' => page :: page_params (page + step) step n'
  end.

(** The patch a callback returns in the end, if its webhook call does not
    throw. *)
Definition fate (t : Task) : option (str * str) :=
  match t with
  | AwaitRootlyId notification serviceName _ rootlyId =>
      if truthy rootlyId then Some (notification, new_notification serviceName)
      else None
  | AwaitWebhook notification serviceName _ =>
      Some (notification, new_notification serviceName)
  | Returned patch => patch
  | Rejected _ => None
  end.

(** The number of [await]s a callback still has to pass. *)
Definition stage (t : Task) : nat :=
  match t with
  | AwaitRootlyId _ _ _ _ => 2
  | AwaitWebhook _ _ _ => 1
  | Returned _ => 0
  | Rejected _ => 0
  end.

(** The callback has not thrown and its pending webhook call, if any, will
    not make it throw. *)
Definition settles (t : Task) : bool :=
  match t with
  | AwaitWebhook _ _ reply =>
      match createDatadogWebhook_settle reply with
      | Ret _ => true
      | _ => false
      end
  | Rejected _ => false
  | _ => true
  end.

(** No answer to a webhook POST makes [createDatadogWebhook] throw: the
    webhook is created, or the error carries a response with [errors]. *)
Definition never_raises (remote : Remote) : Prop :=
  forall h name serviceId,
    createDatadogWebhook_settle (Some (webhook_created remote h name serviceId))
    = Ret tt.

Definition count_success (l : list Outcome) : nat :=
  length (List.filter is_success l).

Definition is_post (c : Call) : bool :=
  match c with
  | PostWebhook _ _ _ => true
  | _ => false
  end.

(** From [w] to [w'] the caches and the report are untouched, outcomes have
    only been appended, and the requests sent in between all satisfy [sent]. *)
Definition grows_by (sent : Call -> bool) (w w' : World) : Prop :=
  pagerdutyServicesCache w' = pagerdutyServicesCache w /\
  rootlyServicesCache w' = rootlyServicesCache w /\
  report w' = report w /\
  (exists rs, results w' = results w ++ rs) /\
  (exists cs, calls w' = calls w ++ cs /\ forallb sent cs = true).

(** The outcome a waiting callback pushes before it ends, if its webhook
    call does not throw. *)
Definition pending (monitor : Monitor) (t : Task) : list Outcome :=
  match t with
  | AwaitRootlyId notification serviceName pagerdutyId rootlyId =>
      if truthy rootlyId
      then [success_outcome monitor notification (new_notification serviceName)]
      else [error_outcome monitor notification
              (lit "Rootly ID not found for PagerDuty ID: " ++ pagerdutyId)]
  | AwaitWebhook notification serviceName _ =>
      [success_outcome monitor notification (new_notification serviceName)]
  | _ => []
  end.

(** What the two lookups make of a mention: the outcome its callback pushes
    and the patch it returns, if its webhook call does not throw. *)
Definition mention_outcome (monitor : Monitor) (w : World) (notification : str)
    : Outcome :=
  let serviceName := fragment_of notification in
  let pagerdutyId := getPagerdutyServiceId (pagerdutyServicesCache w) serviceName in
  if truthy pagerdutyId then
    if truthy (fetchRootlyServiceId (rootlyServicesCache w) (default [] pagerdutyId))
    then success_outcome monitor notification (new_notification serviceName)
    else error_outcome monitor notification
           (lit "Rootly ID not found for PagerDuty ID: " ++ default [] pagerdutyId)
  else error_outcome monitor notification
         (lit "PagerDuty ID not found for service name: " ++ serviceName).

Definition mention_patch (w : World) (notification : str) : option (str * str) :=
  let serviceName := fragment_of notification in
  let pagerdutyId := getPagerdutyServiceId (pagerdutyServicesCache w) serviceName in
  if truthy pagerdutyId
     && truthy (fetchRootlyServiceId (rootlyServicesCache w) (default [] pagerdutyId))
  then Some (notification, new_notification serviceName)
  else None.

(** No webhook call can throw: the run is a dry run, or the remote side never
    answers in a way that makes [createDatadogWebhook] throw. *)
Definition calm (cfg : Config) (remote : Remote) : Prop :=
  dry_run cfg = true \/ never_raises remote.

(** The requests a callback may send: the webhook POST, outside a dry run. *)
Definition sent_by_callback (cfg : Config) (c : Call) : bool :=
  negb (dry_run cfg) && is_post c.

(** The requests [updateDatadogMonitor] may send: the GET of the monitor
    and, outside a dry run, a write of the monitor. *)
Definition sent_by_update (cfg : Config) (c : Call) : bool :=
  is_monitor_read c || negb (dry_run cfg) && is_monitor_write c.

(** The requests [processMonitor] may send. *)
Definition sent_by_monitor (cfg : Config) (c : Call) : bool :=
  is_monitor_read c || negb (dry_run cfg) && is_write c.

(** [s] begins with [prefix] followed by a character that is not white
    space: the regular expression [/<prefix>[^\s]+/] matches at the start
    of [s]. *)
Definition mention_start (prefix s : str) : bool :=
  starts_with prefix s &&
  match drop (length prefix) s with
  | c :: _ => non_space c
  | [] => false
  end.

(** A match found after skipping [x]. *)
Definition shift_match (x : str) (found : option (str * str)) : option (str * str) :=
  match found with
  | Some (before, after) => Some (x ++ before, after)
  | None => None
  end.

(** No dollar sign in [s]: as a replacement text it stands for itself. *)
Definition plain (s : str) : bool :=
  forallb (fun c => negb (bool_decide (c = chr_dollar))) s.

(** The mention resolves: its fragment names a cached PagerDuty service, and
    a cached Rootly service is linked to that one. *)
Definition resolves (w : World) (notification : str) : bool :=
  match mention_patch w notification with
  | Some _ => true
  | None => false
  end.

(** No write has been sent between [w] and [w']. *)
Definition no_new_write (w w' : World) : Prop :=
  List.filter is_write (calls w') = List.filter is_write (calls w).

(** A computation that sends no write. *)
Definition sends_no_write {A} (m : M A) : Prop :=
  forall w, no_new_write w (m w).2.

(** ** A small installation, for the examples *)

Module Example.

(** PagerDuty knows four services; Rootly has a service linked to each. *)
Definition directory : World :=
  {| pagerdutyServicesCache :=
       [ {| pd_id := lit "P1"; pd_name := lit "Checkout" |};
         {| pd_id := lit "P2"; pd_name := lit "Payments" |};
         {| pd_id := lit "P3"; pd_name := lit "x" |};
         {| pd_id := lit "P4"; pd_name := lit "Checkout EU" |} ];
     rootlyServicesCache :=
       [ {| rootly_id := lit "R1"; rootly_pagerduty_id := Some (lit "P1") |};
         {| rootly_id := lit "R2"; rootly_pagerduty_id := Some (lit "P2") |};
         {| rootly_id := lit "R3"; rootly_pagerduty_id := Some (lit "P3") |};
         {| rootly_id := lit "R4"; rootly_pagerduty_id := Some (lit "P4") |} ];
     results := []; calls := []; detached := []; report := None |}.

Definition monitor (message : string) : Monitor :=
  {| monitor_id := lit "42"; monitor_name := lit "latency";
     monitor_message := lit message; monitor_type := lit "metric alert";
     synthetics_check_id := None |}.

Definition normal : Config :=
  {| ROOTLY_ALERT_SOURCE_SECRET := Some "secret"%string; DRY_RUN := None |}.

Definition dry : Config :=
  {| ROOTLY_ALERT_SOURCE_SECRET := Some "secret"%string;
     DRY_RUN := Some "true"%string |}.

(** A remote side that answers every GET of a monitor with [fetched] and
    every webhook POST with [post]; the listings are empty. *)
Definition remote (fetched : Reply (option Monitor)) (post : Reply unit) : Remote :=
  {| pagerduty_page := fun _ => Ok [];
     rootly_page := fun _ => Ok [];
     monitors_page := fun _ => Ok [];
     monitor_by_id := fun _ _ => fetched;
     webhook_created := fun _ _ _ => post;
     monitor_put := fun _ _ _ => Ok tt;
     synthetics_patched := fun _ _ _ => Ok tt |}.

(** A remote side with two pages of PagerDuty services, after which the
    third request fails, one page of Rootly services and one monitor. *)
Definition listing : Remote :=
  {| pagerduty_page := fun offset =>
       match offset with
       | 0 => Ok [ {| pd_id := lit "P1"; pd_name := lit "Checkout" |} ]
       | 25 => Ok [ {| pd_id := lit "P2"; pd_name := lit "Payments" |} ]
       | _ => Failed NoResponse
       end;
     rootly_page := fun page =>
       match page with
       | 1 => Ok [ {| rootly_id := lit "R1"; rootly_pagerduty_id := Some (lit "P1") |} ]
       | _ => Ok []
       end;
     monitors_page := fun page =>
       match page with
       | 0 => Ok [ monitor "alert @pagerduty-checkout is firing" ]
       | _ => Ok []
       end;
     monitor_by_id := fun _ _ =>
       Ok (Some (monitor "alert @pagerduty-checkout is firing"));
     webhook_created := fun _ _ _ => Ok tt;
     monitor_put := fun _ _ _ => Ok tt;
     synthetics_patched := fun _ _ _ => Ok tt |}.

Definition credentials : Env :=
  <["DATADOG_API_KEY"%string := "k1"%string]>
    (<["DATADOG_APP_KEY"%string := "k2"%string]>
       (<["PAGERDUTY_API_TOKEN"%string := "t1"%string]>
          (<["ROOTLY_API_TOKEN"%string := "t2"%string]> ∅))).

Definition credentials_and_secret : Env :=
  <["ROOTLY_ALERT_SOURCE_SECRET"%string := "secret"%string]> credentials.

End Example.

(** ** The report *)

Definition chr_quote : ascii := Eval cbv in ascii_of_nat 34.
Definition chr_comma : ascii := ","%char.
Definition chr_newline : ascii := Eval cbv in ascii_of_nat 10.

(** The global [cell.replace] of [resultsCSV]: every double quote is written
    twice. *)
Definition double_quotes (cell : str) : str :=
  flat_map (fun c => if bool_decide (c = chr_quote) then [chr_quote; chr_quote]
                     else [c]) cell.

(** A cell of the report: between double quotes, its own quotes doubled. *)
Definition csv_cell (cell : str) : str :=
  chr_quote :: double_quotes cell ++ [chr_quote].

(** [array.join(sep)]. *)
Fixpoint join (sep : str) (l : list str) : str :=
  match l with
  | [] => []
  | x :: rest =>
      match rest with
      | [] => x
      | _ :: _ => x ++ sep ++ join sep rest
      end
  end.

Definition csv_headers : list str :=
  [lit "Monitor"; lit "Monitor Name"; lit "Monitor JSON"; lit "Notification";
   lit "Notification to append"; lit "Monitor message";
   lit "New monitor message"; lit "Error"].

(** The row of one outcome; a field that is absent gives the empty string.
    [stringify] stands for [JSON.stringify] on a monitor. *)
Definition csv_row (stringify : Monitor -> str) (result : Outcome) : list str :=
  [monitor_id (o_monitor result); monitor_name (o_monitor result);
   stringify (o_monitor result); default [] (o_old result);
   default [] (o_new result); default [] (o_oldMessage result);
   default [] (o_newMessage result); default [] (o_error result)].

Definition csv_text (rows : list (list str)) : str :=
  join [chr_newline] (map (fun row => join [chr_comma] (map csv_cell row)) rows).

(** [resultsCSV], on the list [results]. *)
Definition resultsCSV (stringify : Monitor -> str) (results : list Outcome) : str :=
  csv_text (csv_headers :: map (csv_row stringify) results).

(** A reader of such a text, to state that the report can be read back:
    where it is in the text. *)
Inductive CsvState :=
| AtCell
| InCell
| AfterQuote.

(** [cell], [row] and [rows] hold what has been read, in reverse. *)
Fixpoint read_csv (st : CsvState) (cell : str) (row : list str)
    (rows : list (list str)) (s : str) : option (list (list str)) :=
  match s with
  | [] =>
      match st with
      | AfterQuote => Some (rev (rev (rev cell :: row) :: rows))
      | _ => None
      end
  | c :: s' =>
      match st with
      | AtCell =>
          if bool_decide (c = chr_quote) then read_csv InCell [] row rows s'
          else None
      | InCell =>
          if bool_decide (c = chr_quote) then read_csv AfterQuote cell row rows s'
          else read_csv InCell (c :: cell) row rows s'
      | AfterQuote =>
          if bool_decide (c = chr_quote)
          then read_csv InCell (c :: cell) row rows s'
          else if bool_decide (c = chr_comma)
          then read_csv AtCell [] (rev cell :: row) rows s'
          else if bool_decide (c = chr_newline)
          then read_csv AtCell [] [] (rev (rev cell :: row) :: rows) s'
          else None
      end
  end.

(** ** Further vocabulary *)

(** [m] is the text of a match of [/<prefix>[^\s]+/]. *)
Definition mention_shaped (prefix m : str) : Prop :=
  exists c run, m = prefix ++ c :: run /\ forallb non_space (c :: run) = true.

(** [pat] occurs in [s]. *)
Definition occurs (pat s : str) : bool :=
  match find_first pat s with
  | Some _ => true
  | None => false
  end.

(** A patch whose new mention names a webhook: [@webhook-rootly-] followed by
    a normalized name that is not empty. *)
Definition named_patch (patch : str * str) : Prop :=
  exists serviceName,
    patch.2 = new_notification serviceName /\ normalizedServiceName serviceName <> [].

(** * The earlier script, [index.js] *)

(** The earlier script caches the PagerDuty services only and asks Rootly
    for the service of each mention.  It takes the mentions of a monitor one
    after the other and rewrites the monitor once per mention.  It has no dry
    run and keeps no outcomes.  Its normalizer and its [getPagerdutyServiceId]
    are those of the current script. *)
Module Index.

Inductive Call :=
| GetPagerdutyServices (offset : nat)
| GetRootlyServices (pagerdutyId : str)
| GetMonitors (page : nat)
| GetMonitor (monitorId : str)
| PostWebhook (name serviceId : str)
| PutMonitor (monitorId : str) (monitor : Monitor)
| PatchSynthetics (checkId message : str).

(** How the three services answer; [rootly_services] answers the GET of the
    Rootly services filtered by PagerDuty id. *)
Record Remote := {
  pagerduty_page : nat -> Reply (list PagerdutyService);
  monitors_page : nat -> Reply (list Monitor);
  rootly_services : list Call -> str -> Reply (list RootlyService);
  monitor_by_id : list Call -> str -> Reply (option Monitor);
  webhook_created : list Call -> str -> str -> Reply unit;
  monitor_put : list Call -> str -> Monitor -> Reply unit;
  synthetics_patched : list Call -> str -> str -> Reply unit
}.

(** What can be thrown: besides the two of the current script, the [Error]
    that [fetchRootlyServiceId] makes itself. *)
Inductive Exn :=
| AxiosFailure (e : AxiosError)
| TypeError
| Error (message : str).

(** The module-level variable of the script and the requests sent so far. *)
Record World := {
  pagerdutyServicesCache : list PagerdutyService;
  calls : list Call
}.

Definition initial_world : World :=
  {| pagerdutyServicesCache := []; calls := [] |}.

Definition push_call (c : Call) (w : World) : World :=
  {| pagerdutyServicesCache := pagerdutyServicesCache w; calls := calls w ++ [c] |}.

Definition push_calls (cs : list Call) (w : World) : World :=
  {| pagerdutyServicesCache := pagerdutyServicesCache w; calls := calls w ++ cs |}.

Definition set_pagerdutyServicesCache (l : list PagerdutyService) (w : World) : World :=
  {| pagerdutyServicesCache := l; calls := calls w |}.

Inductive Res (A : Type) :=
| Ret (a : A)
| Throw (e : Exn)
| Starved.
Arguments Ret {A} a.
Arguments Throw {A} e.
Arguments Starved {A}.

Definition M (A : Type) : Type := World -> Res A * World.

Definition ret {A} (a : A) : M A := fun w => (Ret a, w).

Definition throw {A} (e : Exn) : M A := fun w => (Throw e, w).

Definition bind {A B} (m : M A) (k : A -> M B) : M B :=
  fun w =>
    match m w with
    | (Ret a, w') => k a w'
    | (Throw e, w') => (Throw e, w')
    | (Starved, w') => (Starved, w')
    end.

Definition try_catch {A} (body : M A) (handler : Exn -> M A) : M A :=
  fun w =>
    match body w with
    | (Throw e, w') => handler e w'
    | other => other
    end.

Definition modify (f : World -> World) : M unit := fun w => (Ret tt, f w).

(** Reading a module-level variable. *)
Definition read {A} (f : World -> A) : M A := fun w => (Ret (f w), w).

Declare Scope index_scope.
Notation "x <- m ;; k" := (bind m (fun x => k))
  (at level 100, m at next level, right associativity) : index_scope.
Notation "m ;;; k" := (bind m (fun _ => k))
  (at level 100, right associativity) : index_scope.
Local Open Scope index_scope.

Definition request {A} (c : Call) (answer : list Call -> Reply A) : M A :=
  fun w =>
    match answer (calls w) with
    | Ok a => (Ret a, push_call c w)
    | Failed e => (Throw (AxiosFailure e), push_call c w)
    end.

(** The [while (true)] loop of the two fetchers. *)
Fixpoint paginate {A} (get : nat -> Call) (answer : nat -> Reply (list A))
    (step fuel page : nat) (acc : list A) : M (list A) :=
  match fuel with
  | O => fun w => (Starved, w)
  | S fuel' =>
      fun w =>
        let w' := push_call (get page) w in
        match answer page with
        | Ok [] => (Ret acc, w')
        | Ok fetched =>
            paginate get answer step fuel' (page + step) (acc ++ fetched) w'
        | Failed _ => (Ret acc, w')
        end
  end.

Definition fetchAndCachePagerdutyServices (remote : Remote) (fuel : nat) : M unit :=
  services <- paginate GetPagerdutyServices (pagerduty_page remote) 25 fuel 0 [] ;;
  modify (set_pagerdutyServicesCache services).

(** [start] begins at 1 and goes up by 1. *)
Definition fetchDatadogMonitors (remote : Remote) (fuel : nat) : M (list Monitor) :=
  paginate GetMonitors (monitors_page remote) 1 fuel 1 [].

(** The GET of the Rootly services with the filter; the function throws on an
    empty answer and catches what it throws, after which it returns
    [undefined]. *)
Definition fetchRootlyServiceId (remote : Remote) (pagerdutyId : str)
    : M (option str) :=
  try_catch
    (services <- request (GetRootlyServices pagerdutyId)
                         (fun h => rootly_services remote h pagerdutyId) ;;
     match services with
     | [] => throw (Error (lit "No Rootly service found with pagerduty ID: "
                           ++ pagerdutyId))
     | service :: _ => ret (Some (rootly_id service))
     end)
    (fun error => ret None).

(** The [catch] block reads [error.response.data.errors[0]], as in the
    current script. *)
Definition createDatadogWebhook (remote : Remote) (serviceName serviceId : str)
    : M unit :=
  try_catch
    (request (PostWebhook (webhook_name serviceName) serviceId)
             (fun h => webhook_created remote h (webhook_name serviceName) serviceId))
    (fun error =>
       match error with
       | AxiosFailure (ErrorResponse (Some errors)) =>
           if bool_decide (head errors = Some (lit "Webhook already exists"))
           then ret tt
           else ret tt
       | AxiosFailure (ErrorResponse None) => throw TypeError
       | AxiosFailure NoResponse => throw TypeError
       | TypeError => throw TypeError
       | Error _ => throw TypeError
       end).

(** One mention per call: the monitor is read, the mention replaced, and
    the monitor written.  The [catch] block reads [error.response.data]. *)
Definition updateDatadogMonitor (remote : Remote)
    (monitorId oldNotification newNotification : str) : M unit :=
  try_catch
    (fetched <- request (GetMonitor monitorId)
                        (fun h => monitor_by_id remote h monitorId) ;;
     match fetched with
     | Some monitor =>
         let monitor :=
           set_message monitor
             (replace (monitor_message monitor) oldNotification
                      (oldNotification ++ lit " " ++ newNotification)) in
         if is_synthetics monitor then
           let checkId := default [] (synthetics_check_id monitor) in
           request (PatchSynthetics checkId (monitor_message monitor))
                   (fun h => synthetics_patched remote h checkId
                                                (monitor_message monitor))
         else
           request (PutMonitor monitorId monitor)
                   (fun h => monitor_put remote h monitorId monitor)
     | None => ret tt
     end)
    (fun error =>
       match error with
       | AxiosFailure (ErrorResponse _) => ret tt
       | AxiosFailure NoResponse => throw TypeError
       | TypeError => throw TypeError
       | Error _ => throw TypeError
       end).

(** The marker of the earlier script is [@webhooks-rootly-]. *)
Definition rootly_mention : str := Eval cbv in lit "@webhooks-rootly-".

Definition has_marker (message : str) : bool :=
  match regex_exec rootly_mention message with
  | Some _ => true
  | None => false
  end.

(** The mention is appended with the name as it stands in the message. *)
Definition new_notification (serviceName : str) : str :=
  rootly_mention ++ serviceName.

(** [for (const x of l) { await body(x) }]. *)
Fixpoint for_each {A} (l : list A) (body : A -> M unit) : M unit :=
  match l with
  | [] => ret tt
  | x :: rest => body x ;;; for_each rest body
  end.

(** The body of the loop over the mentions of a monitor. *)
Definition migrate_mention (remote : Remote) (monitor : Monitor)
    (notification : str) : M unit :=
  let serviceName := fragment_of notification in
  cache <- read pagerdutyServicesCache ;;
  let pagerdutyId := getPagerdutyServiceId cache serviceName in
  if truthy pagerdutyId then
    let pagerdutyId := default [] pagerdutyId in
    rootlyId <- fetchRootlyServiceId remote pagerdutyId ;;
    if truthy rootlyId then
      createDatadogWebhook remote serviceName (default [] rootlyId) ;;;
      updateDatadogMonitor remote (monitor_id monitor) notification
                           (new_notification serviceName)
    else ret tt
  else ret tt.

Definition processMonitor (remote : Remote) (monitor : Monitor) : M unit :=
  try_catch
    (if has_marker (monitor_message monitor) then ret tt
     else
       match match_all pagerduty_mention (monitor_message monitor) with
       | [] => ret tt
       | notifications => for_each notifications (migrate_mention remote monitor)
       end)
    (fun error => ret tt).

Definition main (remote : Remote) (fuel : nat) : M unit :=
  try_catch
    (fetchAndCachePagerdutyServices remote fuel ;;;
     monitors <- fetchDatadogMonitors remote fuel ;;
     for_each monitors (processMonitor remote))
    (fun error => ret tt).

(** ** Vocabulary for the statements *)

Definition is_monitor_write (c : Call) : bool :=
  match c with
  | PutMonitor _ _ => true
  | PatchSynthetics _ _ => true
  | _ => false
  end.

(** The request that persists [monitor]. *)
Definition write_call (monitorId : str) (monitor : Monitor) : Call :=
  if is_synthetics monitor
  then PatchSynthetics (default [] (synthetics_check_id monitor))
                       (monitor_message monitor)
  else PutMonitor monitorId monitor.

(** The requests that the processing of [monitor] may send. *)
Definition sent_for (monitor : Monitor) (c : Call) : bool :=
  match c with
  | GetRootlyServices _ => true
  | PostWebhook _ _ => true
  | GetMonitor monitorId => bool_decide (monitorId = monitor_id monitor)
  | PutMonitor monitorId _ => bool_decide (monitorId = monitor_id monitor)
  | PatchSynthetics _ _ => true
  | _ => false
  end.

(** No request ends in a way that makes a [catch] block throw: every error
    of a webhook POST carries a response with [errors], and every error of a
    GET or a write of a monitor carries a response. *)
Definition calm (remote : Remote) : Prop :=
  (forall h name serviceId,
      webhook_created remote h name serviceId <> Failed NoResponse /\
      webhook_created remote h name serviceId <> Failed (ErrorResponse None)) /\
  (forall h monitorId, monitor_by_id remote h monitorId <> Failed NoResponse) /\
  (forall h monitorId monitor,
      monitor_put remote h monitorId monitor <> Failed NoResponse) /\
  (forall h checkId message,
      synthetics_patched remote h checkId message <> Failed NoResponse).

(** The four requests of a mention that is migrated. *)
Definition migration_of (monitor : Monitor) (notification : str)
    (group : list Call) : Prop :=
  exists pagerdutyId rootlyId written,
    group = [GetRootlyServices pagerdutyId;
             PostWebhook (webhook_name (fragment_of notification)) rootlyId;
             GetMonitor (monitor_id monitor);
             write_call (monitor_id monitor) written].

End Index.

(** A PagerDuty directory and a remote side for the earlier script. *)
Module IndexExample.

Definition directory : Index.World :=
  {| Index.pagerdutyServicesCache :=
       [ {| pd_id := lit "P1"; pd_name := lit "Checkout" |};
         {| pd_id := lit "P2"; pd_name := lit "Payments" |} ];
     Index.calls := [] |}.

Definition linked (pagerdutyId : str) : list RootlyService :=
  [ {| rootly_id := lit "R-" ++ pagerdutyId;
       rootly_pagerduty_id := Some pagerdutyId |} ].

(** Every PagerDuty service is linked, the monitor reads back as [fetched],
    and the webhook POST is answered by [post]. *)
Definition remote (fetched : Monitor) (post : Reply unit) : Index.Remote :=
  {| Index.pagerduty_page := fun offset =>
       match offset with
       | 0 => Ok (Index.pagerdutyServicesCache directory)
       | _ => Ok []
       end;
     Index.monitors_page := fun page =>
       match page with
       | 1 => Ok [fetched]
       | _ => Ok []
       end;
     Index.rootly_services := fun _ pagerdutyId => Ok (linked pagerdutyId);
     Index.monitor_by_id := fun _ _ => Ok (Some fetched);
     Index.webhook_created := fun _ _ _ => post;
     Index.monitor_put := fun _ _ _ => Ok tt;
     Index.synthetics_patched := fun _ _ _ => Ok tt |}.

End IndexExample.

(** ** Vocabulary for what a run records and sends *)

(** The characters are the same up to the case of a letter [A-Z]: they are
    equal, or one is a letter [A-Z] and the other is that letter in lower
    case. *)
Definition same_letter (x y : ascii) : Prop :=
  x = y \/
  (is_upper x = true /\ y = ascii_of_N (code x + 32)) \/
  (is_upper y = true /\ x = ascii_of_N (code y + 32)).

(** The outcome is about the mention [notification]. *)
Definition about (notification : str) (o : Outcome) : bool :=
  bool_decide (o_old o = Some notification).

(** The request creates the webhook named after [serviceName]. *)
Definition posts_for (serviceName : str) (c : Call) : bool :=
  match c with
  | PostWebhook name _ _ => bool_decide (name = webhook_name serviceName)
  | _ => false
  end.

(** The callback is not one of the mention [notification], and the webhook
    it asks for is not the one named after that mention. *)
Definition apart_from (notification : str) (t : Task) : bool :=
  match t with
  | AwaitRootlyId n serviceName _ _ =>
      negb (bool_decide (n = notification))
      && negb (bool_decide (webhook_name serviceName
                            = webhook_name (fragment_of notification)))
  | AwaitWebhook n serviceName _ =>
      negb (bool_decide (n = notification))
      && negb (bool_decide (webhook_name serviceName
                            = webhook_name (fragment_of notification)))
  | Returned (Some (n, _)) => negb (bool_decide (n = notification))
  | Returned None => true
  | Rejected _ => true
  end.

(** From [w] to [w'] the outcomes pushed all satisfy [pushed] and the
    requests sent all satisfy [sent]. *)
Definition extends_by (pushed : Outcome -> bool) (sent : Call -> bool)
    (w w' : World) : Prop :=
  (exists rs, results w' = results w ++ rs /\ forallb pushed rs = true) /\
  (exists cs, calls w' = calls w ++ cs /\ forallb sent cs = true).

(** The requests that the processing of [monitor] may send: the GET of the
    monitor and, outside a dry run, webhook POSTs, the PUT of the monitor
    and the PATCH of a synthetics test. *)
Definition sent_for (cfg : Config) (monitor : Monitor) (c : Call) : bool :=
  match c with
  | GetMonitor monitorId => bool_decide (monitorId = monitor_id monitor)
  | PostWebhook _ _ _ => negb (dry_run cfg)
  | PutMonitor monitorId _ =>
      negb (dry_run cfg) && bool_decide (monitorId = monitor_id monitor)
  | PatchSynthetics _ _ => negb (dry_run cfg)
  | _ => false
  end.

(** The request is a write of [monitor] with patches of which none is for
    the mention [notification]. *)
Definition writes_without (monitor : Monitor) (notification : str) (c : Call) : Prop :=
  exists fetched patches,
    Forall (fun patch => patch.1 <> notification) patches /\
    c = write_call (monitor_id monitor)
          (set_message fetched (apply_patches (monitor_message fetched) patches)).
(** ** The normalizer *)

Section Normalizer.

Ltac all_chars c := destruct c as [[] [] [] [] [] [] [] []]; vm_compute; try reflexivity; try discriminate.

Lemma lower_char_in_class c : in_name_class (lower_char c) = in_name_class c.
Proof. all_chars c. Qed.

Lemma lower_char_normal c : in_name_class c = true -> is_normal_char (lower_char c) = true.
Proof. all_chars c. Qed.

Lemma normal_char_lower c : is_normal_char c = true -> lower_char c = c.
Proof. all_chars c. Qed.

Lemma normal_char_in_class c : is_normal_char c = true -> in_name_class c = true.
Proof. all_chars c. Qed.

Lemma replace_runs_in_class in_run s :
  forallb in_name_class (replace_runs in_name_class [chr_underscore] in_run s) = true.
Proof.
  revert in_run; induction s as [|c s IH]; intros in_run; simpl; [done|].
  destruct (in_name_class c) eqn:Hc; simpl.
  - by rewrite Hc, IH.
  - destruct in_run; simpl; by rewrite IH.
Qed.

Lemma replace_runs_id in_run s :
  forallb in_name_class s = true ->
  replace_runs in_name_class [chr_underscore] in_run s = s.
Proof.
  revert in_run; induction s as [|c s IH]; intros in_run; simpl; [done|].
  intros [Hc Hs]%andb_true_iff. rewrite Hc. by rewrite IH.
Qed.

Lemma toLowerCase_normal s :
  forallb in_name_class s = true -> forallb is_normal_char (toLowerCase s) = true.
Proof.
  induction s as [|c s IH]; simpl; [done|].
  intros [Hc Hs]%andb_true_iff. by rewrite lower_char_normal, IH.
Qed.

Lemma toLowerCase_id s :
  forallb is_normal_char s = true -> toLowerCase s = s.
Proof.
  induction s as [|c s IH]; simpl; [done|].
  intros [Hc Hs]%andb_true_iff. unfold toLowerCase in *. simpl.
  by rewrite normal_char_lower, IH.
Qed.

Lemma normal_in_class s :
  forallb is_normal_char s = true -> forallb in_name_class s = true.
Proof.
  induction s as [|c s IH]; simpl; [done|].
  intros [Hc Hs]%andb_true_iff. by rewrite normal_char_in_class, IH.
Qed.

Lemma strip_leading_sep_normal s :
  forallb is_normal_char s = true -> forallb is_normal_char (strip_leading_sep s) = true.
Proof.
  destruct s as [|c s]; simpl; [done|].
  intros [Hc Hs]%andb_true_iff. destruct (is_sep c); simpl; [done|].
  by rewrite Hc.
Qed.

(** The normalizer only ever returns characters of [[a-z0-9_-]]. *)
Lemma normalizedServiceName_normal s :
  forallb is_normal_char (normalizedServiceName s) = true.
Proof.
  unfold normalizedServiceName.
  apply strip_leading_sep_normal, toLowerCase_normal, replace_runs_in_class.
Qed.

(** On a string that is already made of [[a-z0-9_-]] the normalizer does
    nothing but drop one leading separator. *)
Lemma normalizedServiceName_on_normal s :
  forallb is_normal_char s = true -> normalizedServiceName s = strip_leading_sep s.
Proof.
  intros Hs. unfold normalizedServiceName.
  rewrite replace_runs_id by by apply normal_in_class.
  by rewrite toLowerCase_id.
Qed.

Lemma strip_leading_sep_fixed s :
  strip_leading_sep s = s <-> starts_with_sep s = false.
Proof.
  destruct s as [|c s]; simpl; [done|].
  destruct (is_sep c); split; try done.
  intros Heq. apply (f_equal length) in Heq. simpl in Heq. lia.
Qed.

Lemma replace_runs_map in_run s :
  replace_runs in_name_class [chr_underscore] in_run s =
  map (fun c => if in_name_class c then c else chr_underscore)
      (squeeze_runs in_name_class in_run s).
Proof.
  revert in_run; induction s as [|c s IH]; intros in_run; simpl; [done|].
  destruct (in_name_class c) eqn:Hc; simpl.
  - rewrite Hc. f_equal. apply IH.
  - destruct in_run; simpl; [apply IH|]. rewrite Hc. f_equal. apply IH.
Qed.

Lemma replace_runs_squeeze in_run s :
  toLowerCase (replace_runs in_name_class [chr_underscore] in_run s) =
  map (fun c => if in_name_class c then c else chr_underscore)
      (toLowerCase (squeeze_runs in_name_class in_run s)).
Proof.
  revert in_run; induction s as [|c s IH]; intros in_run; simpl; [done|].
  destruct (in_name_class c) eqn:Hc; simpl.
  - rewrite lower_char_in_class, Hc. f_equal. apply IH.
  - destruct in_run; simpl.
    + apply IH.
    + rewrite lower_char_in_class, Hc. f_equal. apply IH.
Qed.

End Normalizer.

(** C2 (as amended).  The normalizer replaces every maximal run of
    characters outside [[A-Za-z0-9_-]] by one underscore (one per run, not one
    per character), lowercases, and drops one leading [_] or [-]; lowercasing
    first, as the specification has it, gives the same on these strings.  It
    is a total function. *)
Theorem normalizedServiceName_replaces_runs (s : str) :
  normalizedServiceName s = normalize_runs s /\
  normalize_runs s = normalize_spec (squeeze_runs in_name_class false s).
Proof.
  unfold normalizedServiceName, normalize_runs, normalize_spec. split.
  - by rewrite replace_runs_map.
  - by rewrite <- replace_runs_map, replace_runs_squeeze.
Qed.

(** C2, as stated, fails on the example of the README: the two characters
    between [Production] and [On] give one underscore. *)
Lemma normalizedServiceName_not_per_character :
  normalizedServiceName (lit "[Production] On-Call") = lit "production_on-call" /\
  normalize_spec (lit "[Production] On-Call") = lit "production__on-call" /\
  normalizedServiceName (lit "[Production] On-Call")
    <> normalize_spec (lit "[Production] On-Call").
Proof. by vm_compute. Qed.

(** C3 (as amended).  Normalizing a normalized name strips one more leading
    separator and changes nothing else; so it gives the same name exactly when
    that name does not begin with [_] or [-]. *)
Theorem normalizedServiceName_twice (x : str) :
  normalizedServiceName (normalizedServiceName x)
    = strip_leading_sep (normalizedServiceName x) /\
  (normalizedServiceName (normalizedServiceName x) = normalizedServiceName x
   <-> starts_with_sep (normalizedServiceName x) = false).
Proof.
  assert (Hn := normalizedServiceName_on_normal _ (normalizedServiceName_normal x)).
  split; [done|]. rewrite Hn. apply strip_leading_sep_fixed.
Qed.

(** C3, as stated, fails: only one leading separator is stripped per pass. *)
Lemma normalizedServiceName_not_idempotent :
  normalizedServiceName (lit "- Payments") = lit "_payments" /\
  normalizedServiceName (normalizedServiceName (lit "- Payments")) = lit "payments" /\
  normalizedServiceName (normalizedServiceName (lit "- Payments"))
    <> normalizedServiceName (lit "- Payments").
Proof. by vm_compute. Qed.

Lemma normalizedServiceName_twice_witness :
  normalizedServiceName (normalizedServiceName (lit "Checkout"))
    = normalizedServiceName (lit "Checkout").
Proof.
  apply (normalizedServiceName_twice (lit "Checkout")). reflexivity.
Defined.

(** ** Startup *)

Lemma first_missing_some required env envVar :
  In envVar required -> truthy_string (env !! envVar) = false ->
  exists v, first_missing required env = Some v.
Proof.
  intros Hin Hv. unfold first_missing.
  destruct (find _ required) as [v|] eqn:Hf; [by eexists|].
  eapply find_none in Hf; [|done]. by rewrite Hv in Hf.
Qed.

Lemma first_missing_none required env :
  Forall (fun v => truthy_string (env !! v) = true) required ->
  first_missing required env = None.
Proof.
  intros Hall. unfold first_missing.
  destruct (find _ required) as [v|] eqn:Hf; [|done].
  apply find_some in Hf as [Hin Hv].
  rewrite Forall_forall in Hall. apply list_elem_of_In, Hall in Hin.
  by rewrite Hin in Hv.
Qed.

(** C9 (as amended).  The current script exits with code 1, before any
    request, when one of its five required variables is unset or empty, and
    the alert-source secret is one of the five.  The earlier script, which
    never reads the secret, passes its check as soon as the four credentials
    are set. *)
Theorem startup_check (env : Env) :
  (forall envVar remote fuel scheds,
      In envVar requiredEnvVars -> truthy_string (env !! envVar) = false ->
      program env remote fuel scheds = Exited 1 initial_world /\
      calls (world_of (program env remote fuel scheds)) = []) /\
  In "ROOTLY_ALERT_SOURCE_SECRET"%string requiredEnvVars /\
  (Forall (fun v => truthy_string (env !! v) = true) requiredEnvVars ->
   exit_at_startup requiredEnvVars env = None) /\
  (Forall (fun v => truthy_string (env !! v) = true) Legacy.requiredEnvVars ->
   Legacy.exit_at_startup env = None).
Proof.
  split; [|split; [|split]].
  - intros envVar remote fuel scheds Hin Hv.
    destruct (first_missing_some _ _ _ Hin Hv) as [v Hm].
    unfold program, exit_at_startup. by rewrite Hm.
  - unfold requiredEnvVars. simpl. tauto.
  - intros H. unfold exit_at_startup. by rewrite first_missing_none.
  - intros H. unfold Legacy.exit_at_startup. by rewrite first_missing_none.
Qed.

(** ** Fetching the listings *)

Lemma push_calls_push_call c cs w :
  push_calls cs (push_call c w) = push_calls (c :: cs) w.
Proof. unfold push_calls, push_call; simpl. by rewrite <- app_assoc. Qed.

Section Paginate.

Context {A : Type} (get : nat -> Call) (answer : nat -> Reply (list A))
  (step : nat) (stop : Reply (list A)).

Lemma paginate_serves pages :
  ends_pagination stop = true ->
  forall fuel page acc w,
    length pages < fuel ->
    serves answer page step pages stop ->
    paginate get answer step fuel page acc w
    = (Ret (acc ++ concat pages),
       push_calls (map get (page_params page step (S (length pages)))) w).
Proof.
  intros Hstop. induction pages as [|p rest IH]; intros fuel page acc w Hfuel Hserves.
  - destruct fuel as [|fuel]; [simpl in Hfuel; lia|]. simpl in *.
    rewrite Hserves, app_nil_r.
    destruct stop as [[|]|]; try done.
  - destruct fuel as [|fuel]; [simpl in Hfuel; lia|].
    destruct Hserves as (Hp & Hans & Hrest). simpl.
    rewrite Hans. destruct p as [|x p]; [done|].
    rewrite IH; [|simpl in Hfuel; lia|done].
    rewrite push_calls_push_call. by rewrite <- app_assoc.
Qed.

(** As long as the pages are not empty the loop goes on: with no more fuel
    than pages it does not end. *)
Lemma paginate_starved pages rest fuel page acc w :
  fuel <= length pages ->
  serves answer page step pages rest ->
  (paginate get answer step fuel page acc w).1 = Starved.
Proof.
  revert pages page acc w.
  induction fuel as [|fuel IH]; intros pages page acc w Hlen Hs; [done|].
  destruct pages as [|p pages]; [simpl in Hlen; lia|].
  destruct Hs as (Hp & Hans & Hrest). simpl. rewrite Hans.
  destruct p as [|x p]; [done|].
  apply (IH pages); [simpl in Hlen; lia|done].
Qed.

End Paginate.

(** C7.  Each of the three fetchers asks for its pages in order (offsets 0,
    25, ... for PagerDuty, pages 1, 2, ... for Rootly, pages 0, 1, ... for
    Datadog), appends the pages it gets in that order, and stops at the first
    answer that is an empty page or a failure; it then returns normally with
    exactly the items of the pages before that answer. *)
Theorem paginated_fetch_accumulates (remote : Remote) (fuel : nat) (w : World)
    (pd_pages : list (list PagerdutyService)) (pd_stop : Reply (list PagerdutyService))
    (r_pages : list (list RootlyService)) (r_stop : Reply (list RootlyService))
    (m_pages : list (list Monitor)) (m_stop : Reply (list Monitor)) :
  serves (pagerduty_page remote) 0 25 pd_pages pd_stop ->
  ends_pagination pd_stop = true -> length pd_pages < fuel ->
  serves (rootly_page remote) 1 1 r_pages r_stop ->
  ends_pagination r_stop = true -> length r_pages < fuel ->
  serves (monitors_page remote) 0 1 m_pages m_stop ->
  ends_pagination m_stop = true -> length m_pages < fuel ->
  fetchAndCachePagerdutyServices remote fuel w
  = (Ret tt,
     set_pagerdutyServicesCache (concat pd_pages)
       (push_calls (map GetPagerdutyServices
                        (page_params 0 25 (S (length pd_pages)))) w)) /\
  fetchAndCacheRootlyServices remote fuel w
  = (Ret (concat r_pages),
     set_rootlyServicesCache (concat r_pages)
       (push_calls (map GetRootlyServices
                        (page_params 1 1 (S (length r_pages)))) w)) /\
  fetchDatadogMonitors remote fuel w
  = (Ret (concat m_pages),
     push_calls (map GetMonitors (page_params 0 1 (S (length m_pages)))) w).
Proof.
  intros Hpd Hpds Hpdf Hr Hrs Hrf Hm Hms Hmf.
  unfold fetchAndCachePagerdutyServices, fetchAndCacheRootlyServices,
    fetchDatadogMonitors, bind, modify, ret.
  rewrite (paginate_serves _ _ _ _ pd_pages Hpds) by done.
  rewrite (paginate_serves _ _ _ _ r_pages Hrs) by done.
  rewrite (paginate_serves _ _ _ _ m_pages Hms) by done.
  done.
Qed.

(** ** Callbacks under [Promise.all] *)

Lemma insert_split {A} (l : list A) i x y :
  l !! i = Some x ->
  l = take i l ++ x :: drop (S i) l /\
  <[i:=y]> l = take i l ++ y :: drop (S i) l.
Proof.
  intros Hl. split; [by rewrite take_drop_middle|].
  apply insert_take_drop. by eapply lookup_lt_Some.
Qed.

Section Callbacks.

Variables (cfg : Config) (remote : Remote) (monitor : Monitor).

Local Abbreviation Turn := (turn cfg remote monitor).
Local Abbreviation Round := (round cfg remote monitor).
Local Abbreviation AwaitAll := (await_all cfg remote monitor).
Local Abbreviation Resume := (callback_resume cfg remote monitor).

Lemma turn_cases st i :
  Turn st i = st \/
  exists t t' w',
    existsb is_rejected st.1 = false /\ st.1 !! i = Some t /\
    Resume t st.2 = (t', w') /\ Turn st i = (<[i:=t']> st.1, w').
Proof.
  unfold turn. destruct (existsb is_rejected st.1) eqn:Hrej; [by left|].
  destruct (st.1 !! i) as [t|] eqn:Hi; [|by left].
  destruct (Resume t st.2) as [t' w'] eqn:Hres.
  right. by exists t, t', w'.
Qed.

Lemma turn_rejected st i : existsb is_rejected st.1 = true -> Turn st i = st.
Proof. intros H. unfold turn. by rewrite H. Qed.

Lemma turns_rejected st l :
  existsb is_rejected st.1 = true -> fold_left Turn l st = st.
Proof.
  induction l as [|i l IH]; simpl; [done|]. intros H.
  rewrite turn_rejected by done. by apply IH.
Qed.

Lemma turns_preserve (P : list Task * World -> Prop) l :
  (forall st i, P st -> P (Turn st i)) ->
  forall st, P st -> P (fold_left Turn l st).
Proof.
  intros Hstep. induction l as [|i l IH]; simpl; [done|].
  intros st Hst. by apply IH, Hstep.
Qed.

(** What is true before [await Promise.all] and is kept by every turn of a
    callback is true after it. *)
Lemma await_all_preserves (P : list Task * World -> Prop) sched tasks w :
  (forall st i, P st -> P (Turn st i)) ->
  P (tasks, w) -> P (AwaitAll sched tasks w).
Proof.
  intros Hstep H0. unfold await_all, round.
  do 3 (apply (turns_preserve P); [done|]). done.
Qed.

Lemma turn_length st i : length (Turn st i).1 = length st.1.
Proof.
  destruct (turn_cases st i) as [->|(t & t' & w' & _ & _ & _ & ->)]; [done|].
  simpl. apply length_insert.
Qed.

Lemma await_all_length sched tasks w :
  length (AwaitAll sched tasks w).1 = length tasks.
Proof.
  apply (await_all_preserves (fun st => length st.1 = length tasks)); [|done].
  intros st i <-. apply turn_length.
Qed.

Lemma callback_resume_stage t w :
  stage (Resume t w).1 <= pred (stage t).
Proof.
  destruct t as [n s pd rid|n s reply|p|e]; simpl; try lia.
  - destruct (truthy rid); simpl; [|lia].
    by destruct (createDatadogWebhook_send _ _ _ _ _).
  - destruct (createDatadogWebhook_settle reply) eqn:Hs; simpl; try lia.
    destruct reply as [[|[|[|]]]|]; simpl in Hs; try done.
    by destruct (bool_decide _).
Qed.

(** A turn never moves a callback backwards, and moves the one it picks. *)
Lemma turn_stage st i j t' :
  (Turn st i).1 !! j = Some t' ->
  exists t, st.1 !! j = Some t /\ stage t' <= stage t /\
    (i = j -> existsb is_rejected (Turn st i).1 = false -> stage t' <= pred (stage t)).
Proof.
  destruct (turn_cases st i) as [Heq|(t & t1 & w' & Hrej & Hi & Hres & Heq)].
  - rewrite Heq. intros Hj. exists t'. split; [done|]. split; [lia|].
    intros -> Hrej. unfold turn in Heq. rewrite Hrej, Hj in Heq.
    destruct (Resume t' st.2) as [t1 w1] eqn:Hres.
    assert (t1 = t') as ->.
    { apply (f_equal fst) in Heq. simpl in Heq.
      apply (f_equal (fun l => l !! j)) in Heq.
      rewrite list_lookup_insert_eq in Heq by by eapply lookup_lt_Some.
      congruence. }
    pose proof (callback_resume_stage t' st.2) as Hst. by rewrite Hres in Hst.
  - rewrite Heq. simpl. intros Hj.
    destruct (decide (i = j)) as [->|Hne].
    + rewrite list_lookup_insert_eq in Hj by by eapply lookup_lt_Some.
      injection Hj as <-. exists t. split; [done|].
      pose proof (callback_resume_stage t st.2) as Hst. rewrite Hres in Hst.
      simpl in Hst. split; [lia|done].
    + rewrite list_lookup_insert_ne in Hj by done.
      exists t'. split; [done|]. split; [lia|done].
Qed.

Lemma turns_keep_rejection st l :
  existsb is_rejected st.1 = true -> existsb is_rejected (fold_left Turn l st).1 = true.
Proof. intros H. by rewrite turns_rejected. Qed.

(** After the turns of the callbacks [a], [a+1], ..., [a+n-1], if none has
    thrown, each of them is one [await] further. *)
Lemma turns_seq_stage n : forall a st j t',
  existsb is_rejected (fold_left Turn (seq a n) st).1 = false ->
  (fold_left Turn (seq a n) st).1 !! j = Some t' ->
  exists t, st.1 !! j = Some t /\ stage t' <= stage t /\
    (a <= j < a + n -> stage t' <= pred (stage t)).
Proof.
  induction n as [|n IH]; intros a st j t' Hrej Hj; simpl in *.
  - exists t'. split; [done|]. split; lia.
  - destruct (IH _ _ _ _ Hrej Hj) as (t1 & Hj1 & Hle1 & Hin1).
    destruct (turn_stage _ _ _ _ Hj1) as (t & Hj0 & Hle0 & Hin0).
    exists t. split; [done|]. split; [lia|]. intros Hrange.
    destruct (decide (a = j)) as [->|Hne].
    + assert (existsb is_rejected (Turn st j).1 = false) as Hr.
      { destruct (existsb is_rejected (Turn st j).1) eqn:E; [|done].
        by rewrite turns_keep_rejection in Hrej. }
      specialize (Hin0 eq_refl Hr). lia.
    + assert (S a <= j < S a + n) as Hr by lia. specialize (Hin1 Hr). lia.
Qed.

Lemma round_stage st j t' :
  existsb is_rejected (Round st).1 = false ->
  (Round st).1 !! j = Some t' ->
  exists t, st.1 !! j = Some t /\ stage t' <= pred (stage t).
Proof.
  unfold round. intros Hrej Hj.
  destruct (turns_seq_stage _ _ _ _ _ Hrej Hj) as (t & Ht & _ & Hin).
  exists t. split; [done|]. apply Hin.
  apply lookup_lt_Some in Ht. lia.
Qed.

(** [await Promise.all] ends: once it is over every callback has either
    returned or thrown. *)
Lemma await_all_ends sched tasks w :
  Forall (fun t => stage t = 0) (AwaitAll sched tasks w).1 \/
  existsb is_rejected (AwaitAll sched tasks w).1 = true.
Proof.
  destruct (existsb is_rejected (AwaitAll sched tasks w).1) eqn:Hrej; [by right|left].
  apply Forall_lookup. intros j t Hj. unfold await_all in *.
  destruct (round_stage _ _ _ Hrej Hj) as (t1 & Hj1 & Hle1).
  assert (existsb is_rejected (Round (fold_left Turn sched (tasks, w))).1 = false) as Hrej1.
  { destruct (existsb is_rejected (Round (fold_left Turn sched (tasks, w))).1) eqn:E; [|done].
    unfold round at 1 in Hrej. by rewrite (turns_keep_rejection _ _ E) in Hrej. }
  destruct (round_stage _ _ _ Hrej1 Hj1) as (t2 & Hj2 & Hle2).
  destruct t2; simpl in *; lia.
Qed.

End Callbacks.

(** ** What a run may change *)

Lemma grows_by_refl sent w : grows_by sent w w.
Proof.
  repeat split; try done; exists []; by rewrite app_nil_r.
Qed.

Lemma grows_by_trans sent w1 w2 w3 :
  grows_by sent w1 w2 -> grows_by sent w2 w3 -> grows_by sent w1 w3.
Proof.
  intros (H1 & H2 & H3 & [rs Hrs] & [cs [Hcs Hok]])
         (H1' & H2' & H3' & [rs' Hrs'] & [cs' [Hcs' Hok']]).
  repeat split; try congruence.
  - exists (rs ++ rs'). by rewrite Hrs', Hrs, app_assoc.
  - exists (cs ++ cs'). split; [by rewrite Hcs', Hcs, app_assoc|].
    by rewrite forallb_app, Hok, Hok'.
Qed.

Lemma grows_by_weaken (sent sent' : Call -> bool) w w' :
  (forall c, sent c = true -> sent' c = true) ->
  grows_by sent w w' -> grows_by sent' w w'.
Proof.
  intros Himp (H1 & H2 & H3 & Hrs & [cs [Hcs Hok]]).
  repeat split; try done. exists cs. split; [done|].
  rewrite forallb_forall in *. auto.
Qed.

Lemma grows_by_push_result sent o w : grows_by sent w (push_result o w).
Proof.
  repeat split; try done; [by exists [o]|]. exists []. by rewrite app_nil_r.
Qed.

Lemma grows_by_push_call (sent : Call -> bool) c w :
  sent c = true -> grows_by sent w (push_call c w).
Proof.
  intros Hc. repeat split; try done; [exists []; by rewrite app_nil_r|].
  exists [c]. split; [done|]. simpl. by rewrite Hc.
Qed.

Lemma grows_by_detach sent l w : grows_by sent w (detach l w).
Proof.
  repeat split; try done; exists []; by rewrite app_nil_r.
Qed.

(** When nothing sent in between is a write, the writes are those of before. *)
Lemma grows_by_no_write (sent : Call -> bool) w w' :
  (forall c, sent c = true -> is_write c = false) ->
  grows_by sent w w' ->
  List.filter is_write (calls w') = List.filter is_write (calls w).
Proof.
  intros Hsent (_ & _ & _ & _ & [cs [-> Hok]]).
  rewrite List.filter_app.
  assert (List.filter is_write cs = []) as ->; [|by rewrite app_nil_r].
  induction cs as [|c cs IH]; simpl in *; [done|].
  apply andb_true_iff in Hok as [Hc Hcs]. by rewrite (Hsent _ Hc), IH.
Qed.

Section Frame.

Variables (cfg : Config) (remote : Remote) (monitor : Monitor).

Local Abbreviation Turn := (turn cfg remote monitor).
Local Abbreviation AwaitAll := (await_all cfg remote monitor).
Local Abbreviation Resume := (callback_resume cfg remote monitor).

Local Abbreviation by_callback := (sent_by_callback cfg).
Local Abbreviation by_update := (sent_by_update cfg).
Local Abbreviation by_monitor := (sent_by_monitor cfg).

Lemma callback_start_grows sent notification w :
  grows_by sent w (callback_start monitor notification w).2.
Proof.
  unfold callback_start. destruct (truthy _); simpl.
  - apply grows_by_refl.
  - apply grows_by_push_result.
Qed.

Lemma spawn_grows sent notifications w :
  grows_by sent w (spawn monitor notifications w).2.
Proof.
  revert w. induction notifications as [|n ns IH]; intros w; simpl.
  - apply grows_by_refl.
  - pose proof (callback_start_grows sent n w) as H1.
    destruct (callback_start monitor n w) as [t w1]. simpl in H1.
    pose proof (IH w1) as H2. destruct (spawn monitor ns w1) as [ts w2].
    simpl in *. by eapply grows_by_trans.
Qed.

Lemma callback_resume_grows t w :
  grows_by by_callback w (Resume t w).2.
Proof.
  destruct t as [n s pd rid|n s reply|p|e]; simpl; try apply grows_by_refl.
  - destruct (truthy rid); simpl; [|apply grows_by_push_result].
    unfold createDatadogWebhook_send.
    destruct (dry_run cfg) eqn:Hdry; simpl; [apply grows_by_refl|].
    apply grows_by_push_call. unfold sent_by_callback. by rewrite Hdry.
  - destruct (createDatadogWebhook_settle reply); simpl;
      try apply grows_by_refl. apply grows_by_push_result.
Qed.

Lemma turn_grows st i : grows_by by_callback st.2 (Turn st i).2.
Proof.
  destruct (turn_cases cfg remote monitor st i)
    as [->|(t & t' & w' & _ & _ & Hres & ->)]; [apply grows_by_refl|].
  simpl. pose proof (callback_resume_grows t st.2) as H. by rewrite Hres in H.
Qed.

Lemma await_all_grows sched tasks w :
  grows_by by_callback w (AwaitAll sched tasks w).2.
Proof.
  apply (await_all_preserves cfg remote monitor
           (fun st => grows_by by_callback w st.2)).
  - intros st i H. eapply grows_by_trans; [done|apply turn_grows].
  - apply grows_by_refl.
Qed.

Lemma request_grows {A} (sent : Call -> bool) c (answer : list Call -> Reply A) w :
  sent c = true -> grows_by sent w (request c answer w).2.
Proof.
  intros Hc. unfold request.
  destruct (answer (calls w)); simpl; by apply grows_by_push_call.
Qed.

Lemma updateDatadogMonitor_grows monitorId patches w :
  grows_by by_update w (updateDatadogMonitor cfg remote monitorId patches w).2.
Proof.
  unfold updateDatadogMonitor, try_catch, bind.
  pose proof (request_grows by_update (GetMonitor monitorId)
                (fun h => monitor_by_id remote h monitorId) w eq_refl) as Hget.
  destruct (request (GetMonitor monitorId) _ w) as [[[m|]|e|] w1]; simpl in Hget.
  - unfold modify. simpl.
    set (m' := set_message m (apply_patches (monitor_message m) patches)).
    set (w2 := push_result (rewrite_outcome m' (monitor_message m)) w1).
    assert (grows_by by_update w w2) as H2.
    { eapply grows_by_trans; [done|apply grows_by_push_result]. }
    destruct (dry_run cfg) eqn:Hdry; [done|].
    assert (forall c (answer : list Call -> Reply unit),
               is_monitor_write c = true ->
               grows_by by_update w
                 (match request c answer w2 with
                  | (Throw e, w') =>
                      match e with
                      | AxiosFailure NoResponse => throw TypeError
                      | AxiosFailure (ErrorResponse _) => ret tt
                      | TypeError => throw TypeError
                      end w'
                  | other => other
                  end).2) as Hwrite.
    { intros c answer Hc.
      pose proof (request_grows by_update c answer w2) as Hreq.
      unfold sent_by_update in Hreq at 1. rewrite Hdry, Hc, orb_true_r in Hreq.
      specialize (Hreq eq_refl).
      destruct (request c answer w2) as [[|[[|]|]|] w3]; simpl in *;
        by eapply grows_by_trans. }
    destruct (is_synthetics m'); by apply Hwrite.
  - done.
  - destruct e as [[|]|]; done.
  - done.
Qed.

Lemma processMonitor_grows sched w :
  grows_by by_monitor w (processMonitor cfg remote sched monitor w).
Proof.
  assert (forall c, by_callback c = true -> by_monitor c = true) as Hcb.
  { intros c. unfold sent_by_callback, sent_by_monitor.
    destruct c, (dry_run cfg); simpl; done. }
  assert (forall c, by_update c = true -> by_monitor c = true) as Hup.
  { intros c. unfold sent_by_update, sent_by_monitor.
    destruct c, (dry_run cfg); simpl; done. }
  unfold processMonitor.
  destruct (has_marker _); [apply grows_by_push_result|].
  destruct (match_all _ _) as [|n ns]; [apply grows_by_push_result|].
  pose proof (spawn_grows by_monitor (n :: ns) w) as H1.
  destruct (spawn monitor (n :: ns) w) as [tasks w1]. simpl in H1.
  pose proof (await_all_grows sched tasks w1) as H2.
  destruct (AwaitAll sched tasks w1) as [tasks' w2]. simpl in H2.
  apply (grows_by_weaken _ by_monitor) in H2; [|done].
  assert (grows_by by_monitor w w2) as H12 by by eapply grows_by_trans.
  destruct (existsb is_rejected tasks').
  { eapply grows_by_trans; [done|apply grows_by_detach]. }
  destruct (omap returned_patch tasks') as [|p ps]; [done|].
  eapply grows_by_trans; [done|].
  eapply grows_by_weaken; [|apply updateDatadogMonitor_grows]. done.
Qed.

End Frame.

(** ** Strings and the two regular expressions *)

Lemma starts_with_app p r : starts_with p (p ++ r) = true.
Proof.
  induction p as [|a p IH]; simpl; [done|].
  by rewrite bool_decide_eq_true_2, IH.
Qed.

Lemma starts_with_inv p s :
  starts_with p s = true -> s = p ++ drop (length p) s.
Proof.
  revert s. induction p as [|a p IH]; intros s; simpl; [done|].
  destruct s as [|b s]; [done|].
  intros [Hab Hps]%andb_true_iff. apply bool_decide_eq_true in Hab as ->.
  simpl. f_equal. by apply IH.
Qed.

Lemma starts_with_iff p s : starts_with p s = true <-> exists r, s = p ++ r.
Proof.
  split.
  - intros H. eexists. by apply starts_with_inv.
  - intros [r ->]. apply starts_with_app.
Qed.

Lemma span_app p s :
  (span p s).1 ++ (span p s).2 = s.
Proof.
  induction s as [|c s IH]; simpl; [done|].
  destruct (p c); [|done]. destruct (span p s) as [run rest]. simpl in *.
  by rewrite IH.
Qed.

Lemma span_run p s : forallb p (span p s).1 = true.
Proof.
  induction s as [|c s IH]; simpl; [done|].
  destruct (p c) eqn:Hc; [|done]. destruct (span p s) as [run rest]. simpl in *.
  by rewrite Hc, IH.
Qed.

Lemma span_rest p s :
  match (span p s).2 with
  | c :: _ => p c = false
  | [] => True
  end.
Proof.
  induction s as [|c s IH]; simpl; [done|].
  destruct (p c) eqn:Hc; [|done]. by destruct (span p s) as [run rest].
Qed.

Lemma span_nil p s :
  (span p s).1 = [] <-> match s with c :: _ => p c = false | [] => True end.
Proof.
  destruct s as [|c s]; simpl; [done|].
  destruct (p c) eqn:Hc; [|done]. destruct (span p s) as [run rest].
  simpl. split; [done|]. by intros.
Qed.

Lemma match_at_none prefix s :
  match_at prefix s = None <-> mention_start prefix s = false.
Proof.
  unfold match_at, mention_start.
  destruct (starts_with prefix s); simpl; [|done].
  pose proof (span_nil non_space (drop (length prefix) s)) as Hnil.
  destruct (span non_space (drop (length prefix) s)) as [[|c run] rest]; simpl in *.
  - destruct (drop (length prefix) s); [done|].
    split; [intros _; by apply Hnil|done].
  - destruct (drop (length prefix) s) as [|d r]; [by destruct Hnil as [_ Hnil]; discriminate Hnil|].
    split; [done|]. intros Hd. destruct Hnil as [_ Hnil]. by discriminate Hnil.
Qed.

(** A match is the prefix followed by a non-empty run of characters that are
    not white space; the run ends at white space or at the end of the
    string. *)
Lemma match_at_some prefix s m rest :
  match_at prefix s = Some (m, rest) ->
  exists c run,
    m = prefix ++ c :: run /\ s = m ++ rest /\
    forallb non_space (c :: run) = true /\
    match rest with d :: _ => non_space d = false | [] => True end.
Proof.
  unfold match_at. destruct (starts_with prefix s) eqn:Hp; [|done].
  apply starts_with_inv in Hp.
  pose proof (span_app non_space (drop (length prefix) s)) as Happ.
  pose proof (span_run non_space (drop (length prefix) s)) as Hrun.
  pose proof (span_rest non_space (drop (length prefix) s)) as Hrest.
  destruct (span non_space (drop (length prefix) s)) as [[|c run] rest']; [done|].
  simpl in *. intros [= <- <-]. exists c, run. repeat split; try done.
  rewrite <- app_assoc. simpl. by rewrite <- Happ in Hp.
Qed.

Lemma mention_start_iff prefix s :
  mention_start prefix s = true <->
  exists c r, s = prefix ++ c :: r /\ is_space c = false.
Proof.
  unfold mention_start, non_space. split.
  - intros [Hp Hc]%andb_true_iff. apply starts_with_inv in Hp.
    destruct (drop (length prefix) s) as [|c r]; [done|].
    exists c, r. split; [done|]. by apply negb_true_iff.
  - intros (c & r & -> & Hc). rewrite starts_with_app, drop_app_length. simpl.
    by rewrite Hc.
Qed.

Lemma regex_exec_none prefix s :
  regex_exec prefix s = None <->
  forall before rest, s = before ++ rest -> mention_start prefix rest = false.
Proof.
  induction s as [|c s IH]; simpl.
  - destruct (match_at prefix []) as [[m r]|] eqn:Hm.
    + split; [done|]. intros H. specialize (H [] [] eq_refl).
      apply match_at_none in H. congruence.
    + split; [|done]. intros _ before rest Heq.
      symmetry in Heq. apply app_eq_nil in Heq as [-> ->]. by apply match_at_none.
  - destruct (match_at prefix (c :: s)) as [[m r]|] eqn:Hm.
    + split; [done|]. intros H. specialize (H [] (c :: s) eq_refl).
      apply match_at_none in H. congruence.
    + destruct (regex_exec prefix s) as [[[b m] r]|] eqn:He.
      * split; [done|]. intros H. destruct IH as [_ IH].
        discriminate IH. intros before rest ->. by apply (H (c :: before)).
      * split; [|done]. intros _ before rest Heq.
        destruct before as [|b before]; simpl in Heq.
        -- subst rest. by apply match_at_none.
        -- injection Heq as -> ->. destruct IH as [IH _]. by eapply IH.
Qed.

(** The leftmost match: nothing before it starts a match. *)
Lemma regex_exec_some prefix s before m rest :
  regex_exec prefix s = Some (before, m, rest) ->
  s = before ++ m ++ rest /\
  match_at prefix (m ++ rest) = Some (m, rest) /\
  forall b1 b2, before = b1 ++ b2 -> b2 <> [] ->
                mention_start prefix (b2 ++ m ++ rest) = false.
Proof.
  revert before. induction s as [|c s IH]; intros before; simpl.
  - destruct (match_at prefix []) as [[m' r']|] eqn:Hm; [|done].
    intros [= <- <- <-]. destruct (match_at_some _ _ _ _ Hm) as (c & run & _ & Hs & _).
    rewrite <- Hs. repeat split; try done.
    intros b1 b2 Hb. symmetry in Hb. by apply app_eq_nil in Hb as [_ ->].
  - destruct (match_at prefix (c :: s)) as [[m' r']|] eqn:Hm.
    + intros [= <- <- <-]. destruct (match_at_some _ _ _ _ Hm) as (d & run & _ & Hs & _).
      rewrite <- Hs. repeat split; try done.
      intros b1 b2 Hb. symmetry in Hb. by apply app_eq_nil in Hb as [_ ->].
    + destruct (regex_exec prefix s) as [[[b m'] r']|] eqn:He; [|done].
      intros [= <- <- <-]. destruct (IH _ eq_refl) as (Hs & Hat & Hbefore).
      split; [by rewrite Hs|]. split; [done|].
      intros b1 b2 Hb Hne. destruct b1 as [|x b1]; simpl in Hb.
      * subst b2. simpl. rewrite <- Hs. by apply match_at_none.
      * injection Hb as -> ->. by eapply Hbefore.
Qed.

(** The marker test holds exactly when the message contains
    [@webhook-rootly-] followed by a character that is not white space. *)
Lemma has_marker_iff message :
  has_marker message = true <->
  exists before c rest,
    message = before ++ rootly_mention ++ c :: rest /\ is_space c = false.
Proof.
  unfold has_marker. split.
  - destruct (regex_exec rootly_mention message) as [[[b m] r]|] eqn:He; [|done].
    intros _. apply regex_exec_some in He as (Hs & Hat & _).
    apply match_at_some in Hat as (c & run & -> & _ & Hrun & _).
    exists b, c, (run ++ r). split.
    + rewrite Hs. by rewrite <- !app_assoc.
    + simpl in Hrun. apply andb_true_iff in Hrun as [Hc _]. by apply negb_true_iff.
  - intros (before & c & rest & -> & Hc).
    destruct (regex_exec rootly_mention _) as [[[b m] r]|] eqn:He; [done|].
    assert (mention_start rootly_mention (rootly_mention ++ c :: rest) = false) as Hf.
    { eapply regex_exec_none; [exact He|done]. }
    assert (mention_start rootly_mention (rootly_mention ++ c :: rest) = true) as Ht.
    { apply mention_start_iff. by exists c, rest. }
    congruence.
Qed.

(** ** The fragment of a mention *)

Lemma split_scan_no_separator sep cur s :
  find_first sep s = None -> split_scan sep 0 cur s = [rev cur ++ s].
Proof.
  revert cur. induction s as [|c s IH]; intros cur; simpl.
  - intros _. by rewrite app_nil_r.
  - destruct (starts_with sep (c :: s)); [done|].
    destruct (find_first sep s) as [[? ?]|]; [done|]. intros _.
    rewrite IH by done. simpl. by rewrite <- app_assoc.
Qed.

(** [split('@pagerduty-')] of a mention: an empty piece, then the pieces of
    what follows the prefix.  So the element [1] exists. *)
Lemma split_mention x :
  split (pagerduty_mention ++ x) pagerduty_mention
  = [] :: split x pagerduty_mention.
Proof. reflexivity. Qed.

(** The fragment of a mention is what follows [@pagerduty-], when that holds
    no second [@pagerduty-]. *)
Lemma fragment_of_mention x :
  find_first pagerduty_mention x = None ->
  fragment_of (pagerduty_mention ++ x) = x.
Proof.
  intros Hx. unfold fragment_of. rewrite split_mention. unfold split.
  by rewrite split_scan_no_separator.
Qed.

(** ** Monitors that are skipped *)

(** C4.  A monitor whose message already holds [@webhook-rootly-] followed by
    a character that is not white space is skipped: one skip outcome is
    pushed, no request is sent and its mentions are not looked at. *)
Theorem marked_monitor_is_skipped (cfg : Config) (remote : Remote)
    (sched : list nat) (monitor : Monitor) (w : World) (before rest : str) (c : ascii) :
  monitor_message monitor = before ++ rootly_mention ++ c :: rest ->
  is_space c = false ->
  processMonitor cfg remote sched monitor w = push_result (skip_outcome monitor) w /\
  calls (processMonitor cfg remote sched monitor w) = calls w /\
  results (processMonitor cfg remote sched monitor w)
    = results w ++ [skip_outcome monitor] /\
  is_error (skip_outcome monitor) = true.
Proof.
  intros Hmsg Hc.
  assert (has_marker (monitor_message monitor) = true) as Hm.
  { apply has_marker_iff. by exists before, c, rest. }
  unfold processMonitor. by rewrite Hm.
Qed.

Lemma marked_monitor_is_skipped_witness :
  processMonitor Example.normal (Example.remote (Ok None) (Ok tt)) []
    (Example.monitor "down @pagerduty-checkout @webhook-rootly-checkout")
    Example.directory
  = push_result
      (skip_outcome (Example.monitor "down @pagerduty-checkout @webhook-rootly-checkout"))
      Example.directory.
Proof.
  apply (marked_monitor_is_skipped Example.normal _ [] _ Example.directory
           (lit "down @pagerduty-checkout ") (lit "heckout") "c"%char);
    reflexivity.
Defined.

(** ** Mentions that do not resolve *)

Lemma getPagerdutyServiceId_none cache serviceName :
  Forall (fun s => normalizedServiceName (pd_name s)
                   <> normalizedServiceName serviceName) cache ->
  getPagerdutyServiceId cache serviceName = None.
Proof.
  intros Hall. unfold getPagerdutyServiceId.
  destruct (find _ cache) as [s|] eqn:Hf; [|done].
  apply find_some in Hf as [Hin Hs]. apply bool_decide_eq_true in Hs.
  rewrite Forall_forall in Hall. by apply list_elem_of_In, Hall in Hin.
Qed.

Lemma callback_start_caches monitor notification w :
  pagerdutyServicesCache (callback_start monitor notification w).2
    = pagerdutyServicesCache w /\
  rootlyServicesCache (callback_start monitor notification w).2
    = rootlyServicesCache w.
Proof.
  by destruct (callback_start_grows monitor (fun _ => false) notification w)
    as (? & ? & _).
Qed.

Lemma spawn_app monitor l1 l2 w :
  spawn monitor (l1 ++ l2) w
  = ((spawn monitor l1 w).1 ++ (spawn monitor l2 (spawn monitor l1 w).2).1,
     (spawn monitor l2 (spawn monitor l1 w).2).2).
Proof.
  revert w. induction l1 as [|n l1 IH]; intros w; simpl.
  - by destruct (spawn monitor l2 w).
  - destruct (callback_start monitor n w) as [t w1]. rewrite IH.
    destruct (spawn monitor l1 w1) as [ts1 w2]. simpl.
    by destruct (spawn monitor l2 w2).
Qed.

Lemma spawn_length monitor l w : length (spawn monitor l w).1 = length l.
Proof.
  revert w. induction l as [|n l IH]; intros w; simpl; [done|].
  destruct (callback_start monitor n w) as [t w1]. specialize (IH w1).
  destruct (spawn monitor l w1) as [ts w2]. simpl in *. by rewrite IH.
Qed.

(** A callback that has returned takes no further part. *)
Lemma turn_returned cfg remote monitor st i j p :
  st.1 !! j = Some (Returned p) ->
  (turn cfg remote monitor st i).1 !! j = Some (Returned p) /\
  (i = j -> turn cfg remote monitor st i = st).
Proof.
  intros Hj.
  destruct (turn_cases cfg remote monitor st i)
    as [Heq|(t & t' & w' & Hrej & Hi & Hres & Heq)]; rewrite Heq; [done|].
  simpl. destruct (decide (i = j)) as [->|Hne].
  - rewrite Hj in Hi. injection Hi as <-. simpl in Hres. injection Hres as <- <-.
    rewrite list_insert_id by done. split; [done|]. intros _. by destruct st.
  - by rewrite list_lookup_insert_ne.
Qed.

(** ** Runs in which no webhook call throws *)

Section Calm.

Variables (cfg : Config) (remote : Remote) (monitor : Monitor).
Hypothesis Hcalm : calm cfg remote.

Local Abbreviation Turn := (turn cfg remote monitor).
Local Abbreviation AwaitAll := (await_all cfg remote monitor).
Local Abbreviation Resume := (callback_resume cfg remote monitor).

Lemma send_settles serviceName serviceId w :
  createDatadogWebhook_settle
    (createDatadogWebhook_send cfg remote serviceName serviceId w).1 = Ret tt.
Proof.
  unfold createDatadogWebhook_send.
  destruct (dry_run cfg) eqn:Hdry; simpl; [done|].
  destruct Hcalm as [Hd|Hnever]; [congruence|]. apply Hnever.
Qed.

Lemma callback_resume_calm t w :
  settles t = true ->
  settles (Resume t w).1 = true /\
  fate (Resume t w).1 = fate t /\
  results (Resume t w).2 ++ pending monitor (Resume t w).1
    = results w ++ pending monitor t.
Proof.
  destruct t as [n s pd rid|n s reply|p|e]; simpl; try done.
  - intros _. destruct (truthy rid) eqn:Hrid; simpl; [|by rewrite app_nil_r].
    pose proof (send_settles s (default [] rid) w) as Hs.
    destruct (createDatadogWebhook_send cfg remote s (default [] rid) w)
      as [reply w'] eqn:Hsend. simpl in *. rewrite Hs.
    repeat split; try done. f_equal.
    unfold createDatadogWebhook_send in Hsend.
    destruct (dry_run cfg); by injection Hsend as <- <-.
  - destruct (createDatadogWebhook_settle reply) as [[]| |]; try done.
    intros _. simpl. by rewrite app_nil_r.
Qed.

Lemma turn_calm st i :
  forallb settles st.1 = true ->
  forallb settles (Turn st i).1 = true /\
  map fate (Turn st i).1 = map fate st.1 /\
  results (Turn st i).2 ++ ((Turn st i).1 ≫= pending monitor)
    ≡ₚ results st.2 ++ (st.1 ≫= pending monitor).
Proof.
  intros Hall.
  destruct (turn_cases cfg remote monitor st i)
    as [->|(t & t' & w' & _ & Hi & Hres & ->)]; [done|]. simpl.
  destruct (insert_split st.1 i t t' Hi) as [Hl ->].
  set (A := take i st.1) in *. set (B := drop (S i) st.1) in *.
  clearbody A B. rewrite Hl in Hall |- *. clear Hl Hi.
  rewrite forallb_app in Hall. simpl in Hall.
  apply andb_true_iff in Hall as [HA Hall]. apply andb_true_iff in Hall as [Ht HB].
  destruct (callback_resume_calm t st.2 Ht) as (Ht' & Hfate & Hres').
  rewrite Hres in *. simpl in *.
  split; [|split].
  - rewrite forallb_app. simpl. by rewrite HA, Ht', HB.
  - rewrite !map_app. simpl. by rewrite Hfate.
  - rewrite !bind_app, !bind_cons.
    rewrite (Permutation_app_swap_app (A ≫= pending monitor)).
    rewrite (Permutation_app_swap_app (A ≫= pending monitor) (pending monitor t)).
    rewrite !app_assoc. by rewrite Hres'.
Qed.

Lemma settled_task t :
  settles t = true -> stage t = 0 ->
  returned_patch t = fate t /\ pending monitor t = [] /\ is_rejected t = false.
Proof. by destruct t. Qed.

(** If no webhook call throws, [Promise.all] resolves, the patches are those
    of the callbacks that were started, in their order, and every callback
    has pushed its outcome: the order in which the promises settle changes
    only the order of the outcomes. *)
Lemma await_all_calm sched tasks w :
  forallb settles tasks = true ->
  existsb is_rejected (AwaitAll sched tasks w).1 = false /\
  omap returned_patch (AwaitAll sched tasks w).1 = omap fate tasks /\
  results (AwaitAll sched tasks w).2 ≡ₚ results w ++ (tasks ≫= pending monitor).
Proof.
  intros Hall.
  assert (forallb settles (AwaitAll sched tasks w).1 = true /\
          map fate (AwaitAll sched tasks w).1 = map fate tasks /\
          results (AwaitAll sched tasks w).2
            ++ ((AwaitAll sched tasks w).1 ≫= pending monitor)
          ≡ₚ results w ++ (tasks ≫= pending monitor)) as (Hs & Hf & Hp).
  { apply (await_all_preserves cfg remote monitor
             (fun st => forallb settles st.1 = true /\
                        map fate st.1 = map fate tasks /\
                        results st.2 ++ (st.1 ≫= pending monitor)
                        ≡ₚ results w ++ (tasks ≫= pending monitor))); [|done].
    intros st i (H1 & H2 & H3). destruct (turn_calm st i H1) as (H1' & H2' & H3').
    split; [done|]. split; [congruence|]. by rewrite H3'. }
  set (st := AwaitAll sched tasks w) in *.
  assert (existsb is_rejected st.1 = false) as Hrej.
  { apply not_true_iff_false. intros [t [Hin Ht]]%existsb_exists.
    rewrite forallb_forall in Hs. apply Hs in Hin. by destruct t. }
  destruct (await_all_ends cfg remote monitor sched tasks w) as [Hend|Hr];
    [|fold st in Hr; congruence].
  fold st in Hend. split; [done|].
  assert (omap returned_patch st.1 = omap fate st.1 /\ st.1 ≫= pending monitor = [])
    as [Ho Hnil].
  { clear Hf Hp Hrej. induction st.1 as [|t l IH]; [done|].
    simpl in Hs. apply andb_true_iff in Hs as [Ht Hl].
    apply Forall_cons in Hend as [Ht0 Hl0].
    destruct (settled_task t Ht Ht0) as (Hrp & Hpd & _).
    destruct (IH Hl Hl0) as [IH1 IH2].
    split; [csimpl; by rewrite Hrp, IH1|]. rewrite bind_cons. by rewrite Hpd, IH2. }
  rewrite Hnil, app_nil_r in Hp. split; [|done].
  rewrite Ho. clear -Hf. revert Hf. generalize st.1. 
  induction tasks as [|t ts IH]; intros [|t' l]; csimpl; try done.
  intros [= Ht Hl]. rewrite Ht. by rewrite (IH _ Hl).
Qed.

Lemma mention_outcome_caches w w' notification :
  pagerdutyServicesCache w' = pagerdutyServicesCache w ->
  rootlyServicesCache w' = rootlyServicesCache w ->
  mention_outcome monitor w' notification = mention_outcome monitor w notification /\
  mention_patch w' notification = mention_patch w notification.
Proof. intros H1 H2. unfold mention_outcome, mention_patch. by rewrite H1, H2. Qed.

Lemma callback_start_plan notification w :
  settles (callback_start monitor notification w).1 = true /\
  fate (callback_start monitor notification w).1 = mention_patch w notification /\
  results (callback_start monitor notification w).2
    ++ pending monitor (callback_start monitor notification w).1
  = results w ++ [mention_outcome monitor w notification].
Proof.
  unfold callback_start, mention_outcome, mention_patch.
  destruct (truthy (getPagerdutyServiceId _ _)); simpl; [|by rewrite app_nil_r].
  by destruct (truthy (fetchRootlyServiceId _ _)).
Qed.

(** Starting the callbacks pushes the outcomes of the mentions without a
    PagerDuty service and leaves the others waiting. *)
Lemma spawn_plan notifications w0 w :
  pagerdutyServicesCache w = pagerdutyServicesCache w0 ->
  rootlyServicesCache w = rootlyServicesCache w0 ->
  forallb settles (spawn monitor notifications w).1 = true /\
  map fate (spawn monitor notifications w).1 = map (mention_patch w0) notifications /\
  results (spawn monitor notifications w).2
    ++ ((spawn monitor notifications w).1 ≫= pending monitor)
  ≡ₚ results w ++ map (mention_outcome monitor w0) notifications.
Proof.
  revert w. induction notifications as [|n ns IH]; intros w Hc1 Hc2; simpl.
  - by rewrite app_nil_r.
  - destruct (callback_start_plan n w) as (Hs & Hf & Hr).
    destruct (callback_start_caches monitor n w) as [Hk1 Hk2].
    destruct (mention_outcome_caches w0 w n Hc1 Hc2) as [Hmo Hmp].
    destruct (callback_start monitor n w) as [t w1]. cbn [fst snd] in *.
    destruct (IH w1) as (IHs & IHf & IHr); [congruence|congruence|].
    destruct (spawn monitor ns w1) as [ts w2]. cbn [fst snd] in *.
    split; [simpl; by rewrite Hs, IHs|]. split; [simpl; by rewrite Hf, IHf, Hmp|].
    rewrite bind_cons. rewrite (Permutation_app_swap_app (results w2)).
    rewrite IHr. rewrite app_assoc, (Permutation_app_comm (pending monitor t)).
    rewrite Hr, Hmo. by rewrite <- app_assoc.
Qed.

End Calm.

(** ** Replacing a mention *)

Lemma getSubstitution_plain matched before after replacement :
  plain replacement = true ->
  getSubstitution matched before after replacement = replacement.
Proof.
  induction replacement as [|c r IH]; simpl; [done|].
  intros [Hc Hr]%andb_true_iff. apply negb_true_iff in Hc. rewrite Hc.
  by rewrite IH.
Qed.

Lemma replace_found s pat replacement before after :
  find_first pat s = Some (before, after) -> plain replacement = true ->
  replace s pat replacement = before ++ replacement ++ after.
Proof.
  intros Hf Hp. unfold replace. by rewrite Hf, getSubstitution_plain.
Qed.

Lemma find_first_unfold pat s :
  find_first pat s =
  if starts_with pat s then Some ([], drop (length pat) s)
  else match s with
       | [] => None
       | c :: s' => shift_match [c] (find_first pat s')
       end.
Proof. by destruct s. Qed.

Lemma find_first_cons pat c s :
  find_first pat (c :: s) =
  if starts_with pat (c :: s) then Some ([], drop (length pat) (c :: s))
  else shift_match [c] (find_first pat s).
Proof. done. Qed.

Lemma find_first_here pat r : find_first pat (pat ++ r) = Some ([], r).
Proof. by rewrite find_first_unfold, starts_with_app, drop_app_length. Qed.

Lemma shift_match_app x y found :
  shift_match x (shift_match y found) = shift_match (x ++ y) found.
Proof. destruct found as [[b a]|]; simpl; [|done]. by rewrite app_assoc. Qed.

Lemma starts_with_app_l p x t :
  length p <= length x -> starts_with p (x ++ t) = starts_with p x.
Proof.
  revert x. induction p as [|a p IH]; intros x Hlen; simpl; [done|].
  destruct x as [|b x]; simpl in *; [lia|]. rewrite IH; [done|lia].
Qed.

Lemma mention_start_local prefix x t :
  length prefix + 1 <= length x ->
  mention_start prefix (x ++ t) = mention_start prefix x.
Proof.
  intros Hlen. unfold mention_start.
  rewrite starts_with_app_l by lia. f_equal.
  rewrite drop_app_le by lia.
  destruct (drop (length prefix) x) as [|c r] eqn:Hd; [|done].
  apply (f_equal length) in Hd. rewrite length_drop in Hd. simpl in Hd. lia.
Qed.

Lemma starts_with_mention prefix c run s :
  non_space c = true -> starts_with (prefix ++ c :: run) s = true ->
  mention_start prefix s = true.
Proof.
  intros Hc [r ->]%starts_with_iff. apply mention_start_iff.
  exists c, (run ++ r). split; [by rewrite <- app_assoc|].
  by apply negb_true_iff.
Qed.

(** No mention occurs at a place of the text before the leftmost match,
    whatever follows the match. *)
Lemma find_first_past_before prefix before m rest c run tail :
  (forall b1 b2, before = b1 ++ b2 -> b2 <> [] ->
                 mention_start prefix (b2 ++ m ++ rest) = false) ->
  length prefix + 1 <= length m ->
  non_space c = true ->
  find_first (prefix ++ c :: run) (before ++ m ++ tail)
  = shift_match before (find_first (prefix ++ c :: run) (m ++ tail)).
Proof.
  intros Hbefore Hlen Hc. induction before as [|x before IH]; cbn [app].
  - by destruct (find_first _ _) as [[? ?]|].
  - rewrite find_first_cons.
    destruct (starts_with (prefix ++ c :: run) (x :: before ++ m ++ tail)) eqn:Hs.
    + apply (starts_with_mention prefix c run) in Hs; [|done].
      assert (mention_start prefix ((x :: before ++ m) ++ rest) = false) as Hf.
      { simpl. rewrite <- app_assoc. by apply (Hbefore [] (x :: before)). }
      assert (length prefix + 1 <= length (x :: before ++ m)) as Hl.
      { simpl. rewrite length_app. lia. }
      rewrite mention_start_local in Hf by done.
      assert (mention_start prefix ((x :: before ++ m) ++ tail) = true) as Hs'.
      { simpl. by rewrite <- app_assoc. }
      rewrite mention_start_local in Hs' by done. congruence.
    + rewrite IH.
      * by rewrite shift_match_app.
      * intros b1 b2 -> Hne. by apply (Hbefore (x :: b1) b2).
Qed.

(** The first occurrence of the text of the leftmost match is that match. *)
Lemma find_first_leftmost prefix s before m rest tail :
  regex_exec prefix s = Some (before, m, rest) ->
  find_first m (before ++ m ++ tail) = Some (before, tail).
Proof.
  intros (Hs & Hat & Hbefore)%regex_exec_some.
  destruct (match_at_some _ _ _ _ Hat) as (c & run & -> & _ & Hrun & _).
  simpl in Hrun. apply andb_true_iff in Hrun as [Hc _].
  rewrite (find_first_past_before prefix before _ rest c run tail); try done.
  - rewrite find_first_here. simpl. by rewrite app_nil_r.
  - rewrite length_app. simpl. lia.
Qed.

Lemma starts_with_before_space pat x sp z :
  forallb non_space pat = true -> is_space sp = true ->
  starts_with pat (x ++ sp :: z) = starts_with pat x.
Proof.
  intros Hpat Hsp. revert x. induction pat as [|a pat IH]; intros x; simpl; [done|].
  simpl in Hpat. apply andb_true_iff in Hpat as [Ha Hpat].
  destruct x as [|b x]; simpl.
  - rewrite bool_decide_eq_false_2; [done|]. intros ->.
    unfold non_space in Ha. by rewrite Hsp in Ha.
  - by rewrite IH.
Qed.

(** A text without white space that does not occur in [x] does not occur
    across the white space that follows [x] either. *)
Lemma find_first_past_word pat x sp z :
  forallb non_space pat = true -> is_space sp = true ->
  find_first pat x = None ->
  find_first pat (x ++ sp :: z) = shift_match (x ++ [sp]) (find_first pat z).
Proof.
  intros Hpat Hsp. induction x as [|b x IH]; intros Hnone.
  - simpl app. rewrite find_first_unfold in Hnone. rewrite find_first_cons.
    pose proof (starts_with_before_space pat [] sp z Hpat Hsp) as H.
    simpl app in H. rewrite H. by destruct (starts_with pat []).
  - rewrite find_first_unfold in Hnone.
    change ((b :: x) ++ sp :: z) with (b :: (x ++ sp :: z)).
    rewrite find_first_cons.
    change (b :: (x ++ sp :: z)) with ((b :: x) ++ sp :: z).
    rewrite starts_with_before_space by done.
    destruct (starts_with pat (b :: x)); [done|].
    destruct (find_first pat x) as [[? ?]|] eqn:Hx; [done|].
    rewrite IH by done. by rewrite shift_match_app.
Qed.

(** A text does not begin where its first character is not. *)
Lemma find_first_past_other a pat x z :
  Forall (fun c => c <> a) x ->
  find_first (a :: pat) (x ++ z) = shift_match x (find_first (a :: pat) z).
Proof.
  induction 1 as [|b x Hb Hx IH]; simpl app.
  - by destruct (find_first _ _) as [[? ?]|].
  - rewrite find_first_cons. simpl starts_with.
    rewrite bool_decide_eq_false_2 by congruence. simpl.
    rewrite IH. by rewrite shift_match_app.
Qed.

Lemma plain_app x y : plain (x ++ y) = plain x && plain y.
Proof. apply forallb_app. Qed.

Lemma normal_plain s : forallb is_normal_char s = true -> plain s = true.
Proof.
  induction s as [|c s IH]; simpl; [done|].
  intros [Hc Hs]%andb_true_iff. rewrite IH by done.
  destruct c as [[] [] [] [] [] [] [] []]; by vm_compute in Hc |- *.
Qed.

Lemma new_notification_plain serviceName : plain (new_notification serviceName) = true.
Proof.
  unfold new_notification. rewrite plain_app.
  by rewrite (normal_plain (normalizedServiceName serviceName))
    by apply normalizedServiceName_normal.
Qed.

Lemma appended_plain m serviceName :
  plain m = true -> plain (m ++ lit " " ++ new_notification serviceName) = true.
Proof.
  intros Hm. by rewrite !plain_app, Hm, new_notification_plain.
Qed.

Lemma normal_not_at s :
  forallb is_normal_char s = true -> Forall (fun c => c <> "@"%char) s.
Proof.
  induction s as [|c s IH]; simpl; [done|].
  intros [Hc Hs]%andb_true_iff. constructor; [|by apply IH].
  intros ->. by vm_compute in Hc.
Qed.

(** No [@pagerduty-] mention begins inside a [@webhook-rootly-] mention. *)
Lemma find_first_past_new_notification x serviceName z :
  find_first (pagerduty_mention ++ x) (new_notification serviceName ++ z)
  = shift_match (new_notification serviceName)
                (find_first (pagerduty_mention ++ x) z).
Proof.
  unfold new_notification, rootly_mention, pagerduty_mention.
  cbn [app]. rewrite find_first_cons.
  change (starts_with _ _) with false. cbv iota.
  match goal with
  | |- context [find_first ?p (?a :: ?b :: ?c :: ?d :: ?e :: ?f :: ?g :: ?h
                               :: ?i :: ?j :: ?k :: ?l :: ?m :: ?n :: ?o :: ?r ++ z)] =>
      change (a :: b :: c :: d :: e :: f :: g :: h :: i :: j :: k :: l :: m
              :: n :: o :: r ++ z)
        with ((a :: b :: c :: d :: e :: f :: g :: h :: i :: j :: k :: l :: m
               :: n :: o :: r) ++ z)
  end.
  rewrite find_first_past_other.
  - by rewrite shift_match_app.
  - repeat (constructor; [done|]). apply normal_not_at, normalizedServiceName_normal.
Qed.

Lemma mention_non_space prefix c run :
  forallb non_space prefix = true -> forallb non_space (c :: run) = true ->
  forallb non_space (prefix ++ c :: run) = true.
Proof. intros Hp Hr. by rewrite forallb_app, Hp, Hr. Qed.

(** Two patches for mentions of which the second does not occur in the
    first: each new mention lands right after its own mention. *)
Lemma apply_patches_distinct message before m1 rest1 between m2 after s1 s2 :
  regex_exec pagerduty_mention message = Some (before, m1, rest1) ->
  regex_exec pagerduty_mention rest1 = Some (between, m2, after) ->
  plain m1 = true -> plain m2 = true ->
  find_first m2 m1 = None ->
  apply_patches message [(m1, new_notification s1); (m2, new_notification s2)]
  = before ++ (m1 ++ lit " " ++ new_notification s1)
    ++ between ++ (m2 ++ lit " " ++ new_notification s2) ++ after.
Proof.
  intros He1 He2 Hp1 Hp2 Hnone.
  pose proof (find_first_leftmost _ _ _ _ _ rest1 He1) as Hf1.
  pose proof (find_first_leftmost _ _ _ _ _ after He2) as Hf2.
  destruct (regex_exec_some _ _ _ _ _ He1) as (Hs1 & Hat1 & Hb1).
  destruct (regex_exec_some _ _ _ _ _ He2) as (Hs2 & Hat2 & _).
  destruct (match_at_some _ _ _ _ Hat1) as (c1 & run1 & Hm1 & _ & Hrun1 & _).
  destruct (match_at_some _ _ _ _ Hat2) as (c2 & run2 & Hm2 & _ & Hrun2 & _).
  unfold apply_patches. simpl fold_left.
  rewrite Hs1 at 1.
  rewrite (replace_found _ _ _ _ _ Hf1) by by apply appended_plain.
  assert (find_first m2 (before ++ (m1 ++ lit " " ++ new_notification s1) ++ rest1)
          = Some (before ++ (m1 ++ lit " " ++ new_notification s1) ++ between, after))
    as Hfind.
  { rewrite <- (app_assoc m1). rewrite Hm2.
    rewrite (find_first_past_before pagerduty_mention before m1 rest1 c2 run2); first last.
    - simpl in Hrun2. by apply andb_true_iff in Hrun2 as [? _].
    - rewrite Hm1, length_app. simpl. lia.
    - done.
    - rewrite <- Hm2. change (lit " ") with [" "%char]. cbn [app].
      rewrite find_first_past_word; [|rewrite Hm2; by apply mention_non_space|done|done].
      rewrite Hm2 at 1. rewrite find_first_past_new_notification. rewrite <- Hm2.
      rewrite Hs2 at 1. rewrite Hf2. simpl.
      by rewrite <- !app_assoc. }
  rewrite (replace_found _ _ _ _ _ Hfind) by by apply appended_plain.
  by rewrite <- !app_assoc.
Qed.

(** Twice the same patch: the second one finds the first occurrence again. *)
Lemma apply_patches_repeated message before m rest1 s :
  regex_exec pagerduty_mention message = Some (before, m, rest1) ->
  plain m = true ->
  apply_patches message [(m, new_notification s); (m, new_notification s)]
  = before ++ (m ++ lit " " ++ new_notification s)
    ++ lit " " ++ new_notification s ++ rest1.
Proof.
  intros He Hp.
  pose proof (find_first_leftmost _ _ _ _ _ rest1 He) as Hf1.
  pose proof (find_first_leftmost _ _ _ _ _
                (lit " " ++ new_notification s ++ rest1) He) as Hf2.
  destruct (regex_exec_some _ _ _ _ _ He) as (Hs & _).
  unfold apply_patches. simpl fold_left. rewrite Hs at 1.
  rewrite (replace_found _ _ _ _ _ Hf1) by by apply appended_plain.
  change (lit " ") with [" "%char] in *. cbn [app] in *.
  rewrite <- (app_assoc m). cbn [app].
  rewrite (replace_found _ _ _ _ _ Hf2) by by apply (appended_plain m s).
  by rewrite <- !app_assoc.
Qed.

(** ** All the mentions of a message *)

Lemma regex_exec_nil prefix : regex_exec prefix [] = None.
Proof.
  simpl. unfold match_at. destruct (starts_with prefix []); [|done].
  by rewrite drop_nil.
Qed.

Lemma regex_exec_shorter prefix s before m rest :
  regex_exec prefix s = Some (before, m, rest) -> length rest < length s.
Proof.
  intros (-> & Hat & _)%regex_exec_some.
  apply match_at_some in Hat as (c & run & -> & _).
  rewrite !length_app. simpl. lia.
Qed.

Lemma match_all_from_enough prefix f1 : forall f2 s,
  length s <= f1 -> length s <= f2 ->
  match_all_from f1 prefix s = match_all_from f2 prefix s.
Proof.
  induction f1 as [|f1 IH]; intros f2 s H1 H2.
  - destruct s; [|simpl in H1; lia]. destruct f2; cbn [match_all_from]; [done|].
    by rewrite regex_exec_nil.
  - destruct f2 as [|f2].
    + destruct s; [|simpl in H2; lia]. cbn [match_all_from].
      by rewrite regex_exec_nil.
    + cbn [match_all_from]. destruct (regex_exec prefix s) as [[[b m] r]|] eqn:He; [|done].
      apply regex_exec_shorter in He. f_equal. apply IH; lia.
Qed.

(** The fuel of [match_all] is enough: the list of the matches is the
    leftmost match followed by the matches of what comes after it. *)
Lemma match_all_unfold prefix s :
  match_all prefix s =
  match regex_exec prefix s with
  | Some (_, m, rest) => m :: match_all prefix rest
  | None => []
  end.
Proof.
  unfold match_all. destruct s as [|c s].
  - cbn [length match_all_from]. by rewrite regex_exec_nil.
  - cbn [length match_all_from].
    destruct (regex_exec prefix (c :: s)) as [[[b m] r]|] eqn:He; [|done].
    apply regex_exec_shorter in He. simpl in He. f_equal.
    apply match_all_from_enough; lia.
Qed.

Lemma omap_of_map {A B C} (f : A -> option C) (g : B -> option C) l l' :
  map f l = map g l' -> omap f l = omap g l'.
Proof.
  revert l'. induction l as [|x l IH]; intros [|y l']; csimpl; try done.
  intros [= Hx Hl]. rewrite Hx. by rewrite (IH _ Hl).
Qed.

(** ** Processing a monitor when no webhook call throws *)

Section CalmMonitor.

Variables (cfg : Config) (remote : Remote) (monitor : Monitor).
Hypothesis Hcalm : calm cfg remote.

(** The callbacks push one outcome per mention, in some order, and the
    monitor is rewritten with the patches of the mentions that resolve. *)
Lemma processMonitor_calm sched w notification notifications :
  has_marker (monitor_message monitor) = false ->
  match_all pagerduty_mention (monitor_message monitor)
    = notification :: notifications ->
  exists w2,
    grows_by (sent_by_callback cfg) w w2 /\
    results w2 ≡ₚ results w
                  ++ map (mention_outcome monitor w) (notification :: notifications) /\
    processMonitor cfg remote sched monitor w
    = match omap (mention_patch w) (notification :: notifications) with
      | [] => w2
      | patches =>
          (updateDatadogMonitor cfg remote (monitor_id monitor) patches w2).2
      end.
Proof.
  intros Hmark Hall. unfold processMonitor. rewrite Hmark, Hall.
  set (ns := notification :: notifications).
  destruct (spawn_plan monitor ns w w eq_refl eq_refl) as (Hs & Hf & Hr).
  pose proof (spawn_grows monitor (sent_by_callback cfg) ns w) as Hg1.
  destruct (spawn monitor ns w) as [tasks w1]. cbn [fst snd] in *.
  destruct (await_all_calm cfg remote monitor Hcalm sched tasks w1 Hs)
    as (Hrej & Hpatches & Hres).
  pose proof (await_all_grows cfg remote monitor sched tasks w1) as Hg2.
  destruct (await_all cfg remote monitor sched tasks w1) as [tasks' w2].
  cbn [fst snd] in *. exists w2.
  split; [by eapply grows_by_trans|]. split; [by rewrite Hres, Hr|].
  rewrite Hrej, Hpatches. by rewrite (omap_of_map _ _ _ _ Hf).
Qed.

End CalmMonitor.

(** ** Rewriting *)

Lemma updateDatadogMonitor_found cfg remote monitorId patches w fetched :
  monitor_by_id remote (calls w) monitorId = Ok (Some fetched) ->
  let rewritten :=
    set_message fetched (apply_patches (monitor_message fetched) patches) in
  let w' := (updateDatadogMonitor cfg remote monitorId patches w).2 in
  results w' = results w ++ [rewrite_outcome rewritten (monitor_message fetched)] /\
  calls w' = calls w ++ GetMonitor monitorId
                     :: (if dry_run cfg then [] else [write_call monitorId rewritten]).
Proof.
  intros Hget rewritten w'. unfold w', updateDatadogMonitor, try_catch, bind, request.
  rewrite Hget. unfold modify. cbn [fst snd]. fold rewritten.
  destruct (dry_run cfg); [by rewrite app_nil_r || done|].
  unfold write_call, request. cbn [calls push_result push_call].
  destruct (is_synthetics rewritten).
  - destruct (synthetics_patched _ _ _ _) as [[]|[|errors]]; cbn;
      by rewrite <- app_assoc.
  - destruct (monitor_put _ _ _ _) as [[]|[|errors]]; cbn;
      by rewrite <- app_assoc.
Qed.


Lemma resolves_plan monitor w notification :
  resolves w notification = true ->
  mention_patch w notification
    = Some (notification, new_notification (fragment_of notification)) /\
  mention_outcome monitor w notification
    = success_outcome monitor notification
        (new_notification (fragment_of notification)).
Proof.
  unfold resolves, mention_patch, mention_outcome.
  destruct (truthy (getPagerdutyServiceId _ _)); [|done].
  by destruct (truthy (fetchRootlyServiceId _ _)).
Qed.

Lemma updateDatadogMonitor_results cfg remote monitorId patches w :
  results (updateDatadogMonitor cfg remote monitorId patches w).2
  = results w ++
    match monitor_by_id remote (calls w) monitorId with
    | Ok (Some fetched) =>
        [rewrite_outcome
           (set_message fetched (apply_patches (monitor_message fetched) patches))
           (monitor_message fetched)]
    | _ => []
    end.
Proof.
  destruct (monitor_by_id remote (calls w) monitorId) as [[fetched|]|e] eqn:Hget.
  - by destruct (updateDatadogMonitor_found cfg remote monitorId patches w fetched Hget).
  - unfold updateDatadogMonitor, try_catch, bind, request. rewrite Hget.
    simpl. by rewrite app_nil_r.
  - unfold updateDatadogMonitor, try_catch, bind, request. rewrite Hget.
    destruct e; simpl; by rewrite app_nil_r.
Qed.

Lemma count_success_perm l l' : l ≡ₚ l' -> count_success l = count_success l'.
Proof.
  unfold count_success. induction 1 as [|x l l' _ IH|x y l|l1 l2 l3 _ IH1 _ IH2]; simpl.
  - done.
  - destruct (is_success x); simpl; by rewrite IH.
  - by destruct (is_success x), (is_success y).
  - congruence.
Qed.

Lemma count_success_app l l' :
  count_success (l ++ l') = count_success l + count_success l'.
Proof. unfold count_success. by rewrite List.filter_app, length_app. Qed.

Lemma forallb_post_filter (f : Call -> bool) cfg cs :
  (forall c, is_post c = true -> f c = false) ->
  forallb (sent_by_callback cfg) cs = true -> List.filter f cs = [].
Proof.
  intros Hf. induction cs as [|c cs IH]; simpl; [done|].
  intros [Hc Hcs]%andb_true_iff. unfold sent_by_callback in Hc.
  apply andb_true_iff in Hc as [_ Hc]. by rewrite (Hf _ Hc), IH.
Qed.

Section Rewrites.

Variables (cfg : Config) (remote : Remote) (monitor : Monitor) (fetched : Monitor).
Hypothesis Hcalm : calm cfg remote.
Hypothesis Hget :
  forall h, monitor_by_id remote h (monitor_id monitor) = Ok (Some fetched).

(** A monitor with mentions of which at least one resolves: every mention
    gets its outcome, the monitor is read once and, outside a dry run,
    written once, with all the patches. *)
Lemma processMonitor_rewrites sched w notifications patch patches :
  has_marker (monitor_message monitor) = false ->
  match_all pagerduty_mention (monitor_message monitor) = notifications ->
  omap (mention_patch w) notifications = patch :: patches ->
  let rewritten :=
    set_message fetched
      (apply_patches (monitor_message fetched) (patch :: patches)) in
  exists rs cs,
    rs ≡ₚ map (mention_outcome monitor w) notifications /\
    forallb (sent_by_callback cfg) cs = true /\
    results (processMonitor cfg remote sched monitor w)
    = results w ++ rs ++ [rewrite_outcome rewritten (monitor_message fetched)] /\
    calls (processMonitor cfg remote sched monitor w)
    = calls w ++ cs ++ GetMonitor (monitor_id monitor)
              :: (if dry_run cfg then []
                  else [write_call (monitor_id monitor) rewritten]).
Proof.
  intros Hmark Hall Hpatches rewritten.
  destruct notifications as [|n ns]; [done|].
  destruct (processMonitor_calm cfg remote monitor Hcalm sched w n ns Hmark Hall)
    as (w2 & Hg & Hperm & ->).
  rewrite Hpatches.
  destruct Hg as (_ & _ & _ & [rs Hrs] & [cs [Hcs Hsent]]).
  destruct (updateDatadogMonitor_found cfg remote (monitor_id monitor)
              (patch :: patches) w2 fetched (Hget _)) as [Hres Hcalls].
  exists rs, cs. split; [|split; [done|split]].
  - rewrite Hrs in Hperm. by apply Permutation_app_inv_l in Hperm.
  - rewrite Hres, Hrs. by rewrite <- app_assoc.
  - rewrite Hcalls, Hcs. by rewrite <- app_assoc.
Qed.

End Rewrites.

(** ** Two mentions *)

(** C1 (as amended).  Take a monitor whose message holds no marker and has
    exactly two routing mentions, both resolving.  When no webhook call
    throws and the monitor is found again when it is read back, processing
    it reads the monitor once and writes it once, with both patches applied
    in the order of the mentions, except that in a dry run nothing is
    written; it records the two success outcomes, in some order, before the
    record of the rewrite.  If moreover the message read back is the listed
    one, neither mention holds a dollar sign and the second mention does not
    occur inside the first, the rewritten message is the listed one with each
    new mention put, after one space, right behind its own mention. *)
Theorem two_mentions_one_write (cfg : Config) (remote : Remote)
    (sched : list nat) (monitor fetched : Monitor) (w : World)
    (before m1 rest1 between m2 after : str) :
  calm cfg remote ->
  (forall h, monitor_by_id remote h (monitor_id monitor) = Ok (Some fetched)) ->
  has_marker (monitor_message monitor) = false ->
  regex_exec pagerduty_mention (monitor_message monitor) = Some (before, m1, rest1) ->
  regex_exec pagerduty_mention rest1 = Some (between, m2, after) ->
  regex_exec pagerduty_mention after = None ->
  resolves w m1 = true ->
  resolves w m2 = true ->
  let n1 := new_notification (fragment_of m1) in
  let n2 := new_notification (fragment_of m2) in
  let rewritten :=
    set_message fetched
      (apply_patches (monitor_message fetched) [(m1, n1); (m2, n2)]) in
  let w' := processMonitor cfg remote sched monitor w in
  List.filter is_monitor_read (calls w')
    = List.filter is_monitor_read (calls w) ++ [GetMonitor (monitor_id monitor)] /\
  List.filter is_monitor_write (calls w')
    = List.filter is_monitor_write (calls w)
      ++ (if dry_run cfg then [] else [write_call (monitor_id monitor) rewritten]) /\
  (exists rs,
      rs ≡ₚ [success_outcome monitor m1 n1; success_outcome monitor m2 n2] /\
      results w'
      = results w ++ rs ++ [rewrite_outcome rewritten (monitor_message fetched)]) /\
  count_success (results w') = count_success (results w) + 2 /\
  (monitor_message fetched = monitor_message monitor ->
   plain m1 = true -> plain m2 = true -> find_first m2 m1 = None ->
   monitor_message rewritten
   = before ++ (m1 ++ lit " " ++ n1) ++ between ++ (m2 ++ lit " " ++ n2) ++ after).
Proof.
  intros Hcalm Hget Hmark He1 He2 He3 Hr1 Hr2 n1 n2 rewritten w'.
  assert (match_all pagerduty_mention (monitor_message monitor) = [m1; m2]) as Hall.
  { rewrite match_all_unfold, He1, match_all_unfold, He2, match_all_unfold.
    by rewrite He3. }
  destruct (resolves_plan monitor w m1 Hr1) as [Hp1 Ho1].
  destruct (resolves_plan monitor w m2 Hr2) as [Hp2 Ho2].
  assert (omap (mention_patch w) [m1; m2] = [(m1, n1); (m2, n2)]) as Hpatches.
  { csimpl. by rewrite Hp1, Hp2. }
  destruct (processMonitor_rewrites cfg remote monitor fetched
              Hcalm Hget sched w [m1; m2] _ _ Hmark Hall Hpatches)
    as (rs & cs & Hperm & Hsent & Hres & Hcalls).
  fold rewritten in Hres, Hcalls. fold w' in Hres, Hcalls.
  simpl map in Hperm. rewrite Ho1, Ho2 in Hperm.
  fold n1 n2 in Hperm.
  split; [|split; [|split; [|split]]].
  - rewrite Hcalls, !List.filter_app.
    rewrite (forallb_post_filter is_monitor_read cfg cs) by (done || by intros []).
    simpl. destruct (dry_run cfg); [done|].
    unfold write_call. by destruct (is_synthetics rewritten).
  - rewrite Hcalls, !List.filter_app.
    rewrite (forallb_post_filter is_monitor_write cfg cs) by (done || by intros []).
    simpl. destruct (dry_run cfg); [done|].
    unfold write_call. by destruct (is_synthetics rewritten).
  - by exists rs.
  - rewrite Hres, !count_success_app, (count_success_perm _ _ Hperm).
    unfold count_success. simpl. lia.
  - intros Hsame Hplain1 Hplain2 Hnone. unfold rewritten. simpl monitor_message.
    rewrite Hsame. by eapply apply_patches_distinct.
Qed.

(** ** The same mention twice *)

(** C10 (as amended).  Take a monitor whose message holds no marker and in
    which the routing pattern has exactly two matches, both with the same
    text, which resolves.  When no webhook call throws, the two matches give
    two identical patches.  When the monitor is found again when it is read
    back, the two success outcomes are recorded, in some order, and then
    the message read back with both patches applied, which is written
    outside a dry run.  If the mention holds no dollar sign, applying the
    patches to the listed message puts the new mention twice behind the
    first occurrence and leaves the second occurrence as it was; this is the
    message recorded and written when the message read back is the listed
    one. *)
Theorem repeated_mention_patched_twice (cfg : Config) (remote : Remote)
    (sched : list nat) (monitor fetched : Monitor) (w : World)
    (before m rest1 between after : str) :
  calm cfg remote ->
  has_marker (monitor_message monitor) = false ->
  regex_exec pagerduty_mention (monitor_message monitor) = Some (before, m, rest1) ->
  regex_exec pagerduty_mention rest1 = Some (between, m, after) ->
  regex_exec pagerduty_mention after = None ->
  resolves w m = true ->
  let n := new_notification (fragment_of m) in
  let twice :=
    before ++ (m ++ lit " " ++ n) ++ lit " " ++ n ++ between ++ m ++ after in
  let rewritten :=
    set_message fetched (apply_patches (monitor_message fetched) [(m, n); (m, n)]) in
  let w' := processMonitor cfg remote sched monitor w in
  omap (mention_patch w) (match_all pagerduty_mention (monitor_message monitor))
    = [(m, n); (m, n)] /\
  (plain m = true ->
   apply_patches (monitor_message monitor) [(m, n); (m, n)] = twice) /\
  ((forall h, monitor_by_id remote h (monitor_id monitor) = Ok (Some fetched)) ->
   (exists rs,
       rs ≡ₚ [success_outcome monitor m n; success_outcome monitor m n] /\
       results w'
       = results w ++ rs ++ [rewrite_outcome rewritten (monitor_message fetched)]) /\
   List.filter is_monitor_write (calls w')
     = List.filter is_monitor_write (calls w)
       ++ (if dry_run cfg then [] else [write_call (monitor_id monitor) rewritten]) /\
   (plain m = true -> monitor_message fetched = monitor_message monitor ->
    monitor_message rewritten = twice)).
Proof.
  intros Hcalm Hmark He1 He2 He3 Hr n twice rewritten w'.
  assert (match_all pagerduty_mention (monitor_message monitor) = [m; m]) as Hall.
  { rewrite match_all_unfold, He1, match_all_unfold, He2, match_all_unfold.
    by rewrite He3. }
  destruct (resolves_plan monitor w m Hr) as [Hp Ho].
  assert (omap (mention_patch w) [m; m] = [(m, n); (m, n)]) as Hpatches.
  { csimpl. by rewrite Hp. }
  assert (plain m = true ->
          apply_patches (monitor_message monitor) [(m, n); (m, n)] = twice)
    as Happly.
  { intros Hplain. unfold n, twice.
    rewrite (apply_patches_repeated _ _ _ _ _ He1 Hplain).
    by destruct (regex_exec_some _ _ _ _ _ He2) as (-> & _). }
  rewrite Hall. split; [done|]. split; [done|]. intros Hget.
  destruct (processMonitor_rewrites cfg remote monitor fetched Hcalm Hget sched w
              [m; m] _ _ Hmark Hall Hpatches)
    as (rs & cs & Hperm & Hsent & Hres & Hcalls).
  fold rewritten in Hres, Hcalls. fold w' in Hres, Hcalls.
  simpl map in Hperm. rewrite Ho in Hperm. fold n in Hperm.
  split; [by exists rs|]. split.
  - rewrite Hcalls, !List.filter_app.
    rewrite (forallb_post_filter is_monitor_write cfg cs) by (done || by intros []).
    simpl. destruct (dry_run cfg); [done|].
    unfold write_call. by destruct (is_synthetics rewritten).
  - intros Hplain Hsame. unfold rewritten. destruct fetched; simpl in *.
    rewrite Hsame. by apply Happly.
Qed.

Lemma two_mentions_one_write_witness :
  List.filter is_monitor_write
    (calls (processMonitor Example.normal
              (Example.remote
                 (Ok (Some (Example.monitor
                              "alert @pagerduty-checkout and @pagerduty-payments now")))
                 (Ok tt))
              [0; 1; 1; 0]
              (Example.monitor "alert @pagerduty-checkout and @pagerduty-payments now")
              Example.directory))
  = [PutMonitor (lit "42")
       (Example.monitor
          "alert @pagerduty-checkout @webhook-rootly-checkout and @pagerduty-payments @webhook-rootly-payments now")].
Proof.
  pose proof (two_mentions_one_write Example.normal
              (Example.remote
                 (Ok (Some (Example.monitor
                              "alert @pagerduty-checkout and @pagerduty-payments now")))
                 (Ok tt))
              [0; 1; 1; 0]
              (Example.monitor "alert @pagerduty-checkout and @pagerduty-payments now")
              (Example.monitor "alert @pagerduty-checkout and @pagerduty-payments now")
              Example.directory
              (lit "alert ") (lit "@pagerduty-checkout")
              (lit " and @pagerduty-payments now")
              (lit " and ") (lit "@pagerduty-payments") (lit " now")
              (or_intror (fun _ _ _ => eq_refl)) (fun _ => eq_refl)
              eq_refl eq_refl eq_refl eq_refl eq_refl eq_refl) as H.
  cbv zeta in H. destruct H as (_ & Hwrite & _).
  etransitivity; [exact Hwrite|reflexivity].
Defined.

(** C1, as stated, fails.  In a dry run nothing is written; the monitor may
    be gone when it is read back; a monitor whose message holds the marker
    is skipped; a webhook call without a response ends the processing of the
    monitor; and a mention that occurs inside an earlier one, or holds [$$],
    is not patched where it stands. *)
Lemma two_mentions_without_one_write :
  let message := "alert @pagerduty-checkout and @pagerduty-payments now"%string in
  let monitor := Example.monitor message in
  let run cfg fetched post :=
    processMonitor cfg (Example.remote fetched post) [] monitor Example.directory in
  let marked :=
    Example.monitor
      "alert @pagerduty-checkout and @pagerduty-payments (was @webhook-rootly-old)" in
  let skipped :=
    processMonitor Example.normal (Example.remote (Ok (Some marked)) (Ok tt)) []
      marked Example.directory in
  resolves Example.directory (lit "@pagerduty-checkout") = true /\
  resolves Example.directory (lit "@pagerduty-payments") = true /\
  match_all pagerduty_mention (lit message)
    = [lit "@pagerduty-checkout"; lit "@pagerduty-payments"] /\
  match_all pagerduty_mention (monitor_message marked)
    = [lit "@pagerduty-checkout"; lit "@pagerduty-payments"] /\
  calls skipped = calls Example.directory /\
  count_success (results skipped) = 0 /\
  List.filter is_write (calls (run Example.dry (Ok (Some monitor)) (Ok tt))) = [] /\
  count_success (results (run Example.dry (Ok (Some monitor)) (Ok tt))) = 2 /\
  List.filter is_monitor_write (calls (run Example.normal (Ok None) (Ok tt))) = [] /\
  List.filter is_monitor_write
    (calls (run Example.normal (Ok (Some monitor)) (Failed NoResponse))) = [] /\
  count_success (results (run Example.normal (Ok (Some monitor)) (Failed NoResponse)))
    = 0 /\
  apply_patches (lit "page @pagerduty-checkout_eu then @pagerduty-checkout")
    [(lit "@pagerduty-checkout_eu", lit "@webhook-rootly-checkout_eu");
     (lit "@pagerduty-checkout", lit "@webhook-rootly-checkout")]
  = lit "page @pagerduty-checkout @webhook-rootly-checkout_eu @webhook-rootly-checkout_eu then @pagerduty-checkout".
Proof. by vm_compute. Qed.

Lemma repeated_mention_patched_twice_witness :
  apply_patches (lit "@pagerduty-checkout or else @pagerduty-checkout")
    [(lit "@pagerduty-checkout", lit "@webhook-rootly-checkout");
     (lit "@pagerduty-checkout", lit "@webhook-rootly-checkout")]
  = lit "@pagerduty-checkout @webhook-rootly-checkout @webhook-rootly-checkout or else @pagerduty-checkout".
Proof.
  pose proof (repeated_mention_patched_twice Example.dry
              (Example.remote
                 (Ok (Some (Example.monitor
                              "@pagerduty-checkout or else @pagerduty-checkout")))
                 (Ok tt))
              []
              (Example.monitor "@pagerduty-checkout or else @pagerduty-checkout")
              (Example.monitor "@pagerduty-checkout or else @pagerduty-checkout")
              Example.directory
              [] (lit "@pagerduty-checkout") (lit " or else @pagerduty-checkout")
              (lit " or else ") []
              (or_introl eq_refl) eq_refl eq_refl eq_refl eq_refl eq_refl) as H.
  cbv zeta in H. destruct H as (_ & Happly & _).
  exact (Happly eq_refl).
Defined.

(** C10, as stated, fails.  Two occurrences of a mention with no white space
    between them are one match, hence one patch.  A monitor whose message
    holds the marker is skipped, so that no patch is extracted from it.  And
    when the mention holds [$$] the replacement text turns it into one dollar
    sign, so the first patch alters the first occurrence and the second patch
    lands on the second occurrence. *)
Lemma repeated_mention_not_patched_twice :
  let glued := lit "@pagerduty-x@pagerduty-x" in
  let message := lit "@pagerduty-$$x and @pagerduty-$$x" in
  let m := lit "@pagerduty-$$x" in
  let n := lit "@webhook-rootly-x" in
  let marked :=
    Example.monitor "@pagerduty-checkout or else @pagerduty-checkout @webhook-rootly-old" in
  let skipped :=
    processMonitor Example.normal (Example.remote (Ok (Some marked)) (Ok tt)) []
      marked Example.directory in
  match_all pagerduty_mention (monitor_message marked)
    = [lit "@pagerduty-checkout"; lit "@pagerduty-checkout"] /\
  results skipped = results Example.directory ++ [skip_outcome marked] /\
  calls skipped = calls Example.directory /\
  match_all pagerduty_mention glued = [glued] /\
  omap (mention_patch Example.directory) [glued] = [(glued, n)] /\
  match_all pagerduty_mention message = [m; m] /\
  omap (mention_patch Example.directory) [m; m] = [(m, n); (m, n)] /\
  apply_patches message [(m, n); (m, n)]
    = lit "@pagerduty-$x @webhook-rootly-x and @pagerduty-$x @webhook-rootly-x" /\
  apply_patches message [(m, n); (m, n)]
    <> m ++ lit " " ++ n ++ lit " " ++ n ++ lit " and " ++ m.
Proof. by vm_compute. Qed.

(** C9, as stated, fails for the current script: with the four credentials
    and no alert-source secret it exits with code 1; the earlier script
    passes its check. *)
Lemma secret_is_required :
  program Example.credentials Example.listing 5 [] = Exited 1 initial_world /\
  Legacy.exit_at_startup Example.credentials = None /\
  exit_at_startup requiredEnvVars Example.credentials_and_secret = None.
Proof. by vm_compute. Qed.

Lemma startup_check_witness :
  program Example.credentials Example.listing 5 [] = Exited 1 initial_world.
Proof.
  destruct (startup_check Example.credentials) as (Hexit & _).
  apply (Hexit "ROOTLY_ALERT_SOURCE_SECRET"%string Example.listing 5 []).
  - simpl. tauto.
  - reflexivity.
Defined.

Lemma paginated_fetch_accumulates_witness :
  fetchAndCachePagerdutyServices Example.listing 5 initial_world
  = (Ret tt,
     set_pagerdutyServicesCache
       [ {| pd_id := lit "P1"; pd_name := lit "Checkout" |};
         {| pd_id := lit "P2"; pd_name := lit "Payments" |} ]
       (push_calls [GetPagerdutyServices 0; GetPagerdutyServices 25;
                    GetPagerdutyServices 50] initial_world)).
Proof.
  apply (paginated_fetch_accumulates Example.listing 5 initial_world
           [ [ {| pd_id := lit "P1"; pd_name := lit "Checkout" |} ];
             [ {| pd_id := lit "P2"; pd_name := lit "Payments" |} ] ]
           (Failed NoResponse)
           [ [ {| rootly_id := lit "R1"; rootly_pagerduty_id := Some (lit "P1") |} ] ]
           (Ok [])
           [ [ Example.monitor "alert @pagerduty-checkout is firing" ] ]
           (Ok []));
    simpl; repeat split; (done || lia).
Defined.

(** The scenario of the specification, from the startup check to the
    report. *)
Example end_to_end :
  match program Example.credentials_and_secret Example.listing 5 [] with
  | Finished r w =>
      r = Ret tt /\
      List.filter is_write (calls w)
      = [PostWebhook (lit "rootly-checkout") (lit "R1") (Some "secret"%string);
         PutMonitor (lit "42")
           (Example.monitor
              "alert @pagerduty-checkout @webhook-rootly-checkout is firing")] /\
      count_success (results w) = 1 /\
      report w = Some (results w)
  | Exited _ _ => False
  end.
Proof. by vm_compute. Qed.

(** ** Errors of the webhook call *)

(** [createDatadogWebhook] throws exactly when the POST fails and the error
    has no response, or a response body without [errors]; every other
    answer, "Webhook already exists" included, ends it like a success. *)
Lemma createDatadogWebhook_settle_cases reply :
  createDatadogWebhook_settle reply =
  match reply with
  | Some (Failed NoResponse) => Throw TypeError
  | Some (Failed (ErrorResponse None)) => Throw TypeError
  | _ => Ret tt
  end.
Proof.
  destruct reply as [[[]|[|[errors|]]]|]; simpl; try done.
  by destruct (bool_decide _).
Qed.

(** C6.  "Webhook already exists" and every other error that carries a
    response with [errors] leave the run as a successful creation does.  An
    error without a response, such as a timeout, is not swallowed: the
    [catch] block of [createDatadogWebhook] throws while reading
    [error.response.data.errors], [Promise.all] rejects, and
    [updateDatadogMonitor] is never called for the monitor. *)
Theorem webhook_error_without_response_aborts_rewrite :
  let monitor := Example.monitor "alert @pagerduty-checkout is firing" in
  let run post :=
    processMonitor Example.normal (Example.remote (Ok (Some monitor)) post) []
      monitor Example.directory in
  run (Failed (ErrorResponse (Some [lit "Webhook already exists"]))) = run (Ok tt) /\
  run (Failed (ErrorResponse (Some [lit "Forbidden"]))) = run (Ok tt) /\
  List.filter is_monitor_write (calls (run (Ok tt)))
  = [PutMonitor (lit "42")
       (Example.monitor "alert @pagerduty-checkout @webhook-rootly-checkout is firing")] /\
  createDatadogWebhook Example.normal
    (Example.remote (Ok (Some monitor)) (Failed NoResponse))
    (lit "checkout") (lit "R1") Example.directory
  = (Throw TypeError,
     push_call (PostWebhook (lit "rootly-checkout") (lit "R1") (Some "secret"%string))
               Example.directory) /\
  calls (run (Failed NoResponse))
  = [PostWebhook (lit "rootly-checkout") (lit "R1") (Some "secret"%string)] /\
  results (run (Failed NoResponse)) = [].
Proof. by vm_compute. Qed.

(** ** Dry runs *)

Lemma no_new_write_refl w : no_new_write w w.
Proof. done. Qed.

Lemma no_new_write_trans w1 w2 w3 :
  no_new_write w1 w2 -> no_new_write w2 w3 -> no_new_write w1 w3.
Proof. unfold no_new_write. congruence. Qed.

Lemma sends_no_write_ret {A} (a : A) : sends_no_write (ret a).
Proof. by intros w. Qed.

Lemma sends_no_write_modify f :
  (forall w, calls (f w) = calls w) -> sends_no_write (modify f).
Proof. intros Hf w. unfold no_new_write, modify. simpl. by rewrite Hf. Qed.

Lemma sends_no_write_bind {A B} (m : M A) (k : A -> M B) :
  sends_no_write m -> (forall a, sends_no_write (k a)) -> sends_no_write (bind m k).
Proof.
  intros Hm Hk w. unfold bind. specialize (Hm w).
  destruct (m w) as [[a|e|] w1]; simpl in *; try done.
  eapply no_new_write_trans; [done|apply Hk].
Qed.

Lemma sends_no_write_try_catch {A} (body : M A) handler :
  sends_no_write body -> (forall e, sends_no_write (handler e)) ->
  sends_no_write (try_catch body handler).
Proof.
  intros Hb Hh w. unfold try_catch. specialize (Hb w).
  destruct (body w) as [[a|e|] w1]; simpl in *; try done.
  eapply no_new_write_trans; [done|apply Hh].
Qed.

Lemma paginate_sends_no_write {A} get (answer : nat -> Reply (list A)) step fuel :
  (forall page, is_write (get page) = false) ->
  forall page acc, sends_no_write (paginate get answer step fuel page acc).
Proof.
  intros Hget. induction fuel as [|fuel IH]; intros page acc w; simpl; [done|].
  assert (no_new_write w (push_call (get page) w)) as Hpush.
  { unfold no_new_write. simpl. rewrite List.filter_app. simpl.
    by rewrite Hget, app_nil_r. }
  destruct (answer page) as [[|x fetched]|e]; simpl; try done.
  eapply no_new_write_trans; [done|apply IH].
Qed.

(** In a dry run [processMonitor] sends no write: no webhook POST, no PUT of
    the monitor, no PATCH of the synthetics test. *)
Lemma dry_run_sends_no_write cfg remote sched monitor w :
  dry_run cfg = true ->
  no_new_write w (processMonitor cfg remote sched monitor w).
Proof.
  intros Hdry. eapply grows_by_no_write; [|apply processMonitor_grows].
  intros c. unfold sent_by_monitor. rewrite Hdry. by destruct c.
Qed.

Lemma dry_run_process_monitors cfg remote scheds monitors w :
  dry_run cfg = true ->
  no_new_write w (process_monitors cfg remote scheds monitors w).
Proof.
  intros Hdry. revert scheds w.
  induction monitors as [|monitor rest IH]; intros scheds w; simpl; [done|].
  eapply no_new_write_trans; [by apply dry_run_sends_no_write|apply IH].
Qed.

(** A whole dry run sends no write. *)
Lemma dry_run_program_sends_no_write env remote fuel scheds :
  truthy_string (env !! "DRY_RUN"%string) = true ->
  List.filter is_write (calls (world_of (program env remote fuel scheds))) = [].
Proof.
  intros Hdry. unfold program.
  destruct (exit_at_startup requiredEnvVars env); [done|].
  assert (sends_no_write (main (config_of env) remote fuel scheds)) as Hmain.
  { unfold main, fetchAndCacheRootlyServices, fetchAndCachePagerdutyServices,
      fetchDatadogMonitors.
    apply sends_no_write_try_catch; [|intros e; apply sends_no_write_ret].
    repeat first
      [ apply sends_no_write_bind; [|intros ?]
      | by apply paginate_sends_no_write
      | by apply sends_no_write_modify
      | apply sends_no_write_ret ].
    intros w. by apply dry_run_process_monitors. }
  specialize (Hmain initial_world).
  by destruct (main (config_of env) remote fuel scheds initial_world).
Qed.

(** When no webhook call throws and the monitor reads back the same, a dry
    run leaves the outcome records of a normal run, the order of the
    per-mention outcomes apart: the messages before and after are those a
    normal run records and writes. *)
Lemma dry_run_same_outcomes dry normal remote sched sched' monitor w :
  dry_run dry = true ->
  never_raises remote ->
  (forall h h', monitor_by_id remote h (monitor_id monitor)
                = monitor_by_id remote h' (monitor_id monitor)) ->
  results (processMonitor dry remote sched monitor w)
  ≡ₚ results (processMonitor normal remote sched' monitor w).
Proof.
  intros Hdry Hnever Hget.
  destruct (has_marker (monitor_message monitor)) eqn:Hmark.
  { unfold processMonitor. by rewrite Hmark. }
  destruct (match_all pagerduty_mention (monitor_message monitor)) as [|n ns] eqn:Hall.
  { unfold processMonitor. by rewrite Hmark, Hall. }
  destruct (processMonitor_calm dry remote monitor (or_introl Hdry) sched w n ns
              Hmark Hall) as (wd & _ & Hpd & ->).
  destruct (processMonitor_calm normal remote monitor (or_intror Hnever) sched' w n ns
              Hmark Hall) as (wn & _ & Hpn & ->).
  destruct (omap (mention_patch w) (n :: ns)) as [|p ps]; [by rewrite Hpd, Hpn|].
  rewrite !updateDatadogMonitor_results.
  rewrite (Hget (calls wd) (calls wn)). by rewrite Hpd, Hpn.
Qed.

(** C8.  A dry run sends no write and records what it would change.  The
    records are not always those of a normal run: when a webhook POST of the
    normal run ends without a response, the normal run records nothing for
    the monitor (the defect of C6), while the dry run, which sends no POST,
    records the success and the rewrite. *)
Theorem dry_run_records_differ_from_failed_normal_run :
  let monitor := Example.monitor "alert @pagerduty-checkout is firing" in
  let remote := Example.remote (Ok (Some monitor)) (Failed NoResponse) in
  let dry := processMonitor Example.dry remote [] monitor Example.directory in
  let normal := processMonitor Example.normal remote [] monitor Example.directory in
  List.filter is_write (calls dry) = [] /\
  calls dry = [GetMonitor (lit "42")] /\
  results dry
  = [success_outcome monitor (lit "@pagerduty-checkout")
       (lit "@webhook-rootly-checkout");
     rewrite_outcome
       (Example.monitor "alert @pagerduty-checkout @webhook-rootly-checkout is firing")
       (lit "alert @pagerduty-checkout is firing")] /\
  results normal = [] /\
  results dry <> results normal.
Proof. by vm_compute. Qed.

(** ** Callbacks left behind *)

Lemma callback_start_detached monitor notification w :
  detached (callback_start monitor notification w).2 = detached w.
Proof. unfold callback_start. by destruct (truthy _). Qed.

Lemma spawn_detached monitor notifications w :
  detached (spawn monitor notifications w).2 = detached w.
Proof.
  revert w. induction notifications as [|n ns IH]; intros w; simpl; [done|].
  pose proof (callback_start_detached monitor n w) as H1.
  destruct (callback_start monitor n w) as [t w1]. specialize (IH w1).
  destruct (spawn monitor ns w1) as [ts w2]. simpl in *. congruence.
Qed.

Lemma callback_resume_detached cfg remote monitor t w :
  detached (callback_resume cfg remote monitor t w).2 = detached w.
Proof.
  destruct t as [n s pd rid|n s reply|p|e]; simpl; try done.
  - destruct (truthy rid); [|done]. unfold createDatadogWebhook_send.
    by destruct (dry_run cfg).
  - by destruct (createDatadogWebhook_settle reply).
Qed.

Lemma await_all_detached cfg remote monitor sched tasks w :
  detached (await_all cfg remote monitor sched tasks w).2 = detached w.
Proof.
  apply (await_all_preserves cfg remote monitor
           (fun st => detached st.2 = detached w)); [|done].
  intros st i <-.
  destruct (turn_cases cfg remote monitor st i)
    as [->|(t & t' & w' & _ & _ & Hres & ->)]; [done|].
  pose proof (callback_resume_detached cfg remote monitor t st.2) as H.
  by rewrite Hres in H.
Qed.

Lemma request_detached {A} c (answer : list Call -> Reply A) w :
  detached (request c answer w).2 = detached w.
Proof. unfold request. by destruct (answer (calls w)). Qed.

Lemma updateDatadogMonitor_detached cfg remote monitorId patches w :
  detached (updateDatadogMonitor cfg remote monitorId patches w).2 = detached w.
Proof.
  unfold updateDatadogMonitor, try_catch, bind, modify, request, ret, throw.
  destruct (monitor_by_id remote (calls w) monitorId) as [[fetched|]|[|errors]];
    simpl; try done.
  destruct (dry_run cfg); [done|].
  destruct (is_synthetics _).
  - by destruct (synthetics_patched _ _ _ _) as [[]|[|errors]].
  - by destruct (monitor_put _ _ _ _) as [[]|[|errors]].
Qed.

(** When no webhook call throws, [processMonitor] leaves no callback behind:
    every callback is followed to its end. *)
Lemma processMonitor_calm_detached cfg remote sched monitor w :
  calm cfg remote ->
  detached (processMonitor cfg remote sched monitor w) = detached w.
Proof.
  intros Hcalm.
  destruct (has_marker (monitor_message monitor)) eqn:Hmark.
  { unfold processMonitor. by rewrite Hmark. }
  destruct (match_all pagerduty_mention (monitor_message monitor)) as [|n ns] eqn:Hall.
  { unfold processMonitor. by rewrite Hmark, Hall. }
  unfold processMonitor. rewrite Hmark, Hall.
  destruct (spawn_plan monitor (n :: ns) w w eq_refl eq_refl) as (Hs & _).
  pose proof (spawn_detached monitor (n :: ns) w) as Hd1.
  destruct (spawn monitor (n :: ns) w) as [tasks w1]. cbn [fst snd] in *.
  destruct (await_all_calm cfg remote monitor Hcalm sched tasks w1 Hs) as (Hrej & _).
  pose proof (await_all_detached cfg remote monitor sched tasks w1) as Hd2.
  destruct (await_all cfg remote monitor sched tasks w1) as [tasks' w2].
  cbn [fst snd] in *. rewrite Hrej.
  destruct (omap returned_patch tasks'); [congruence|].
  rewrite updateDatadogMonitor_detached. congruence.
Qed.

Lemma process_monitors_calm_detached cfg remote scheds monitors w :
  calm cfg remote ->
  detached (process_monitors cfg remote scheds monitors w) = detached w.
Proof.
  intros Hcalm. revert scheds w.
  induction monitors as [|monitor rest IH]; intros scheds w; simpl; [done|].
  rewrite IH. by apply processMonitor_calm_detached.
Qed.

(** ** What the processing of a monitor sends, with the monitor pinned *)

Lemma updateDatadogMonitor_calls cfg remote monitorId patches w :
  calls (updateDatadogMonitor cfg remote monitorId patches w).2
  = calls w ++ GetMonitor monitorId ::
    match monitor_by_id remote (calls w) monitorId with
    | Ok (Some fetched) =>
        if dry_run cfg then []
        else [write_call monitorId
                (set_message fetched
                   (apply_patches (monitor_message fetched) patches))]
    | _ => []
    end.
Proof.
  destruct (monitor_by_id remote (calls w) monitorId) as [[fetched|]|e] eqn:Hget.
  - by destruct (updateDatadogMonitor_found cfg remote monitorId patches w fetched Hget).
  - unfold updateDatadogMonitor, try_catch, bind, request. by rewrite Hget.
  - unfold updateDatadogMonitor, try_catch, bind, request. rewrite Hget.
    by destruct e.
Qed.

Lemma processMonitor_calm_reports cfg remote sched monitor w :
  calm cfg remote ->
  length (results w)
  + Nat.max 1 (if has_marker (monitor_message monitor) then 0
               else length (match_all pagerduty_mention (monitor_message monitor)))
  <= length (results (processMonitor cfg remote sched monitor w)).
Proof.
  intros Hcalm.
  destruct (has_marker (monitor_message monitor)) eqn:Hmark.
  { unfold processMonitor. rewrite Hmark. simpl. rewrite length_app. simpl. lia. }
  destruct (match_all pagerduty_mention (monitor_message monitor)) as [|n ns] eqn:Hall.
  { unfold processMonitor. rewrite Hmark, Hall. simpl. rewrite length_app. simpl. lia. }
  destruct (processMonitor_calm cfg remote monitor Hcalm sched w n ns Hmark Hall)
    as (w2 & _ & Hperm & ->).
  apply Permutation_length in Hperm.
  rewrite length_app, length_map in Hperm.
  destruct (omap (mention_patch w) (n :: ns)) as [|p ps]; [simpl in *; lia|].
  rewrite updateDatadogMonitor_results, length_app. simpl in *. lia.
Qed.

Lemma updateDatadogMonitor_grows_for cfg remote monitor patches w :
  grows_by (sent_for cfg monitor) w
    (updateDatadogMonitor cfg remote (monitor_id monitor) patches w).2.
Proof.
  destruct (updateDatadogMonitor_grows cfg remote (monitor_id monitor) patches w)
    as (H1 & H2 & H3 & Hrs & _).
  repeat split; try done. eexists. split; [apply updateDatadogMonitor_calls|].
  cbn [forallb sent_for]. rewrite bool_decide_true by done. cbn [andb].
  destruct (monitor_by_id remote (calls w) (monitor_id monitor)) as [[fetched|]|e];
    try done.
  destruct (dry_run cfg) eqn:Hdry; [done|]. unfold write_call.
  destruct (is_synthetics _); cbn [forallb sent_for]; rewrite Hdry; [done|].
  by rewrite bool_decide_true.
Qed.

Lemma processMonitor_grows_for cfg remote sched monitor w :
  grows_by (sent_for cfg monitor) w (processMonitor cfg remote sched monitor w).
Proof.
  assert (forall c, sent_by_callback cfg c = true -> sent_for cfg monitor c = true)
    as Hcb.
  { intros c. unfold sent_by_callback, sent_for. destruct c; simpl; try done;
      by rewrite ?andb_false_r, ?andb_true_r. }
  unfold processMonitor.
  destruct (has_marker _); [apply grows_by_push_result|].
  destruct (match_all _ _) as [|n ns]; [apply grows_by_push_result|].
  pose proof (spawn_grows monitor (sent_for cfg monitor) (n :: ns) w) as H1.
  destruct (spawn monitor (n :: ns) w) as [tasks w1]. simpl in H1.
  pose proof (await_all_grows cfg remote monitor sched tasks w1) as H2.
  destruct (await_all cfg remote monitor sched tasks w1) as [tasks' w2]. simpl in H2.
  apply (grows_by_weaken _ (sent_for cfg monitor)) in H2; [|done].
  assert (grows_by (sent_for cfg monitor) w w2) as H12 by by eapply grows_by_trans.
  destruct (existsb is_rejected tasks').
  { eapply grows_by_trans; [done|apply grows_by_detach]. }
  destruct (omap returned_patch tasks') as [|p ps]; [done|].
  eapply grows_by_trans; [done|]. apply updateDatadogMonitor_grows_for.
Qed.

(** The loop over the monitors sends, for the monitors of the list only,
    what the processing of a monitor may send. *)
Lemma process_monitors_grows_for cfg remote monitors : forall scheds w,
  grows_by (fun c => existsb (fun monitor => sent_for cfg monitor c) monitors) w
    (process_monitors cfg remote scheds monitors w).
Proof.
  induction monitors as [|monitor rest IH]; intros scheds w; simpl.
  - apply grows_by_refl.
  - eapply grows_by_trans.
    + eapply grows_by_weaken; [|apply processMonitor_grows_for].
      intros c Hc. cbn beta. by rewrite Hc.
    + eapply grows_by_weaken; [|apply IH].
      intros c Hc. cbn beta in *. by rewrite Hc, orb_true_r.
Qed.

Lemma process_monitors_app cfg remote l1 : forall l2 scheds w,
  process_monitors cfg remote scheds (l1 ++ l2) w
  = process_monitors cfg remote (drop (length l1) scheds) l2
      (process_monitors cfg remote scheds l1 w).
Proof.
  induction l1 as [|m l1 IH]; intros l2 scheds w; simpl.
  - by rewrite drop_0.
  - rewrite IH. destruct scheds; simpl; by rewrite ?drop_nil.
Qed.

Lemma process_monitors_calm_reports cfg remote monitors : forall scheds w,
  calm cfg remote ->
  length (results w) + length monitors
  <= length (results (process_monitors cfg remote scheds monitors w)).
Proof.
  induction monitors as [|monitor rest IH]; intros scheds w Hcalm; simpl; [lia|].
  pose proof (processMonitor_calm_reports cfg remote (hd [] scheds) monitor w Hcalm).
  pose proof (IH (tail scheds) (processMonitor cfg remote (hd [] scheds) monitor w)
                Hcalm).
  lia.
Qed.

(** ** A mention without a PagerDuty service *)

Lemma extends_by_refl pushed sent w : extends_by pushed sent w w.
Proof. split; exists []; by rewrite app_nil_r. Qed.

Lemma extends_by_trans pushed sent w1 w2 w3 :
  extends_by pushed sent w1 w2 -> extends_by pushed sent w2 w3 ->
  extends_by pushed sent w1 w3.
Proof.
  intros [[rs [Hrs Hp]] [cs [Hcs Hs]]] [[rs' [Hrs' Hp']] [cs' [Hcs' Hs']]].
  split.
  - exists (rs ++ rs'). split; [by rewrite Hrs', Hrs, app_assoc|].
    by rewrite forallb_app, Hp, Hp'.
  - exists (cs ++ cs'). split; [by rewrite Hcs', Hcs, app_assoc|].
    by rewrite forallb_app, Hs, Hs'.
Qed.

Lemma extends_by_push_result (pushed : Outcome -> bool) sent o w :
  pushed o = true -> extends_by pushed sent w (push_result o w).
Proof.
  intros Ho. split.
  - exists [o]. split; [done|]. simpl. by rewrite Ho.
  - exists []. by rewrite app_nil_r.
Qed.

Lemma extends_by_push_call pushed (sent : Call -> bool) c w :
  sent c = true -> extends_by pushed sent w (push_call c w).
Proof.
  intros Hc. split.
  - exists []. by rewrite app_nil_r.
  - exists [c]. split; [done|]. simpl. by rewrite Hc.
Qed.

Lemma getPagerdutyServiceId_truthy cache serviceName :
  truthy (getPagerdutyServiceId cache serviceName) = true ->
  exists service,
    service ∈ cache /\
    normalizedServiceName (pd_name service) = normalizedServiceName serviceName.
Proof.
  unfold getPagerdutyServiceId.
  destruct (find _ cache) as [service|] eqn:Hf; [|done]. intros _.
  apply find_some in Hf as [Hin Hs]. apply bool_decide_eq_true in Hs.
  exists service. split; [by apply list_elem_of_In|done].
Qed.

Section Unresolved.

Variables (cfg : Config) (remote : Remote) (monitor : Monitor)
  (notification : str) (cache : list PagerdutyService).

Hypothesis Hnone :
  Forall (fun s => normalizedServiceName (pd_name s)
                   <> normalizedServiceName (fragment_of notification)) cache.

Local Abbreviation failure :=
  (error_outcome monitor notification
     (lit "PagerDuty ID not found for service name: " ++ fragment_of notification)).
Local Abbreviation other_outcome := (fun o => negb (about notification o)).
Local Abbreviation other_call :=
  (fun c => negb (posts_for (fragment_of notification) c)).

(** A callback of another mention stays one, pushes only outcomes of its
    own mention and asks only for its own webhook. *)
Lemma callback_resume_apart t w :
  apart_from notification t = true ->
  apart_from notification (callback_resume cfg remote monitor t w).1 = true /\
  extends_by other_outcome other_call w (callback_resume cfg remote monitor t w).2.
Proof.
  destruct t as [n s pd rid|n s reply|p|e]; cbn [callback_resume apart_from].
  - intros Ht. pose proof Ht as [Hn Hs]%andb_true_iff.
    destruct (truthy rid).
    + unfold createDatadogWebhook_send. destruct (dry_run cfg); cbn [fst snd apart_from].
      * split; [done|apply extends_by_refl].
      * split; [done|]. apply extends_by_push_call. by cbn [posts_for].
    + cbn [fst snd apart_from]. split; [done|].
      apply extends_by_push_result. unfold about. cbn [o_old error_outcome].
      apply negb_true_iff in Hn. apply bool_decide_eq_false in Hn.
      apply negb_true_iff, bool_decide_eq_false. congruence.
  - intros Ht. pose proof Ht as [Hn Hs]%andb_true_iff.
    destruct (createDatadogWebhook_settle reply) as [[]|e|]; cbn [fst snd apart_from].
    + split; [done|].
      apply extends_by_push_result. unfold about. cbn [o_old success_outcome].
      apply negb_true_iff in Hn. apply bool_decide_eq_false in Hn.
      apply negb_true_iff, bool_decide_eq_false. congruence.
    + split; [done|apply extends_by_refl].
    + split; [done|apply extends_by_refl].
  - intros Ht. split; [done|apply extends_by_refl].
  - intros Ht. split; [done|apply extends_by_refl].
Qed.

Lemma turn_apart st i :
  forallb (apart_from notification) st.1 = true ->
  forallb (apart_from notification) (turn cfg remote monitor st i).1 = true /\
  extends_by other_outcome other_call st.2 (turn cfg remote monitor st i).2.
Proof.
  intros Hall.
  destruct (turn_cases cfg remote monitor st i)
    as [->|(t & t' & w' & _ & Hi & Hres & ->)]; [split; [done|apply extends_by_refl]|].
  cbn [fst snd].
  destruct (insert_split st.1 i t t' Hi) as [Hl ->].
  rewrite Hl, forallb_app in Hall. cbn [forallb] in Hall.
  apply andb_true_iff in Hall as [HA [Ht HB]%andb_true_iff].
  destruct (callback_resume_apart t st.2 Ht) as [Ht' Hext].
  rewrite Hres in Ht', Hext. cbn [fst snd] in *. split; [|done].
  rewrite forallb_app. cbn [forallb]. by rewrite HA, Ht', HB.
Qed.

Lemma await_all_apart sched tasks w :
  forallb (apart_from notification) tasks = true ->
  forallb (apart_from notification) (await_all cfg remote monitor sched tasks w).1
  = true /\
  extends_by other_outcome other_call w
    (await_all cfg remote monitor sched tasks w).2.
Proof.
  intros Hall.
  apply (await_all_preserves cfg remote monitor
           (fun st => forallb (apart_from notification) st.1 = true /\
                      extends_by other_outcome other_call w st.2)).
  - intros st i [H1 H2]. destruct (turn_apart st i H1) as [H1' H2'].
    split; [done|]. by eapply extends_by_trans.
  - split; [done|apply extends_by_refl].
Qed.

(** Starting the callbacks: the callbacks of the mention push its error
    outcome and return; all the others are callbacks of other mentions. *)
Lemma spawn_unresolved notifications : forall w,
  pagerdutyServicesCache w = cache ->
  forallb (apart_from notification) (spawn monitor notifications w).1 = true /\
  calls (spawn monitor notifications w).2 = calls w /\
  exists rs,
    results (spawn monitor notifications w).2 = results w ++ rs /\
    List.filter (about notification) rs
    = replicate (length (List.filter (fun m => bool_decide (m = notification))
                                     notifications)) failure.
Proof.
  induction notifications as [|m ms IH]; intros w Hcache; cbn [spawn].
  - split; [done|]. split; [done|]. exists []. by rewrite app_nil_r.
  - destruct (callback_start_caches monitor m w) as [Hk _].
    assert (exists t o,
               callback_start monitor m w = (t, w) /\ o = [] /\
               apart_from notification t = true /\ m <> notification \/
               callback_start monitor m w = (Returned None, push_result (hd failure o) w) /\
               length o = 1 /\
               (m = notification /\ o = [failure] \/
                m <> notification /\ List.filter (about notification) o = []))
      as (t & o & Hstart).
    { unfold callback_start. rewrite Hcache.
      destruct (decide (m = notification)) as [->|Hne].
      - rewrite getPagerdutyServiceId_none by done. cbn [truthy].
        exists (Returned None), [failure]. right. split; [done|]. split; [done|].
        by left.
      - destruct (truthy (getPagerdutyServiceId cache (fragment_of m))) eqn:Hpd.
        + eexists _, []. left. split; [done|]. split; [done|]. split; [|done].
          cbn [apart_from]. rewrite bool_decide_false by done. cbn [negb andb].
          apply negb_true_iff, bool_decide_eq_false. intros Heq.
          apply getPagerdutyServiceId_truthy in Hpd as (service & Hin & Hs).
          rewrite list.Forall_forall in Hnone.
          apply (Hnone _ Hin). rewrite Hs.
          unfold webhook_name in Heq. by apply app_inv_head in Heq.
        + eexists (Returned None), [_]. right. split; [done|]. split; [done|].
          right. split; [done|]. cbn [List.filter]. unfold about at 1.
          cbn [o_old error_outcome]. rewrite bool_decide_false; [done|congruence]. }
    destruct Hstart as [(Hstart & -> & Ht & Hne)|(Hstart & Hlen & Ho)];
      rewrite Hstart in *; cbn [fst snd] in *.
    + destruct (IH w Hcache) as (Hall & Hcalls & rs & Hrs & Hf).
      destruct (spawn monitor ms w) as [ts w2]. cbn [fst snd forallb] in *.
      rewrite Ht, Hall. split; [done|]. split; [done|]. exists rs. split; [done|].
      cbn [List.filter]. by rewrite bool_decide_false.
    + destruct o as [|o1 [|? ?]]; try done. cbn [hd] in *.
      destruct (IH (push_result o1 w) Hcache) as (Hall & Hcalls & rs & Hrs & Hf).
      destruct (spawn monitor ms (push_result o1 w)) as [ts w2].
      cbn [fst snd forallb apart_from] in *.
      split; [done|]. split; [done|]. exists (o1 :: rs).
      split; [rewrite Hrs; cbn [results push_result]; by rewrite <- app_assoc|].
      destruct Ho as [[-> [= ->]]|[Hne Hno]].
      * cbn [List.filter]. unfold about at 1. cbn [o_old error_outcome].
        rewrite !bool_decide_true by done. cbn [length replicate]. by rewrite Hf.
      * cbn [List.filter] in *. rewrite (bool_decide_false (m = notification)) by done.
        destruct (about notification o1); [done|]. exact Hf.
Qed.

Lemma returned_patches_apart tasks :
  forallb (apart_from notification) tasks = true ->
  Forall (fun patch => patch.1 <> notification) (omap returned_patch tasks).
Proof.
  induction tasks as [|t ts IH]; csimpl; [done|].
  intros [Ht Hts]%andb_true_iff.
  destruct t as [n s pd rid|n s reply|[[n nw]|]|e]; cbn [returned_patch];
    try by apply IH.
  constructor; [|by apply IH]. cbn [apart_from fst] in *.
  by apply negb_true_iff, bool_decide_eq_false in Ht.
Qed.

(** The processing of a monitor with such a mention, for every remote side
    and every order of settlement. *)
Lemma processMonitor_unresolved sched w :
  pagerdutyServicesCache w = cache ->
  has_marker (monitor_message monitor) = false ->
  exists rs cs,
    results (processMonitor cfg remote sched monitor w) = results w ++ rs /\
    calls (processMonitor cfg remote sched monitor w) = calls w ++ cs /\
    List.filter (about notification) rs
    = replicate
        (length (List.filter (fun m => bool_decide (m = notification))
                   (match_all pagerduty_mention (monitor_message monitor))))
        failure /\
    forallb other_call cs = true /\
    Forall (fun c => is_monitor_write c = true ->
                     writes_without monitor notification c) cs.
Proof.
  intros Hcache Hmark. unfold processMonitor. rewrite Hmark.
  destruct (match_all pagerduty_mention (monitor_message monitor)) as [|n ns] eqn:Hall.
  { exists [no_mention_outcome monitor], []. by rewrite app_nil_r. }
  destruct (spawn_unresolved (n :: ns) w Hcache) as (Hap & Hc1 & rs1 & Hr1 & Hf1).
  pose proof (spawn_grows monitor (sent_by_callback cfg) (n :: ns) w) as Hg1.
  destruct (spawn monitor (n :: ns) w) as [tasks w1]. cbn [fst snd] in *.
  destruct (await_all_apart sched tasks w1 Hap)
    as (Hap' & [rs2 [Hr2 Hp2]] & [cs2 [Hc2 Hs2]]).
  pose proof (await_all_grows cfg remote monitor sched tasks w1)
    as (_ & _ & _ & _ & [cs2' [Hc2' Hs2']]).
  destruct (await_all cfg remote monitor sched tasks w1) as [tasks' w2].
  cbn [fst snd] in *.
  assert (cs2' = cs2) as -> by (rewrite Hc2 in Hc2'; by apply app_inv_head in Hc2').
  assert (List.filter (about notification) rs2 = []) as Hf2.
  { clear -Hp2. induction rs2 as [|o rs2 IH]; [done|]. cbn [forallb List.filter] in *.
    apply andb_true_iff in Hp2 as [Ho Hrs]. apply negb_true_iff in Ho.
    rewrite Ho. by apply IH. }
  assert (Forall (fun c => is_monitor_write c = true ->
                           writes_without monitor notification c) cs2) as Hw2.
  { apply list.Forall_forall. intros c Hc Hw. rewrite forallb_forall in Hs2'.
    apply list_elem_of_In, Hs2' in Hc. unfold sent_by_callback in Hc.
    apply andb_true_iff in Hc as [_ Hc]. by destruct c. }
  assert (results w2 = results w ++ rs1 ++ rs2) as Hr12
    by (by rewrite Hr2, Hr1, <- app_assoc).
  assert (calls w2 = calls w ++ cs2) as Hc12 by (by rewrite Hc2, Hc1).
  assert (List.filter (about notification) (rs1 ++ rs2)
          = replicate
              (length (List.filter (fun m => bool_decide (m = notification)) (n :: ns)))
              failure) as Hf12
    by (by rewrite List.filter_app, Hf1, Hf2, app_nil_r).
  destruct (existsb is_rejected tasks').
  { by exists (rs1 ++ rs2), cs2. }
  pose proof (returned_patches_apart tasks' Hap') as Hpatches.
  destruct (omap returned_patch tasks') as [|p ps]; [by exists (rs1 ++ rs2), cs2|].
  set (patches := p :: ps) in *.
  rewrite updateDatadogMonitor_results, updateDatadogMonitor_calls, Hr12, Hc12.
  destruct (monitor_by_id remote (calls w ++ cs2) (monitor_id monitor))
    as [[fetched|]|e] eqn:Hget.
  - eexists (rs1 ++ rs2 ++ [_]), (cs2 ++ GetMonitor (monitor_id monitor) :: _).
    split; [by rewrite <- !app_assoc|]. split; [by rewrite <- !app_assoc|].
    split; [|split].
    + rewrite app_assoc, List.filter_app, Hf12. cbn [List.filter].
      unfold about at 1. cbn [o_old rewrite_outcome].
      rewrite (bool_decide_false (None = Some notification)) by done.
      by rewrite app_nil_r.
    + rewrite forallb_app, Hs2. cbn [forallb andb posts_for negb].
      destruct (dry_run cfg); [done|]. unfold write_call.
      by destruct (is_synthetics _).
    + apply Forall_app. split; [done|]. constructor; [done|].
      destruct (dry_run cfg); [done|]. constructor; [|done].
      intros _. by exists fetched, patches.
  - exists (rs1 ++ rs2), (cs2 ++ [GetMonitor (monitor_id monitor)]).
    rewrite app_nil_r. split; [done|]. split; [by rewrite <- app_assoc|].
    split; [done|]. split; [by rewrite forallb_app, Hs2|].
    apply Forall_app. split; [done|]. by constructor.
  - exists (rs1 ++ rs2), (cs2 ++ [GetMonitor (monitor_id monitor)]).
    rewrite app_nil_r. split; [done|]. split; [by rewrite <- app_assoc|].
    split; [done|]. split; [by rewrite forallb_app, Hs2|].
    apply Forall_app. split; [done|]. by constructor.
Qed.

End Unresolved.

Lemma mention_patch_old w notification patch :
  mention_patch w notification = Some patch -> patch.1 = notification.
Proof.
  unfold mention_patch. destruct (_ && _); [|done]. by intros [= <-].
Qed.




(** * Further properties of the script *)

(** ** The two lookups *)

Lemma find_first_hit {A} (p : A -> bool) (l : list A) :
  match find p l with
  | Some x =>
      exists before after,
        l = before ++ x :: after /\ p x = true /\
        forallb (fun y => negb (p y)) before = true
  | None => forallb (fun y => negb (p y)) l = true
  end.
Proof.
  induction l as [|y l IH]; simpl; [done|].
  destruct (p y) eqn:Hy.
  - by exists [], l.
  - destruct (find p l) as [x|].
    + destruct IH as (before & after & -> & Hx & Hb).
      exists (y :: before), after. simpl. by rewrite Hy.
    + done.
Qed.

(** X1.  [getPagerdutyServiceId] returns the id of the first cached service
    whose normalized name is the normalized name asked for, and [null] exactly
    when no cached service has that normalized name. *)
Theorem getPagerdutyServiceId_first_match (cache : list PagerdutyService)
    (serviceName : str) :
  match getPagerdutyServiceId cache serviceName with
  | Some id =>
      exists before service after,
        cache = before ++ service :: after /\ id = pd_id service /\
        normalizedServiceName (pd_name service) = normalizedServiceName serviceName /\
        Forall (fun s => normalizedServiceName (pd_name s)
                         <> normalizedServiceName serviceName) before
  | None =>
      Forall (fun s => normalizedServiceName (pd_name s)
                       <> normalizedServiceName serviceName) cache
  end.
Proof.
  unfold getPagerdutyServiceId.
  pose proof (find_first_hit
                (fun s => bool_decide (normalizedServiceName (pd_name s)
                                       = normalizedServiceName serviceName)) cache) as H.
  assert (forall l,
             forallb (fun y => negb (bool_decide (normalizedServiceName (pd_name y)
                                                  = normalizedServiceName serviceName))) l
             = true ->
             Forall (fun s => normalizedServiceName (pd_name s)
                              <> normalizedServiceName serviceName) l) as Hall.
  { intros l Hl. apply Forall_forall. intros s Hs Heq.
    rewrite forallb_forall in Hl. apply list_elem_of_In, Hl in Hs.
    by rewrite bool_decide_eq_true_2 in Hs. }
  destruct (find _ cache) as [service|].
  - destruct H as (before & after & -> & Hs & Hb).
    exists before, service, after. apply bool_decide_eq_true in Hs. auto.
  - auto.
Qed.

(** X2.  [fetchRootlyServiceId] returns the id of the first cached Rootly
    service linked to the PagerDuty id, and [null] exactly when none is
    linked to it. *)
Theorem fetchRootlyServiceId_first_match (cache : list RootlyService)
    (pagerdutyId : str) :
  match fetchRootlyServiceId cache pagerdutyId with
  | Some id =>
      exists before service after,
        cache = before ++ service :: after /\ id = rootly_id service /\
        rootly_pagerduty_id service = Some pagerdutyId /\
        Forall (fun s => rootly_pagerduty_id s <> Some pagerdutyId) before
  | None => Forall (fun s => rootly_pagerduty_id s <> Some pagerdutyId) cache
  end.
Proof.
  unfold fetchRootlyServiceId.
  pose proof (find_first_hit
                (fun s => bool_decide (rootly_pagerduty_id s = Some pagerdutyId))
                cache) as H.
  assert (forall l,
             forallb (fun y => negb (bool_decide (rootly_pagerduty_id y
                                                  = Some pagerdutyId))) l = true ->
             Forall (fun s => rootly_pagerduty_id s <> Some pagerdutyId) l) as Hall.
  { intros l Hl. apply Forall_forall. intros s Hs Heq.
    rewrite forallb_forall in Hl. apply list_elem_of_In, Hl in Hs.
    by rewrite bool_decide_eq_true_2 in Hs. }
  destruct (find _ cache) as [service|].
  - destruct H as (before & after & -> & Hs & Hb).
    exists before, service, after. apply bool_decide_eq_true in Hs. auto.
  - auto.
Qed.

(** ** More on the normalizer *)

Lemma lower_char_twice c : lower_char (lower_char c) = lower_char c.
Proof. destruct c as [[] [] [] [] [] [] [] []]; by vm_compute. Qed.

Lemma replace_runs_lower in_run s :
  toLowerCase (replace_runs in_name_class [chr_underscore] in_run (toLowerCase s))
  = toLowerCase (replace_runs in_name_class [chr_underscore] in_run s).
Proof.
  revert in_run. induction s as [|c s IH]; intros in_run; simpl; [done|].
  rewrite lower_char_in_class. destruct (in_name_class c); simpl.
  - rewrite lower_char_twice. f_equal. apply IH.
  - destruct in_run; simpl; [apply IH|]. f_equal. apply IH.
Qed.

Lemma same_letter_lower x y : same_letter x y -> lower_char x = lower_char y.
Proof.
  assert (forall c, is_upper c = true ->
                    lower_char (ascii_of_N (code c + 32)) = lower_char c) as Hup.
  { intros c Hc. destruct c as [[] [] [] [] [] [] [] []]; by vm_compute in Hc |- *. }
  intros [->|[[Hx ->]|[Hy ->]]]; [done| |]; by rewrite Hup.
Qed.

(** X3.  Matching ignores the case of the letters [A-Z]: two names that
    agree character by character except for the case of letters [A-Z] have
    the same normalized name, so they are looked up as the same PagerDuty
    service. *)
Theorem matching_ignores_case (cache : list PagerdutyService) (a b : str) :
  Forall2 same_letter a b ->
  normalizedServiceName a = normalizedServiceName b /\
  getPagerdutyServiceId cache a = getPagerdutyServiceId cache b.
Proof.
  intros Hab.
  assert (map lower_char a = map lower_char b) as Hmap.
  { induction Hab as [|x y a b Hxy _ IH]; [done|]. cbn [map].
    by rewrite (same_letter_lower x y Hxy), IH. }
  assert (normalizedServiceName a = normalizedServiceName b) as Hn.
  { unfold normalizedServiceName.
    rewrite <- (replace_runs_lower false a), <- (replace_runs_lower false b).
    unfold toLowerCase at 2 4. by rewrite Hmap. }
  split; [done|]. unfold getPagerdutyServiceId. by rewrite Hn.
Qed.

Lemma matching_ignores_case_witness :
  getPagerdutyServiceId (pagerdutyServicesCache Example.directory) (lit "CHECKOUT")
  = getPagerdutyServiceId (pagerdutyServicesCache Example.directory) (lit "checkout").
Proof.
  apply (matching_ignores_case (pagerdutyServicesCache Example.directory)
           (lit "CHECKOUT") (lit "checkout")).
  repeat (constructor; [right; left; by vm_compute|]). constructor.
Defined.

Lemma replace_runs_length in_run s :
  length (replace_runs in_name_class [chr_underscore] in_run s) <= length s.
Proof.
  revert in_run. induction s as [|c s IH]; intros in_run; simpl; [done|].
  destruct (in_name_class c); simpl.
  - specialize (IH false). lia.
  - specialize (IH true). destruct in_run; simpl; lia.
Qed.

(** X4.  A normalized name is made of the characters [a-z], [0-9], [_] and
    [-] only, so it holds neither white space nor a dollar sign, and it is
    no longer than the name it comes from. *)
Theorem normalizedServiceName_alphabet (s : str) :
  forallb is_normal_char (normalizedServiceName s) = true /\
  length (normalizedServiceName s) <= length s /\
  forallb non_space (normalizedServiceName s) = true /\
  plain (normalizedServiceName s) = true.
Proof.
  split; [apply normalizedServiceName_normal|]. split.
  - unfold normalizedServiceName.
    pose proof (replace_runs_length false s) as Hlen.
    unfold toLowerCase.
    destruct (map lower_char _) as [|c r] eqn:Hm; simpl; [lia|].
    apply (f_equal length) in Hm. rewrite length_map in Hm. simpl in Hm.
    destruct (is_sep c); simpl; lia.
  - split; [|apply normal_plain, normalizedServiceName_normal].
    pose proof (normalizedServiceName_normal s) as Hn.
    induction (normalizedServiceName s) as [|c r IH]; simpl in *; [done|].
    apply andb_true_iff in Hn as [Hc Hr]. rewrite IH by done.
    destruct c as [[] [] [] [] [] [] [] []]; by vm_compute in Hc |- *.
Qed.

(** ** The mentions of a message *)

Lemma occurs_middle pat x y : occurs pat (x ++ pat ++ y) = true.
Proof.
  unfold occurs. induction x as [|c x IH]; cbn [app].
  - by rewrite find_first_here.
  - rewrite find_first_cons. destruct (starts_with pat _); [done|].
    by destruct (find_first pat (x ++ pat ++ y)) as [[? ?]|].
Qed.

Lemma occurs_later pat x y : occurs pat y = true -> occurs pat (x ++ y) = true.
Proof.
  unfold occurs. intros Hy. induction x as [|c x IH]; cbn [app]; [done|].
  rewrite find_first_cons. destruct (starts_with pat _); [done|].
  by destruct (find_first pat (x ++ y)) as [[? ?]|].
Qed.

Lemma match_all_from_shaped prefix fuel : forall s,
  Forall (fun m => mention_shaped prefix m /\ occurs m s = true)
         (match_all_from fuel prefix s).
Proof.
  induction fuel as [|fuel IH]; intros s; cbn [match_all_from]; [done|].
  destruct (regex_exec prefix s) as [[[b m] r]|] eqn:He; [|done].
  destruct (regex_exec_some _ _ _ _ _ He) as (-> & Hat & _).
  destruct (match_at_some _ _ _ _ Hat) as (c & run & Hm & _ & Hrun & _).
  constructor.
  - split; [by exists c, run|]. apply occurs_middle.
  - eapply Forall_impl; [apply IH|]. intros m' [Hs Ho]. split; [done|].
    rewrite app_assoc. by apply occurs_later.
Qed.

(** X5.  Every notification that [processMonitor] extracts from a message
    is the prefix [@pagerduty-] followed by at least one character and holds
    no white space, and it occurs in the message; nothing is extracted
    exactly when no place of the message begins with [@pagerduty-] followed
    by a character that is not white space. *)
Theorem extracted_mentions (message : str) :
  Forall (fun m => mention_shaped pagerduty_mention m /\
                   forallb non_space m = true /\
                   occurs m message = true)
         (match_all pagerduty_mention message) /\
  (match_all pagerduty_mention message = [] <->
   forall before rest,
     message = before ++ rest -> mention_start pagerduty_mention rest = false).
Proof.
  split.
  - eapply Forall_impl; [apply match_all_from_shaped|].
    intros m [Hs Ho]. split; [done|]. split; [|done].
    destruct Hs as (c & run & -> & Hrun). by apply mention_non_space.
  - rewrite match_all_unfold, <- regex_exec_none.
    by destruct (regex_exec pagerduty_mention message) as [[[? ?] ?]|].
Qed.

(** ** The fragment of a mention, in general *)

Lemma split_scan_skip sep cur y : forall a,
  split_scan sep (length y) cur (y ++ a) = split_scan sep 0 cur a.
Proof. induction y as [|c y IH]; intros a; simpl; [by destruct a|apply IH]. Qed.

Lemma split_scan_first sep cur s before after :
  sep <> [] -> find_first sep s = Some (before, after) ->
  exists rest, split_scan sep 0 cur s = (rev cur ++ before) :: rest.
Proof.
  intros Hsep. revert cur before.
  induction s as [|c s IH]; intros cur before.
  - rewrite find_first_unfold. by destruct sep.
  - rewrite find_first_cons. cbn [split_scan].
    destruct (starts_with sep (c :: s)) eqn:Hs.
    + intros [= <- <-]. eexists. by rewrite app_nil_r.
    + destruct (find_first sep s) as [[b a]|] eqn:Hf; [|done].
      intros [= <- <-]. destruct (IH (c :: cur) b eq_refl) as [rest ->].
      exists rest. simpl. by rewrite <- app_assoc.
Qed.

(** X6.  The fragment of a mention is what follows [@pagerduty-] up to the
    next [@pagerduty-], and all of it when there is none. *)
Theorem fragment_of_a_mention (x : str) :
  match find_first pagerduty_mention x with
  | Some (before, _) => fragment_of (pagerduty_mention ++ x) = before
  | None => fragment_of (pagerduty_mention ++ x) = x
  end.
Proof.
  unfold fragment_of. rewrite split_mention. unfold split.
  destruct (find_first pagerduty_mention x) as [[before after]|] eqn:Hf.
  - destruct (split_scan_first pagerduty_mention [] x before after) as [rest ->];
      done.
  - by rewrite split_scan_no_separator.
Qed.

(** ** A monitor without mentions *)

(** X7.  A monitor whose message has no marker and no place that begins a
    mention gets one outcome, which says that no notification was found, and
    nothing is sent. *)
Theorem monitor_without_mentions (cfg : Config) (remote : Remote)
    (sched : list nat) (monitor : Monitor) (w : World) :
  has_marker (monitor_message monitor) = false ->
  (forall before rest,
      monitor_message monitor = before ++ rest ->
      mention_start pagerduty_mention rest = false) ->
  processMonitor cfg remote sched monitor w
  = push_result (no_mention_outcome monitor) w /\
  calls (processMonitor cfg remote sched monitor w) = calls w /\
  is_error (no_mention_outcome monitor) = true.
Proof.
  intros Hmark Hnone. apply regex_exec_none in Hnone.
  unfold processMonitor. rewrite Hmark, match_all_unfold, Hnone. done.
Qed.

Lemma monitor_without_mentions_witness :
  processMonitor Example.normal (Example.remote (Ok None) (Ok tt)) []
    (Example.monitor "disk is full") Example.directory
  = push_result (no_mention_outcome (Example.monitor "disk is full"))
      Example.directory.
Proof.
  apply (monitor_without_mentions Example.normal (Example.remote (Ok None) (Ok tt))
           [] (Example.monitor "disk is full") Example.directory).
  - reflexivity.
  - apply regex_exec_none. reflexivity.
Defined.

(** ** What processing a monitor may change *)

(** X8.  Whatever the remote side does and in whatever order the promises
    settle, [processMonitor] leaves the two caches and the report as they
    are, only appends to [results], and sends nothing but GETs of the
    monitor it was given and, outside a dry run, webhook POSTs, PUTs of that
    monitor and PATCHes of a synthetics test: no listing is asked for again
    and no monitor with another id is read or put. *)
Theorem processMonitor_footprint (cfg : Config) (remote : Remote)
    (sched : list nat) (monitor : Monitor) (w : World) :
  let w' := processMonitor cfg remote sched monitor w in
  pagerdutyServicesCache w' = pagerdutyServicesCache w /\
  rootlyServicesCache w' = rootlyServicesCache w /\
  report w' = report w /\
  (exists rs, results w' = results w ++ rs) /\
  (exists cs,
      calls w' = calls w ++ cs /\
      Forall (fun c =>
                c = GetMonitor (monitor_id monitor) \/
                (dry_run cfg = false /\
                 (is_post c = true \/
                  (exists written, c = PutMonitor (monitor_id monitor) written) \/
                  (exists checkId message, c = PatchSynthetics checkId message))))
             cs).
Proof.
  intros w'. destruct (processMonitor_grows_for cfg remote sched monitor w)
    as (H1 & H2 & H3 & Hrs & [cs [Hcs Hsent]]).
  repeat split; try done. exists cs. split; [done|].
  apply list.Forall_forall. intros c Hc. rewrite forallb_forall in Hsent.
  apply list_elem_of_In, Hsent in Hc. unfold sent_for in Hc.
  destruct c as [offset|page|page|monitorId|name serviceId secret
                 |monitorId written|checkId message]; try done.
  - left. by apply bool_decide_eq_true in Hc as ->.
  - right. apply negb_true_iff in Hc. split; [done|]. by left.
  - right. apply andb_true_iff in Hc as [Hd Hc]. apply negb_true_iff in Hd.
    apply bool_decide_eq_true in Hc as ->. split; [done|]. right. left. by eexists.
  - right. apply negb_true_iff in Hc. split; [done|]. right. right. by eexists _, _.
Qed.

(** ** Dry runs *)

(** X9.  With [DRY_RUN] set to a non-empty value the whole run, from the
    check of the environment to the report, sends no webhook POST, no PUT of
    a monitor and no PATCH of a synthetics test, whatever the remote side
    answers. *)
Theorem dry_run_never_writes (env : Env) (remote : Remote) (fuel : nat)
    (scheds : list (list nat)) :
  truthy_string (env !! "DRY_RUN"%string) = true ->
  List.filter is_write (calls (world_of (program env remote fuel scheds))) = [].
Proof. apply dry_run_program_sends_no_write. Qed.

Lemma dry_run_never_writes_witness :
  List.filter is_write
    (calls (world_of
              (program (<["DRY_RUN"%string := "1"%string]> Example.credentials_and_secret)
                       Example.listing 5 []))) = [].
Proof.
  apply (dry_run_never_writes
           (<["DRY_RUN"%string := "1"%string]> Example.credentials_and_secret)
           Example.listing 5 []).
  reflexivity.
Defined.

(** X10.  When no webhook call throws and the monitor reads back the same
    whatever was sent before, a dry run and a normal run record the same
    outcomes for a monitor, up to the order of the outcomes of its
    mentions. *)
Theorem dry_run_records_what_a_normal_run_records (dry normal : Config)
    (remote : Remote) (sched sched' : list nat) (monitor : Monitor) (w : World) :
  dry_run dry = true ->
  never_raises remote ->
  (forall h h', monitor_by_id remote h (monitor_id monitor)
                = monitor_by_id remote h' (monitor_id monitor)) ->
  results (processMonitor dry remote sched monitor w)
  ≡ₚ results (processMonitor normal remote sched' monitor w).
Proof. apply dry_run_same_outcomes. Qed.

Lemma dry_run_records_what_a_normal_run_records_witness :
  results (processMonitor Example.dry
             (Example.remote
                (Ok (Some (Example.monitor "alert @pagerduty-checkout is firing")))
                (Ok tt))
             [] (Example.monitor "alert @pagerduty-checkout is firing")
             Example.directory)
  ≡ₚ results (processMonitor Example.normal
                (Example.remote
                   (Ok (Some (Example.monitor "alert @pagerduty-checkout is firing")))
                   (Ok tt))
                [] (Example.monitor "alert @pagerduty-checkout is firing")
                Example.directory).
Proof.
  apply (dry_run_records_what_a_normal_run_records Example.dry Example.normal).
  - reflexivity.
  - by intros h name serviceId.
  - by intros h h'.
Defined.

(** ** The webhook call, case by case *)

(** X11.  In a dry run [createDatadogWebhook] sends nothing and returns.
    Otherwise it sends one POST for the webhook [rootly-<normalized name>]
    and returns normally when the webhook is created or the error carries a
    response with [errors] ("Webhook already exists" or any other); it
    throws a [TypeError] exactly when the error has no response or the
    response has no [errors]. *)
Theorem createDatadogWebhook_cases (cfg : Config) (remote : Remote)
    (serviceName serviceId : str) (w : World) :
  (dry_run cfg = true ->
   createDatadogWebhook cfg remote serviceName serviceId w = (Ret tt, w)) /\
  (dry_run cfg = false ->
   let name := lit "rootly-" ++ normalizedServiceName serviceName in
   createDatadogWebhook cfg remote serviceName serviceId w
   = (match webhook_created remote (calls w) name serviceId with
      | Failed NoResponse => Throw TypeError
      | Failed (ErrorResponse None) => Throw TypeError
      | _ => Ret tt
      end,
      push_call (PostWebhook name serviceId (ROOTLY_ALERT_SOURCE_SECRET cfg)) w)).
Proof.
  unfold createDatadogWebhook, createDatadogWebhook_send, webhook_name.
  split; intros Hdry; rewrite Hdry; [done|]. cbv zeta. f_equal.
  rewrite createDatadogWebhook_settle_cases.
  by destruct (webhook_created _ _ _ _) as [[]|[|[|]]].
Qed.

Lemma createDatadogWebhook_cases_witness :
  createDatadogWebhook Example.dry (Example.remote (Ok None) (Failed NoResponse))
    (lit "Checkout") (lit "R1") Example.directory
  = (Ret tt, Example.directory).
Proof.
  apply (createDatadogWebhook_cases Example.dry
           (Example.remote (Ok None) (Failed NoResponse))
           (lit "Checkout") (lit "R1") Example.directory).
  reflexivity.
Defined.

(** ** Rewriting, case by case *)

(** X12.  When the monitor is read back, [updateDatadogMonitor] records the
    message before and after the patches and only then, outside a dry run,
    sends one write: a PATCH of the synthetics test when the type is
    [synthetics alert] and the check id is set, a PUT of the monitor
    otherwise.  The record stays when the write fails; the failure is
    swallowed unless the error has no response. *)
Theorem updateDatadogMonitor_when_found (cfg : Config) (remote : Remote)
    (monitorId : str) (patches : list (str * str)) (w : World) (fetched : Monitor) :
  monitor_by_id remote (calls w) monitorId = Ok (Some fetched) ->
  let rewritten :=
    set_message fetched (apply_patches (monitor_message fetched) patches) in
  let recorded := push_result (rewrite_outcome rewritten (monitor_message fetched))
                              (push_call (GetMonitor monitorId) w) in
  let write :=
    if bool_decide (monitor_type fetched = lit "synthetics alert")
       && truthy (synthetics_check_id fetched)
    then PatchSynthetics (default [] (synthetics_check_id fetched))
                         (monitor_message rewritten)
    else PutMonitor monitorId rewritten in
  let answer :=
    if bool_decide (monitor_type fetched = lit "synthetics alert")
       && truthy (synthetics_check_id fetched)
    then synthetics_patched remote (calls recorded)
           (default [] (synthetics_check_id fetched)) (monitor_message rewritten)
    else monitor_put remote (calls recorded) monitorId rewritten in
  updateDatadogMonitor cfg remote monitorId patches w
  = if dry_run cfg then (Ret tt, recorded)
    else (match answer with
          | Failed NoResponse => Throw TypeError
          | _ => Ret tt
          end, push_call write recorded).
Proof.
  intros Hget rewritten recorded write answer.
  unfold updateDatadogMonitor, try_catch, bind, request. rewrite Hget.
  unfold modify. cbn [fst snd]. fold rewritten. fold recorded.
  destruct (dry_run cfg); [done|].
  unfold write, answer, is_synthetics. simpl monitor_type. simpl synthetics_check_id.
  destruct (bool_decide _ && truthy _).
  - by destruct (synthetics_patched _ _ _ _) as [[]|[|errors]].
  - by destruct (monitor_put _ _ _ _) as [[]|[|errors]].
Qed.

Lemma updateDatadogMonitor_when_found_witness :
  updateDatadogMonitor Example.dry
    (Example.remote (Ok (Some (Example.monitor "alert @pagerduty-checkout")))
       (Ok tt))
    (lit "42") [(lit "@pagerduty-checkout", lit "@webhook-rootly-checkout")]
    Example.directory
  = (Ret tt,
     push_result
       (rewrite_outcome
          (Example.monitor "alert @pagerduty-checkout @webhook-rootly-checkout")
          (lit "alert @pagerduty-checkout"))
       (push_call (GetMonitor (lit "42")) Example.directory)).
Proof.
  apply (updateDatadogMonitor_when_found Example.dry
           (Example.remote (Ok (Some (Example.monitor "alert @pagerduty-checkout")))
              (Ok tt))
           (lit "42") [(lit "@pagerduty-checkout", lit "@webhook-rootly-checkout")]
           Example.directory (Example.monitor "alert @pagerduty-checkout")).
  reflexivity.
Defined.

(** X13.  When the monitor cannot be read back, because the answer holds no
    monitor or the GET fails, [updateDatadogMonitor] records nothing and
    writes nothing; it returns normally, except that it throws a [TypeError]
    when the error of the GET has no response. *)
Theorem updateDatadogMonitor_when_missing (cfg : Config) (remote : Remote)
    (monitorId : str) (patches : list (str * str)) (w : World) :
  (forall fetched, monitor_by_id remote (calls w) monitorId <> Ok (Some fetched)) ->
  updateDatadogMonitor cfg remote monitorId patches w
  = (match monitor_by_id remote (calls w) monitorId with
     | Failed NoResponse => Throw TypeError
     | _ => Ret tt
     end, push_call (GetMonitor monitorId) w).
Proof.
  intros Hmiss. unfold updateDatadogMonitor, try_catch, bind, request.
  destruct (monitor_by_id remote (calls w) monitorId) as [[fetched|]|[|errors]];
    try done. by destruct (Hmiss fetched).
Qed.

Lemma updateDatadogMonitor_when_missing_witness :
  updateDatadogMonitor Example.normal
    (Example.remote (Failed NoResponse) (Ok tt)) (lit "42")
    [(lit "@pagerduty-checkout", lit "@webhook-rootly-checkout")]
    Example.directory
  = (Throw TypeError, push_call (GetMonitor (lit "42")) Example.directory).
Proof.
  apply (updateDatadogMonitor_when_missing Example.normal
           (Example.remote (Failed NoResponse) (Ok tt)) (lit "42")
           [(lit "@pagerduty-checkout", lit "@webhook-rootly-checkout")]
           Example.directory).
  intros fetched. discriminate.
Defined.

(** ** The order in which the promises settle *)

(** X14.  When no webhook call throws and the monitor reads back the same
    whatever was sent before, the order in which the callbacks of
    [Promise.all] settle changes neither the outcomes recorded for a
    monitor, their order apart, nor the write of the monitor. *)
Theorem settle_order_is_immaterial (cfg : Config) (remote : Remote)
    (sched sched' : list nat) (monitor : Monitor) (w : World) :
  calm cfg remote ->
  (forall h h', monitor_by_id remote h (monitor_id monitor)
                = monitor_by_id remote h' (monitor_id monitor)) ->
  results (processMonitor cfg remote sched monitor w)
  ≡ₚ results (processMonitor cfg remote sched' monitor w) /\
  List.filter is_monitor_write (calls (processMonitor cfg remote sched monitor w))
  = List.filter is_monitor_write (calls (processMonitor cfg remote sched' monitor w)).
Proof.
  intros Hcalm Hget.
  destruct (has_marker (monitor_message monitor)) eqn:Hmark.
  { unfold processMonitor. by rewrite Hmark. }
  destruct (match_all pagerduty_mention (monitor_message monitor)) as [|n ns] eqn:Hall.
  { unfold processMonitor. by rewrite Hmark, Hall. }
  destruct (processMonitor_calm cfg remote monitor Hcalm sched w n ns Hmark Hall)
    as (w1 & Hg1 & Hp1 & ->).
  destruct (processMonitor_calm cfg remote monitor Hcalm sched' w n ns Hmark Hall)
    as (w2 & Hg2 & Hp2 & ->).
  destruct Hg1 as (_ & _ & _ & _ & [cs1 [Hc1 Hs1]]).
  destruct Hg2 as (_ & _ & _ & _ & [cs2 [Hc2 Hs2]]).
  assert (List.filter is_monitor_write (calls w1)
          = List.filter is_monitor_write (calls w2)) as Hw.
  { rewrite Hc1, Hc2, !List.filter_app.
    rewrite (forallb_post_filter is_monitor_write cfg cs1) by (done || by intros []).
    by rewrite (forallb_post_filter is_monitor_write cfg cs2)
      by (done || by intros []). }
  destruct (omap (mention_patch w) (n :: ns)) as [|p ps].
  { split; [by rewrite Hp1, Hp2|done]. }
  split.
  - rewrite !updateDatadogMonitor_results, (Hget (calls w1) (calls w2)).
    by rewrite Hp1, Hp2.
  - rewrite !updateDatadogMonitor_calls, (Hget (calls w1) (calls w2)).
    rewrite !List.filter_app. by rewrite Hw.
Qed.

Lemma settle_order_is_immaterial_witness :
  List.filter is_monitor_write
    (calls (processMonitor Example.normal
              (Example.remote
                 (Ok (Some (Example.monitor
                              "alert @pagerduty-checkout and @pagerduty-payments now")))
                 (Ok tt))
              [0; 1; 0; 1]
              (Example.monitor "alert @pagerduty-checkout and @pagerduty-payments now")
              Example.directory))
  = List.filter is_monitor_write
      (calls (processMonitor Example.normal
                (Example.remote
                   (Ok (Some (Example.monitor
                                "alert @pagerduty-checkout and @pagerduty-payments now")))
                   (Ok tt))
                [0; 1; 1; 0]
                (Example.monitor "alert @pagerduty-checkout and @pagerduty-payments now")
                Example.directory)).
Proof.
  apply (settle_order_is_immaterial Example.normal
           (Example.remote
              (Ok (Some (Example.monitor
                           "alert @pagerduty-checkout and @pagerduty-payments now")))
              (Ok tt))
           [0; 1; 0; 1] [0; 1; 1; 0]).
  - right. by intros h name serviceId.
  - by intros h h'.
Defined.

(** ** The whole run *)

(** X15.  When no webhook call throws and each of the three listings ends,
    [main] returns normally after it has listed the Rootly services, then
    the PagerDuty services, then the monitors, and processed the monitors in
    the order listed.  At the end the two caches hold the services listed,
    every request after the listings belongs to the processing of a listed
    monitor, every monitor listed has at least one outcome, no callback is
    left behind, and the report is written from all the outcomes. *)
Theorem main_runs_to_the_report (cfg : Config) (remote : Remote) (fuel : nat)
    (scheds : list (list nat)) (w : World)
    (r_pages : list (list RootlyService)) (r_stop : Reply (list RootlyService))
    (pd_pages : list (list PagerdutyService)) (pd_stop : Reply (list PagerdutyService))
    (m_pages : list (list Monitor)) (m_stop : Reply (list Monitor)) :
  calm cfg remote ->
  serves (rootly_page remote) 1 1 r_pages r_stop ->
  ends_pagination r_stop = true -> length r_pages < fuel ->
  serves (pagerduty_page remote) 0 25 pd_pages pd_stop ->
  ends_pagination pd_stop = true -> length pd_pages < fuel ->
  serves (monitors_page remote) 0 1 m_pages m_stop ->
  ends_pagination m_stop = true -> length m_pages < fuel ->
  let listing :=
    map GetRootlyServices (page_params 1 1 (S (length r_pages)))
    ++ map GetPagerdutyServices (page_params 0 25 (S (length pd_pages)))
    ++ map GetMonitors (page_params 0 1 (S (length m_pages))) in
  let listed :=
    push_calls (map GetMonitors (page_params 0 1 (S (length m_pages))))
      (set_pagerdutyServicesCache (concat pd_pages)
         (push_calls (map GetPagerdutyServices
                          (page_params 0 25 (S (length pd_pages))))
            (set_rootlyServicesCache (concat r_pages)
               (push_calls (map GetRootlyServices
                                (page_params 1 1 (S (length r_pages)))) w)))) in
  let final := (main cfg remote fuel scheds w).2 in
  (main cfg remote fuel scheds w).1 = Ret tt /\
  final = write_report (process_monitors cfg remote scheds (concat m_pages) listed) /\
  rootlyServicesCache final = concat r_pages /\
  pagerdutyServicesCache final = concat pd_pages /\
  (exists cs,
      calls final = calls w ++ listing ++ cs /\
      Forall (fun c => exists monitor,
                  monitor ∈ concat m_pages /\ sent_for cfg monitor c = true) cs) /\
  length (results w) + length (concat m_pages) <= length (results final) /\
  detached final = detached w /\
  report final = Some (results final).
Proof.
  intros Hcalm Hr Hrs Hrf Hpd Hpds Hpdf Hm Hms Hmf listing listed final.
  set (processed := process_monitors cfg remote scheds (concat m_pages) listed).
  assert (main cfg remote fuel scheds w = (Ret tt, write_report processed)) as Hmain.
  { unfold main, fetchAndCacheRootlyServices,
      fetchAndCachePagerdutyServices, fetchDatadogMonitors.
    unfold try_catch, bind, modify, ret.
    rewrite (paginate_serves _ _ _ _ r_pages Hrs) by done.
    rewrite (paginate_serves _ _ _ _ pd_pages Hpds) by done.
    by rewrite (paginate_serves _ _ _ _ m_pages Hms) by done. }
  unfold final. rewrite Hmain. cbn [fst snd].
  destruct (process_monitors_grows_for cfg remote (concat m_pages) scheds listed)
    as (Hk1 & Hk2 & _ & _ & [cs [Hcs Hsent]]). fold processed in Hk1, Hk2, Hcs.
  pose proof (process_monitors_calm_reports cfg remote (concat m_pages) scheds listed
                Hcalm) as Hlen. fold processed in Hlen.
  pose proof (process_monitors_calm_detached cfg remote scheds (concat m_pages) listed
                Hcalm) as Hdet. fold processed in Hdet.
  split; [done|]. split; [done|].
  split; [cbn [rootlyServicesCache write_report]; by rewrite Hk2|].
  split; [cbn [pagerdutyServicesCache write_report]; by rewrite Hk1|].
  split; [|split; [exact Hlen|split; [exact Hdet|done]]].
  exists cs. split.
  - cbn [calls write_report]. rewrite Hcs. unfold listed, listing.
    cbn [calls push_calls set_pagerdutyServicesCache set_rootlyServicesCache].
    by rewrite <- !app_assoc.
  - apply list.Forall_forall. intros c Hc. rewrite forallb_forall in Hsent.
    apply list_elem_of_In, Hsent, existsb_exists in Hc as (monitor & Hin & Hc).
    exists monitor. split; [by apply list_elem_of_In|done].
Qed.

Lemma main_runs_to_the_report_witness :
  (main Example.normal Example.listing 5 [] initial_world).1 = Ret tt.
Proof.
  pose proof (main_runs_to_the_report Example.normal Example.listing 5 []
                initial_world
                [ [ {| rootly_id := lit "R1"; rootly_pagerduty_id := Some (lit "P1") |} ] ]
                (Ok [])
                [ [ {| pd_id := lit "P1"; pd_name := lit "Checkout" |} ];
                  [ {| pd_id := lit "P2"; pd_name := lit "Payments" |} ] ]
                (Failed NoResponse)
                [ [ Example.monitor "alert @pagerduty-checkout is firing" ] ]
                (Ok [])) as H.
  cbv zeta in H. destruct H as [H _].
  - right. by intros h name serviceId.
  - simpl. repeat split; done.
  - done.
  - simpl. lia.
  - simpl. repeat split; done.
  - done.
  - simpl. lia.
  - simpl. repeat split; done.
  - done.
  - simpl. lia.
  - exact H.
Defined.

(** ** From one run to the next *)

Lemma normal_char_not_space c : is_normal_char c = true -> is_space c = false.
Proof. intros Hc. destruct c as [[] [] [] [] [] [] [] []]; by vm_compute in Hc |- *. Qed.

(** Whatever precedes a space in a replacement text, the part after the space
    is substituted on its own. *)
Lemma getSubstitution_after_space matched before after y : forall n x,
  length x <= n ->
  exists z,
    getSubstitution matched before after (x ++ " "%char :: y)
    = z ++ " "%char :: getSubstitution matched before after y.
Proof.
  induction n as [|n IH]; intros x Hlen.
  - destruct x; [|simpl in Hlen; lia]. by exists [].
  - destruct x as [|c x]; [by exists []|]. simpl in Hlen.
    cbn [app getSubstitution].
    destruct (bool_decide (c = chr_dollar)).
    + destruct x as [|d x]; cbn [app].
      * exists [c]. by rewrite bool_decide_false by done.
      * simpl in Hlen.
        destruct (IH x ltac:(lia)) as [z Hz].
        destruct (IH (d :: x) ltac:(simpl; lia)) as [z' Hz'].
        destruct (bool_decide (d = "$"%char));
          [exists (chr_dollar :: z); by rewrite Hz|].
        destruct (bool_decide (d = "&"%char));
          [exists (matched ++ z); by rewrite Hz, <- app_assoc|].
        destruct (bool_decide (d = "`"%char));
          [exists (before ++ z); by rewrite Hz, <- app_assoc|].
        destruct (bool_decide (d = "'"%char));
          [exists (after ++ z); by rewrite Hz, <- app_assoc|].
        exists (c :: z'). cbn [app] in Hz'. by rewrite Hz'.
    + destruct (IH x ltac:(lia)) as [z Hz]. exists (c :: z). by rewrite Hz.
Qed.

(** A patch that finds its mention leaves the marker in the message, when
    the name of the webhook is not empty. *)
Lemma replace_leaves_marker message oldNotification serviceName :
  normalizedServiceName serviceName <> [] ->
  occurs oldNotification message = true ->
  has_marker (replace message oldNotification
                (oldNotification ++ lit " " ++ new_notification serviceName)) = true.
Proof.
  intros Hname Hocc. unfold occurs in Hocc. unfold replace.
  destruct (find_first oldNotification message) as [[before after]|]; [|done].
  change (lit " ") with [" "%char]. cbn [app].
  destruct (getSubstitution_after_space oldNotification before after
              (new_notification serviceName) (length oldNotification) oldNotification
              ltac:(done)) as [z ->].
  rewrite getSubstitution_plain by apply new_notification_plain.
  pose proof (normalizedServiceName_normal serviceName) as Hn.
  unfold new_notification.
  destruct (normalizedServiceName serviceName) as [|c r]; [done|].
  simpl in Hn. apply andb_true_iff in Hn as [Hc _].
  apply has_marker_iff. exists (before ++ z ++ [" "%char]), c, (r ++ after).
  split; [|by apply normal_char_not_space].
  by rewrite <- !app_assoc.
Qed.

(** A patch that does not find its mention leaves the message alone. *)
Lemma replace_keeps_marker message oldNotification serviceName :
  normalizedServiceName serviceName <> [] ->
  has_marker message = true ->
  has_marker (replace message oldNotification
                (oldNotification ++ lit " " ++ new_notification serviceName)) = true.
Proof.
  intros Hname Hmark.
  destruct (occurs oldNotification message) eqn:Hocc;
    [by apply replace_leaves_marker|].
  unfold occurs in Hocc. unfold replace.
  by destruct (find_first oldNotification message) as [[before after]|].
Qed.

Lemma apply_patches_keeps_marker patches : forall message,
  Forall named_patch patches ->
  has_marker message = true ->
  has_marker (apply_patches message patches) = true.
Proof.
  induction patches as [|[o n] ps IH]; intros message Hps Hmark; [done|].
  apply Forall_cons in Hps as [(name & Hn & Hname) Hps]. simpl in Hn. subst n.
  unfold apply_patches. cbn [fold_left]. apply IH; [done|].
  by apply replace_keeps_marker.
Qed.

Lemma apply_patches_leaves_marker message oldNotification newNotification patches :
  Forall named_patch ((oldNotification, newNotification) :: patches) ->
  occurs oldNotification message = true ->
  has_marker (apply_patches message ((oldNotification, newNotification) :: patches))
  = true.
Proof.
  intros [(name & Hn & Hname) Hps]%Forall_cons Hocc. simpl in Hn. subst.
  unfold apply_patches. cbn [fold_left]. apply apply_patches_keeps_marker; [done|].
  by apply replace_leaves_marker.
Qed.

(** X16.  A monitor that has been rewritten is skipped from then on.  When
    no webhook call throws, the monitor reads back with the listed message,
    at least one mention resolves, and no resolving mention names a service
    whose normalized name is empty, [processMonitor] records (and, outside a
    dry run, writes) a message that holds the [@webhook-rootly-] marker, so
    that processing the rewritten monitor again only records that it is
    skipped. *)
Theorem rewritten_monitor_is_skipped (cfg : Config) (remote : Remote)
    (sched : list nat) (monitor fetched : Monitor) (w : World) :
  calm cfg remote ->
  has_marker (monitor_message monitor) = false ->
  (forall h, monitor_by_id remote h (monitor_id monitor) = Ok (Some fetched)) ->
  monitor_message fetched = monitor_message monitor ->
  (exists n, n ∈ match_all pagerduty_mention (monitor_message monitor) /\
             resolves w n = true) ->
  (forall n, n ∈ match_all pagerduty_mention (monitor_message monitor) ->
             resolves w n = true ->
             normalizedServiceName (fragment_of n) <> []) ->
  exists rewritten,
    last (results (processMonitor cfg remote sched monitor w))
    = Some (rewrite_outcome rewritten (monitor_message monitor)) /\
    (dry_run cfg = false ->
     last (calls (processMonitor cfg remote sched monitor w))
     = Some (write_call (monitor_id monitor) rewritten)) /\
    has_marker (monitor_message rewritten) = true /\
    forall cfg' remote' sched' w',
      processMonitor cfg' remote' sched' rewritten w'
      = push_result (skip_outcome rewritten) w'.
Proof.
  intros Hcalm Hmark Hget Hmsg (n0 & Hin0 & Hres0) Hnames.
  destruct (match_all pagerduty_mention (monitor_message monitor)) as [|n ns] eqn:Hall;
    [by apply elem_of_nil in Hin0|].
  destruct (processMonitor_calm cfg remote monitor Hcalm sched w n ns Hmark Hall)
    as (w2 & _ & _ & ->).
  assert (Forall (fun p => named_patch p /\
                           occurs p.1 (monitor_message monitor) = true)
                 (omap (mention_patch w) (n :: ns))) as Hpatches.
  { apply list.Forall_forall. intros p (m & Hm & Hp)%list_elem_of_omap.
    assert (resolves w m = true) as Hres by (unfold resolves; by rewrite Hp).
    unfold mention_patch in Hp. destruct (_ && _); [|done].
    injection Hp as <-. split.
    - exists (fragment_of m). split; [done|]. by apply Hnames.
    - pose proof (match_all_from_shaped pagerduty_mention
                    (length (monitor_message monitor)) (monitor_message monitor))
        as Hshape.
      fold (match_all pagerduty_mention (monitor_message monitor)) in Hshape.
      rewrite Hall in Hshape.
      rewrite list.Forall_forall in Hshape. by destruct (Hshape m Hm). }
  destruct (omap (mention_patch w) (n :: ns)) as [|[o nw] ps] eqn:Hom.
  { assert (is_Some (mention_patch w n0)) as [p Hp].
    { unfold resolves in Hres0. by destruct (mention_patch w n0); [eexists|]. }
    assert (p ∈ omap (mention_patch w) (n :: ns)) as Hel
      by (apply list_elem_of_omap; eauto).
    rewrite Hom in Hel. by apply elem_of_nil in Hel. }
  set (patches := (o, nw) :: ps) in *.
  set (rewritten :=
         set_message fetched (apply_patches (monitor_message fetched) patches)).
  destruct (updateDatadogMonitor_found cfg remote (monitor_id monitor) patches w2
              fetched (Hget (calls w2))) as [Hr Hc].
  fold rewritten in Hr, Hc.
  assert (has_marker (monitor_message rewritten) = true) as Hmarked.
  { unfold rewritten. destruct fetched; simpl in *. subst.
    unfold patches. apply apply_patches_leaves_marker.
    - eapply Forall_impl; [exact Hpatches|]. by intros p [Hp _].
    - apply Forall_cons in Hpatches as [[_ Ho] _]. exact Ho. }
  exists rewritten. split; [|split; [|split]].
  - by rewrite Hr, last_snoc, Hmsg.
  - intros Hdry. rewrite Hc, Hdry.
    by rewrite (last_snoc (calls w2 ++ [GetMonitor (monitor_id monitor)])
                  (write_call (monitor_id monitor) rewritten)) || 
       (change (calls w2 ++ GetMonitor (monitor_id monitor)
                  :: [write_call (monitor_id monitor) rewritten])
          with (calls w2 ++ [GetMonitor (monitor_id monitor)]
                  ++ [write_call (monitor_id monitor) rewritten]);
        rewrite app_assoc, last_snoc).
  - done.
  - intros cfg' remote' sched' w'. unfold processMonitor. by rewrite Hmarked.
Qed.

Lemma rewritten_monitor_is_skipped_witness :
  exists rewritten,
    last (results (processMonitor Example.dry
                     (Example.remote
                        (Ok (Some (Example.monitor "alert @pagerduty-checkout is firing")))
                        (Ok tt))
                     [] (Example.monitor "alert @pagerduty-checkout is firing")
                     Example.directory))
    = Some (rewrite_outcome rewritten (lit "alert @pagerduty-checkout is firing")) /\
    has_marker (monitor_message rewritten) = true.
Proof.
  destruct (rewritten_monitor_is_skipped Example.dry
              (Example.remote
                 (Ok (Some (Example.monitor "alert @pagerduty-checkout is firing")))
                 (Ok tt))
              [] (Example.monitor "alert @pagerduty-checkout is firing")
              (Example.monitor "alert @pagerduty-checkout is firing")
              Example.directory)
    as (rewritten & Hlast & _ & Hmarked & _).
  - by left.
  - reflexivity.
  - by intros h.
  - reflexivity.
  - exists (lit "@pagerduty-checkout"). split; [|reflexivity].
    vm_compute. apply list_elem_of_here.
  - intros n Hn _. vm_compute in Hn. apply list_elem_of_singleton in Hn. by subst.
  - by exists rewritten.
Defined.

(** The hypothesis on the names is needed: a service whose name normalizes
    to the empty string gets the webhook mention [@webhook-rootly-], which
    the marker pattern does not match at the end of a message. *)
Example empty_name_leaves_no_marker :
  has_marker (apply_patches (lit "alert @pagerduty--")
                [(lit "@pagerduty--", new_notification (lit "-"))]) = false.
Proof. reflexivity. Qed.

(** ** Reading the report back *)

Lemma read_csv_cell c : forall cell row rows rest,
  read_csv InCell cell row rows (double_quotes c ++ rest)
  = read_csv InCell (rev c ++ cell) row rows rest.
Proof.
  induction c as [|x c IH]; intros cell row rows rest; [done|].
  unfold double_quotes. cbn [flat_map]. fold (double_quotes c).
  destruct (bool_decide (x = chr_quote)) eqn:Hx.
  - apply bool_decide_eq_true in Hx as ->. cbn [app read_csv].
    rewrite !bool_decide_true by done. rewrite IH.
    cbn [rev]. by rewrite <- app_assoc.
  - cbn [app read_csv]. rewrite Hx, IH. cbn [rev]. by rewrite <- app_assoc.
Qed.

Lemma read_csv_quoted c row rows rest :
  read_csv AtCell [] row rows (csv_cell c ++ rest)
  = read_csv AfterQuote (rev c) row rows rest.
Proof.
  unfold csv_cell. cbn [app read_csv]. rewrite bool_decide_true by done.
  rewrite <- app_assoc, read_csv_cell. cbn [app read_csv].
  rewrite bool_decide_true by done. by rewrite app_nil_r.
Qed.

Lemma join_cons sep x y (l : list str) :
  join sep (x :: y :: l) = x ++ sep ++ join sep (y :: l).
Proof. done. Qed.

Lemma read_csv_row_end xs : forall x row rows,
  read_csv AtCell [] row rows (join [chr_comma] (map csv_cell (x :: xs)))
  = Some (rev ((rev row ++ x :: xs) :: rows)).
Proof.
  induction xs as [|y xs IH]; intros x row rows.
  - cbn [map join]. rewrite <- (app_nil_r (csv_cell x)), read_csv_quoted.
    cbn [read_csv]. by rewrite rev_involutive.
  - cbn [map]. cbn [map] in IH. rewrite join_cons, read_csv_quoted.
    cbn [app read_csv]. rewrite bool_decide_false by done.
    rewrite bool_decide_true by done. rewrite IH, rev_involutive.
    cbn [rev]. by rewrite <- app_assoc.
Qed.

Lemma read_csv_row_newline xs : forall x row rows rest,
  read_csv AtCell [] row rows
    (join [chr_comma] (map csv_cell (x :: xs)) ++ chr_newline :: rest)
  = read_csv AtCell [] [] ((rev row ++ x :: xs) :: rows) rest.
Proof.
  induction xs as [|y xs IH]; intros x row rows rest.
  - cbn [map join]. rewrite read_csv_quoted.
    cbn [read_csv]. rewrite !bool_decide_false by done.
    rewrite bool_decide_true by done. by rewrite rev_involutive.
  - cbn [map]. cbn [map] in IH. rewrite join_cons, <- !app_assoc, read_csv_quoted.
    cbn [app read_csv]. rewrite bool_decide_false by done.
    rewrite bool_decide_true by done. rewrite IH, rev_involutive.
    cbn [rev]. by rewrite <- app_assoc.
Qed.

Lemma read_csv_text rs : forall r acc,
  Forall (fun row => row <> []) (r :: rs) ->
  read_csv AtCell [] [] acc (csv_text (r :: rs)) = Some (rev acc ++ r :: rs).
Proof.
  unfold csv_text.
  induction rs as [|r' rs IH]; intros r acc [Hr Hrs]%Forall_cons.
  - destruct r as [|x xs]; [done|].
    change (join [chr_newline] (map _ [x :: xs]))
      with (join [chr_comma] (map csv_cell (x :: xs))).
    by rewrite read_csv_row_end.
  - destruct r as [|x xs]; [done|].
    change (join [chr_newline]
              (map (fun row => join [chr_comma] (map csv_cell row))
                   ((x :: xs) :: r' :: rs)))
      with (join [chr_comma] (map csv_cell (x :: xs)) ++ chr_newline ::
            join [chr_newline]
              (map (fun row => join [chr_comma] (map csv_cell row)) (r' :: rs))).
    rewrite read_csv_row_newline, IH by done.
    cbn [rev app]. by rewrite <- app_assoc.
Qed.

Lemma csv_rows_not_empty stringify results :
  Forall (fun row => row <> []) (csv_headers :: map (csv_row stringify) results).
Proof.
  constructor; [done|]. apply Forall_map, Forall_true. by intros result.
Qed.

(** X17.  The report can be read back: a reader that takes a doubled quote
    inside a cell for one quote, and a comma or a line feed after the closing
    quote for the end of the cell or of the row, recovers from the text of
    [resultsCSV] the header row followed by one row of eight cells per
    outcome, whatever commas, quotes and line feeds the messages hold.
    Hence two result lists with the same report have the same rows. *)
Theorem report_reads_back (stringify : Monitor -> str) (results results' : list Outcome) :
  read_csv AtCell [] [] [] (resultsCSV stringify results)
  = Some (csv_headers :: map (csv_row stringify) results) /\
  (resultsCSV stringify results = resultsCSV stringify results' ->
   map (csv_row stringify) results = map (csv_row stringify) results').
Proof.
  assert (forall rs, read_csv AtCell [] [] [] (resultsCSV stringify rs)
                     = Some (csv_headers :: map (csv_row stringify) rs)) as Hread.
  { intros rs. unfold resultsCSV.
    by rewrite read_csv_text by apply csv_rows_not_empty. }
  split; [apply Hread|]. intros Heq.
  pose proof (Hread results) as H1. rewrite Heq, Hread in H1. by injection H1.
Qed.

(** * The earlier script *)

Lemma Index_push_calls_nil w : Index.push_calls [] w = w.
Proof. destruct w. unfold Index.push_calls. simpl. by rewrite app_nil_r. Qed.

Lemma Index_push_calls_app cs1 cs2 w :
  Index.push_calls cs2 (Index.push_calls cs1 w) = Index.push_calls (cs1 ++ cs2) w.
Proof. unfold Index.push_calls. simpl. by rewrite app_assoc. Qed.

Lemma Index_push_call_calls c w : Index.push_call c w = Index.push_calls [c] w.
Proof. done. Qed.

Section IndexPaginate.

Context {A : Type} (get : nat -> Index.Call) (answer : nat -> Reply (list A))
  (step : nat) (stop : Reply (list A)).

Lemma Index_paginate_serves pages :
  ends_pagination stop = true ->
  forall fuel page acc w,
    length pages < fuel ->
    serves answer page step pages stop ->
    Index.paginate get answer step fuel page acc w
    = (Index.Ret (acc ++ concat pages),
       Index.push_calls (map get (page_params page step (S (length pages)))) w).
Proof.
  intros Hstop. induction pages as [|p rest IH]; intros fuel page acc w Hfuel Hserves.
  - destruct fuel as [|fuel]; [simpl in Hfuel; lia|]. simpl in *.
    rewrite Hserves, app_nil_r.
    destruct stop as [[|]|]; try done.
  - destruct fuel as [|fuel]; [simpl in Hfuel; lia|].
    destruct Hserves as (Hp & Hans & Hrest). simpl.
    rewrite Hans. destruct p as [|x p]; [done|].
    rewrite IH; [|simpl in Hfuel; lia|done].
    rewrite Index_push_call_calls, Index_push_calls_app.
    by rewrite <- app_assoc.
Qed.

End IndexPaginate.

Lemma page_params_from page step n p :
  p ∈ page_params page step n -> page <= p.
Proof.
  revert page. induction n as [|n IH]; intros page; simpl.
  - by intros ?%elem_of_nil.
  - intros [->|Hin]%elem_of_cons; [lia|]. apply IH in Hin. lia.
Qed.

(** X18.  The earlier script lists the monitors from page 1: when the
    listing ends, [fetchDatadogMonitors] returns the pages 1, 2, ... in
    order, and page 0 is never asked for. *)
Theorem earlier_script_lists_from_page_one (remote : Index.Remote) (fuel : nat)
    (w : Index.World) (pages : list (list Monitor)) (stop : Reply (list Monitor)) :
  serves (Index.monitors_page remote) 1 1 pages stop ->
  ends_pagination stop = true ->
  length pages < fuel ->
  Index.fetchDatadogMonitors remote fuel w
  = (Index.Ret (concat pages),
     Index.push_calls
       (map Index.GetMonitors (page_params 1 1 (S (length pages)))) w) /\
  Index.GetMonitors 0 ∉ map Index.GetMonitors (page_params 1 1 (S (length pages))).
Proof.
  intros Hserves Hstop Hfuel. split.
  - unfold Index.fetchDatadogMonitors.
    by rewrite (Index_paginate_serves _ _ _ stop pages Hstop).
  - intros (p & [= <-] & Hp)%list_elem_of_fmap.
    apply page_params_from in Hp. lia.
Qed.

Lemma earlier_script_lists_from_page_one_witness :
  (Index.fetchDatadogMonitors
     (IndexExample.remote (Example.monitor "alert @pagerduty-checkout") (Ok tt))
     3 IndexExample.directory).1
  = Index.Ret [Example.monitor "alert @pagerduty-checkout"].
Proof.
  pose proof (earlier_script_lists_from_page_one
                (IndexExample.remote (Example.monitor "alert @pagerduty-checkout") (Ok tt))
                3 IndexExample.directory
                [ [Example.monitor "alert @pagerduty-checkout"] ] (Ok [])) as H.
  destruct H as [H _].
  - simpl. repeat split; done.
  - done.
  - simpl. lia.
  - by rewrite H.
Defined.

(** ** One mention after the other *)

Lemma Index_fetchRootlyServiceId_eq remote pagerdutyId w :
  Index.fetchRootlyServiceId remote pagerdutyId w
  = (Index.Ret
       match Index.rootly_services remote (Index.calls w) pagerdutyId with
       | Ok (service :: _) => Some (rootly_id service)
       | _ => None
       end,
     Index.push_call (Index.GetRootlyServices pagerdutyId) w).
Proof.
  unfold Index.fetchRootlyServiceId, Index.try_catch, Index.bind, Index.request.
  by destruct (Index.rootly_services remote (Index.calls w) pagerdutyId)
    as [[|service rest]|e].
Qed.

Lemma Index_createDatadogWebhook_eq remote serviceName serviceId w :
  Index.createDatadogWebhook remote serviceName serviceId w
  = (match Index.webhook_created remote (Index.calls w)
             (webhook_name serviceName) serviceId with
     | Failed NoResponse => Index.Throw Index.TypeError
     | Failed (ErrorResponse None) => Index.Throw Index.TypeError
     | _ => Index.Ret tt
     end,
     Index.push_call (Index.PostWebhook (webhook_name serviceName) serviceId) w).
Proof.
  unfold Index.createDatadogWebhook, Index.try_catch, Index.request.
  destruct (Index.webhook_created remote (Index.calls w) _ _)
    as [[]|[|[errors|]]]; try done.
  unfold Index.ret. by destruct (bool_decide _).
Qed.

Lemma Index_updateDatadogMonitor_found remote monitorId oldNotification
    newNotification w fetched :
  Index.monitor_by_id remote (Index.calls w) monitorId = Ok (Some fetched) ->
  let written :=
    set_message fetched
      (replace (monitor_message fetched) oldNotification
               (oldNotification ++ lit " " ++ newNotification)) in
  exists r,
    Index.updateDatadogMonitor remote monitorId oldNotification newNotification w
    = (r, Index.push_calls [Index.GetMonitor monitorId;
                            Index.write_call monitorId written] w) /\
    r <> Index.Starved /\
    ((forall h monitor, Index.monitor_put remote h monitorId monitor
                        <> Failed NoResponse) ->
     (forall h checkId message, Index.synthetics_patched remote h checkId message
                                <> Failed NoResponse) ->
     r = Index.Ret tt).
Proof.
  intros Hget written.
  unfold Index.updateDatadogMonitor, Index.try_catch, Index.bind, Index.request.
  rewrite Hget. fold written. unfold Index.write_call.
  destruct (is_synthetics written).
  - cbn [Index.calls Index.push_call].
    destruct (Index.synthetics_patched _ _ _ _) as [[]|[|errors]] eqn:Hw;
      (eexists; split; [unfold Index.push_calls, Index.push_call, Index.ret,
                          Index.throw; simpl; by rewrite <- app_assoc|]);
      (split; [done|]); try done.
    intros _ Hs. by destruct (Hs _ _ _ Hw).
  - cbn [Index.calls Index.push_call].
    destruct (Index.monitor_put _ _ _ _) as [[]|[|errors]] eqn:Hw;
      (eexists; split; [unfold Index.push_calls, Index.push_call, Index.ret,
                          Index.throw; simpl; by rewrite <- app_assoc|]);
      (split; [done|]); try done.
    intros Hp _. by destruct (Hp _ _ Hw).
Qed.

Lemma Index_updateDatadogMonitor_cases remote monitorId oldNotification
    newNotification w :
  exists r cs,
    Index.updateDatadogMonitor remote monitorId oldNotification newNotification w
    = (r, Index.push_calls cs w) /\
    r <> Index.Starved /\
    forallb (fun c => match c with
                      | Index.GetMonitor m => bool_decide (m = monitorId)
                      | Index.PutMonitor m _ => bool_decide (m = monitorId)
                      | Index.PatchSynthetics _ _ => true
                      | _ => false
                      end) cs = true.
Proof.
  destruct (Index.monitor_by_id remote (Index.calls w) monitorId)
    as [[fetched|]|e] eqn:Hget.
  - destruct (Index_updateDatadogMonitor_found remote monitorId oldNotification
                newNotification w fetched Hget) as (r & Heq & Hr & _).
    exists r, [Index.GetMonitor monitorId;
               Index.write_call monitorId
                 (set_message fetched
                    (replace (monitor_message fetched) oldNotification
                       (oldNotification ++ lit " " ++ newNotification)))].
    split; [done|]. split; [done|].
    unfold Index.write_call. destruct (is_synthetics _); simpl;
      by rewrite !bool_decide_true.
  - exists (Index.Ret tt), [Index.GetMonitor monitorId].
    unfold Index.updateDatadogMonitor, Index.try_catch, Index.bind, Index.request.
    rewrite Hget. split; [done|]. split; [done|]. simpl.
    by rewrite bool_decide_true.
  - exists (match e with
            | NoResponse => Index.Throw Index.TypeError
            | ErrorResponse _ => Index.Ret tt
            end), [Index.GetMonitor monitorId].
    unfold Index.updateDatadogMonitor, Index.try_catch, Index.bind, Index.request.
    rewrite Hget. split; [by destruct e|]. split; [by destruct e|]. simpl.
    by rewrite bool_decide_true.
Qed.

Lemma Index_migrate_mention_footprint remote monitor notification w :
  exists r cs,
    Index.migrate_mention remote monitor notification w
    = (r, Index.push_calls cs w) /\
    r <> Index.Starved /\
    forallb (Index.sent_for monitor) cs = true.
Proof.
  unfold Index.migrate_mention, Index.bind at 1, Index.read.
  destruct (truthy (getPagerdutyServiceId _ _)).
  2:{ exists (Index.Ret tt), []. by rewrite Index_push_calls_nil. }
  set (p := default [] _).
  unfold Index.bind at 1. rewrite Index_fetchRootlyServiceId_eq.
  destruct (truthy _).
  2:{ exists (Index.Ret tt), [Index.GetRootlyServices p]. done. }
  set (rootlyId := default [] _).
  unfold Index.bind. rewrite Index_createDatadogWebhook_eq.
  set (w1 := Index.push_call _ (Index.push_call _ w)).
  assert (w1 = Index.push_calls
                 [Index.GetRootlyServices p;
                  Index.PostWebhook (webhook_name (fragment_of notification)) rootlyId]
                 w) as Hw1.
  { unfold w1, Index.push_call, Index.push_calls. simpl. by rewrite <- app_assoc. }
  destruct (Index_updateDatadogMonitor_cases remote (monitor_id monitor) notification
              (Index.new_notification (fragment_of notification)) w1)
    as (r & cs & Heq & Hr & Hcs).
  destruct (Index.webhook_created _ _ _ _) as [[]|[|[errors|]]];
    try (exists r, ([Index.GetRootlyServices p;
                     Index.PostWebhook (webhook_name (fragment_of notification))
                       rootlyId] ++ cs);
         rewrite Heq, Hw1, Index_push_calls_app; split; [done|]; split; [done|];
         simpl; apply forallb_forall; intros c Hc;
         rewrite forallb_forall in Hcs; specialize (Hcs c Hc); by destruct c);
    try (exists (Index.Throw Index.TypeError),
           [Index.GetRootlyServices p;
            Index.PostWebhook (webhook_name (fragment_of notification)) rootlyId];
         by rewrite Hw1).
Qed.

Lemma Index_for_each_footprint {A} (body : A -> Index.M unit) (sent : Index.Call -> bool)
    (l : list A) :
  (forall x w, exists r cs, body x w = (r, Index.push_calls cs w) /\
                            r <> Index.Starved /\ forallb sent cs = true) ->
  forall w, exists r cs,
    Index.for_each l body w = (r, Index.push_calls cs w) /\
    r <> Index.Starved /\ forallb sent cs = true.
Proof.
  intros Hbody. induction l as [|x l IH]; intros w.
  - exists (Index.Ret tt), []. by rewrite Index_push_calls_nil.
  - cbn [Index.for_each]. unfold Index.bind.
    destruct (Hbody x w) as (r & cs & -> & Hr & Hcs).
    destruct r as [[]|e|]; [|by exists (Index.Throw e), cs|done].
    destruct (IH (Index.push_calls cs w)) as (r' & cs' & -> & Hr' & Hcs').
    exists r', (cs ++ cs'). rewrite Index_push_calls_app.
    split; [done|]. split; [done|]. by rewrite forallb_app, Hcs, Hcs'.
Qed.

Lemma Index_processMonitor_cases remote monitor w :
  exists cs,
    Index.processMonitor remote monitor w = (Index.Ret tt, Index.push_calls cs w) /\
    forallb (Index.sent_for monitor) cs = true /\
    (Index.has_marker (monitor_message monitor) = true \/
     match_all pagerduty_mention (monitor_message monitor) = [] -> cs = []).
Proof.
  unfold Index.processMonitor, Index.try_catch.
  destruct (Index.has_marker (monitor_message monitor)).
  { exists []. by rewrite Index_push_calls_nil. }
  destruct (match_all pagerduty_mention (monitor_message monitor)) as [|n ns].
  { exists []. by rewrite Index_push_calls_nil. }
  destruct (Index_for_each_footprint (Index.migrate_mention remote monitor)
              (Index.sent_for monitor) (n :: ns)
              (Index_migrate_mention_footprint remote monitor) w)
    as (r & cs & -> & Hr & Hcs).
  exists cs. split; [by destruct r as [[]|e|]|]. split; [done|].
  by intros [?|?].
Qed.

(** X19.  In the earlier script [processMonitor] always returns normally: a
    failure of a request is caught on the way.  It leaves the cache alone and
    sends only Rootly lookups, webhook POSTs and reads and writes of the
    monitor it was given; it sends nothing at all for a monitor that holds
    the marker [@webhooks-rootly-] or no mention. *)
Theorem earlier_processMonitor_footprint (remote : Index.Remote) (monitor : Monitor)
    (w : Index.World) :
  exists cs,
    Index.processMonitor remote monitor w = (Index.Ret tt, Index.push_calls cs w) /\
    forallb (Index.sent_for monitor) cs = true /\
    (Index.has_marker (monitor_message monitor) = true \/
     match_all pagerduty_mention (monitor_message monitor) = [] -> cs = []).
Proof. apply Index_processMonitor_cases. Qed.

Lemma Index_truthy_some (p : str) : p <> [] -> truthy (Some p) = true.
Proof. by destruct p. Qed.

Lemma Index_write_call_is_write monitorId written :
  Index.is_monitor_write (Index.write_call monitorId written) = true.
Proof. unfold Index.write_call. by destruct (is_synthetics written). Qed.

Lemma Index_migrations_count monitor notifications groups :
  Forall2 (Index.migration_of monitor) notifications groups ->
  length (List.filter Index.is_monitor_write (concat groups)) = length notifications.
Proof.
  induction 1 as [|n g ns gs (p & r & written & ->) _ IH]; [done|].
  cbn [concat app List.filter Index.is_monitor_write].
  rewrite Index_write_call_is_write. simpl. by rewrite IH.
Qed.

Section EarlierMentions.

Context (remote : Index.Remote) (monitor : Monitor)
  (cache : list PagerdutyService).

Hypothesis Hcalm : Index.calm remote.

Hypothesis Hget : forall h, exists fetched,
  Index.monitor_by_id remote h (monitor_id monitor) = Ok (Some fetched).

Lemma Index_migrate_mention_resolved notification w :
  Index.pagerdutyServicesCache w = cache ->
  (exists p, getPagerdutyServiceId cache (fragment_of notification) = Some p /\
             p <> [] /\
             forall h, exists service rest,
               Index.rootly_services remote h p = Ok (service :: rest) /\
               rootly_id service <> []) ->
  exists group,
    Index.migrate_mention remote monitor notification w
    = (Index.Ret tt, Index.push_calls group w) /\
    Index.migration_of monitor notification group.
Proof.
  intros Hcache (p & Hp & Hne & Hroot).
  destruct Hcalm as (Hpost & _ & Hput & Hpatch).
  unfold Index.migrate_mention, Index.bind at 1, Index.read.
  rewrite Hcache, Hp, Index_truthy_some by done. cbn [from_option id].
  unfold Index.bind at 1. rewrite Index_fetchRootlyServiceId_eq.
  destruct (Hroot (Index.calls w)) as (service & rest & -> & Hid).
  rewrite Index_truthy_some by done. cbn [from_option id].
  unfold Index.bind. rewrite Index_createDatadogWebhook_eq.
  set (w1 := Index.push_call _ (Index.push_call _ w)).
  assert (w1 = Index.push_calls
                 [Index.GetRootlyServices p;
                  Index.PostWebhook (webhook_name (fragment_of notification))
                    (rootly_id service)] w) as Hw1.
  { unfold w1, Index.push_call, Index.push_calls. simpl. by rewrite <- app_assoc. }
  destruct (Hget (Index.calls w1)) as [fetched Hfetched].
  destruct (Index_updateDatadogMonitor_found remote (monitor_id monitor) notification
              (Index.new_notification (fragment_of notification)) w1 fetched Hfetched)
    as (r & Heq & _ & Hr).
  rewrite (Hr (fun h => Hput h _) Hpatch) in Heq.
  eexists. split.
  - destruct (Hpost (Index.calls (Index.push_call (Index.GetRootlyServices p) w))
                (webhook_name (fragment_of notification)) (rootly_id service))
      as [H1 H2].
    destruct (Index.webhook_created _ _ _ _) as [[]|[|[errors|]]];
      cbv beta iota; try done;
      by rewrite Heq, Hw1, Index_push_calls_app.
  - by eexists p, (rootly_id service), _.
Qed.

Lemma Index_for_each_resolved notifications : forall w,
  Index.pagerdutyServicesCache w = cache ->
  (forall n, n ∈ notifications ->
     exists p, getPagerdutyServiceId cache (fragment_of n) = Some p /\
               p <> [] /\
               forall h, exists service rest,
                 Index.rootly_services remote h p = Ok (service :: rest) /\
                 rootly_id service <> []) ->
  exists groups,
    Index.for_each notifications (Index.migrate_mention remote monitor) w
    = (Index.Ret tt, Index.push_calls (concat groups) w) /\
    Forall2 (Index.migration_of monitor) notifications groups.
Proof.
  induction notifications as [|n ns IH]; intros w Hcache Hres.
  - exists []. by rewrite Index_push_calls_nil.
  - cbn [Index.for_each]. unfold Index.bind.
    destruct (Index_migrate_mention_resolved n w Hcache
                (Hres n ltac:(apply list_elem_of_here))) as (g & -> & Hg).
    destruct (IH (Index.push_calls g w) Hcache
                (fun m Hm => Hres m ltac:(by apply list_elem_of_further)))
      as (gs & -> & Hgs).
    exists (g :: gs). rewrite Index_push_calls_app. split; [done|].
    by constructor.
Qed.

End EarlierMentions.

(** X20.  The earlier script rewrites the monitor once per mention.  For a
    monitor whose message does not hold the marker [@webhooks-rootly-],
    when no [catch] block throws, the monitor is found each time it is read,
    and every mention resolves, [processMonitor] sends for each mention, in
    the order of the message, one Rootly lookup, one webhook POST, one GET of
    the monitor and one write of it: as many writes as there are mentions. *)
Theorem earlier_script_writes_once_per_mention (remote : Index.Remote)
    (monitor : Monitor) (w : Index.World) :
  Index.has_marker (monitor_message monitor) = false ->
  Index.calm remote ->
  (forall h, exists fetched,
      Index.monitor_by_id remote h (monitor_id monitor) = Ok (Some fetched)) ->
  (forall n, n ∈ match_all pagerduty_mention (monitor_message monitor) ->
     exists p,
       getPagerdutyServiceId (Index.pagerdutyServicesCache w) (fragment_of n) = Some p /\
       p <> [] /\
       forall h, exists service rest,
         Index.rootly_services remote h p = Ok (service :: rest) /\
         rootly_id service <> []) ->
  exists groups,
    Index.processMonitor remote monitor w
    = (Index.Ret tt, Index.push_calls (concat groups) w) /\
    Forall2 (Index.migration_of monitor)
            (match_all pagerduty_mention (monitor_message monitor)) groups /\
    length (List.filter Index.is_monitor_write (concat groups))
    = length (match_all pagerduty_mention (monitor_message monitor)).
Proof.
  intros Hmark Hcalm Hget Hres.
  unfold Index.processMonitor, Index.try_catch. rewrite Hmark.
  destruct (match_all pagerduty_mention (monitor_message monitor)) as [|n ns] eqn:Hall.
  { exists []. by rewrite Index_push_calls_nil. }
  destruct (Index_for_each_resolved remote monitor (Index.pagerdutyServicesCache w)
              Hcalm Hget (n :: ns) w eq_refl Hres) as (groups & -> & Hgroups).
  exists groups. split; [done|]. split; [done|].
  by apply (Index_migrations_count monitor).
Qed.

Lemma earlier_script_writes_once_per_mention_witness :
  length (List.filter Index.is_monitor_write
            (Index.calls
               (Index.processMonitor
                  (IndexExample.remote
                     (Example.monitor "alert @pagerduty-checkout and @pagerduty-payments")
                     (Ok tt))
                  (Example.monitor "alert @pagerduty-checkout and @pagerduty-payments")
                  IndexExample.directory).2))
  = 2.
Proof.
  destruct (earlier_script_writes_once_per_mention
              (IndexExample.remote
                 (Example.monitor "alert @pagerduty-checkout and @pagerduty-payments")
                 (Ok tt))
              (Example.monitor "alert @pagerduty-checkout and @pagerduty-payments")
              IndexExample.directory) as (groups & Heq & _ & Hcount).
  - reflexivity.
  - by repeat split.
  - intros h. by eexists.
  - intros n Hn. vm_compute in Hn.
    apply elem_of_cons in Hn as [->|Hn];
      [|apply list_elem_of_singleton in Hn as ->].
    + exists (lit "P1"). repeat split; [done|]. intros h. by eexists _, _.
    + exists (lit "P2"). repeat split; [done|]. intros h. by eexists _, _.
  - rewrite Heq. simpl. rewrite Hcount. reflexivity.
Defined.

(** X21.  In the earlier script too a webhook POST that fails without a
    response, or with a response that holds no [errors], makes the [catch]
    block of [createDatadogWebhook] throw: [processMonitor] then returns
    normally after the Rootly lookup and the POST of the first mention,
    having neither read nor written the monitor, and the mentions after the
    first are not looked at. *)
Theorem earlier_webhook_error_stops_the_monitor (remote : Index.Remote)
    (monitor : Monitor) (w : Index.World) (n : str) (ns : list str)
    (p : str) (service : RootlyService) (rest : list RootlyService) :
  Index.has_marker (monitor_message monitor) = false ->
  match_all pagerduty_mention (monitor_message monitor) = n :: ns ->
  getPagerdutyServiceId (Index.pagerdutyServicesCache w) (fragment_of n) = Some p ->
  p <> [] ->
  Index.rootly_services remote (Index.calls w) p = Ok (service :: rest) ->
  rootly_id service <> [] ->
  (Index.webhook_created remote (Index.calls w ++ [Index.GetRootlyServices p])
     (webhook_name (fragment_of n)) (rootly_id service) = Failed NoResponse \/
   Index.webhook_created remote (Index.calls w ++ [Index.GetRootlyServices p])
     (webhook_name (fragment_of n)) (rootly_id service)
   = Failed (ErrorResponse None)) ->
  Index.processMonitor remote monitor w
  = (Index.Ret tt,
     Index.push_calls
       [Index.GetRootlyServices p;
        Index.PostWebhook (webhook_name (fragment_of n)) (rootly_id service)] w).
Proof.
  intros Hmark Hall Hp Hne Hroot Hid Hpost.
  unfold Index.processMonitor, Index.try_catch. rewrite Hmark, Hall.
  cbn [Index.for_each]. unfold Index.bind at 1.
  unfold Index.migrate_mention, Index.bind at 1, Index.read.
  rewrite Hp, Index_truthy_some by done. cbn [from_option id].
  unfold Index.bind at 1. rewrite Index_fetchRootlyServiceId_eq, Hroot.
  rewrite Index_truthy_some by done. cbn [from_option id].
  unfold Index.bind. rewrite Index_createDatadogWebhook_eq.
  cbn [Index.calls Index.push_call].
  destruct Hpost as [-> | ->]; cbv beta iota;
    unfold Index.push_calls, Index.push_call, Index.ret;
    cbn [Index.calls Index.pagerdutyServicesCache];
    by rewrite <- app_assoc.
Qed.

Lemma earlier_webhook_error_stops_the_monitor_witness :
  Index.processMonitor
    (IndexExample.remote
       (Example.monitor "alert @pagerduty-checkout and @pagerduty-payments")
       (Failed NoResponse))
    (Example.monitor "alert @pagerduty-checkout and @pagerduty-payments")
    IndexExample.directory
  = (Index.Ret tt,
     Index.push_calls
       [Index.GetRootlyServices (lit "P1");
        Index.PostWebhook (lit "rootly-checkout") (lit "R-P1")]
       IndexExample.directory).
Proof.
  apply (earlier_webhook_error_stops_the_monitor
           (IndexExample.remote
              (Example.monitor "alert @pagerduty-checkout and @pagerduty-payments")
              (Failed NoResponse))
           (Example.monitor "alert @pagerduty-checkout and @pagerduty-payments")
           IndexExample.directory
           (lit "@pagerduty-checkout") [lit "@pagerduty-payments"]
           (lit "P1")
           {| rootly_id := lit "R-P1"; rootly_pagerduty_id := Some (lit "P1") |} []).
  - reflexivity.
  - reflexivity.
  - reflexivity.
  - done.
  - reflexivity.
  - done.
  - by left.
Defined.

(** ** From one run of the earlier script to the next *)

Lemma getSubstitution_plain_app matched before after p r :
  plain p = true ->
  getSubstitution matched before after (p ++ r)
  = p ++ getSubstitution matched before after r.
Proof.
  induction p as [|c p IH]; [done|].
  intros [Hc Hp]%andb_true_iff. apply negb_true_iff in Hc.
  cbn [app getSubstitution]. rewrite Hc. by rewrite IH.
Qed.

Lemma Index_has_marker_intro before c rest :
  is_space c = false ->
  Index.has_marker (before ++ Index.rootly_mention ++ c :: rest) = true.
Proof.
  intros Hc. unfold Index.has_marker.
  destruct (regex_exec Index.rootly_mention _) as [found|] eqn:He; [done|].
  rewrite regex_exec_none in He.
  specialize (He before (Index.rootly_mention ++ c :: rest) eq_refl).
  assert (mention_start Index.rootly_mention (Index.rootly_mention ++ c :: rest) = true)
    as Hs by (apply mention_start_iff; eauto).
  congruence.
Qed.

Lemma Index_replace_leaves_marker message notification c run :
  occurs notification message = true ->
  c <> chr_dollar ->
  is_space c = false ->
  Index.has_marker
    (replace message notification
       (notification ++ lit " " ++ Index.new_notification (c :: run))) = true.
Proof.
  intros Hocc Hc Hsp. unfold replace. unfold occurs in Hocc.
  destruct (find_first notification message) as [[before after]|]; [|done].
  change (lit " ") with [" "%char]. cbn [app].
  destruct (getSubstitution_after_space notification before after
              (Index.new_notification (c :: run))
              (length notification) notification ltac:(done)) as [z ->].
  unfold Index.new_notification.
  rewrite getSubstitution_plain_app by done.
  cbn [getSubstitution]. rewrite bool_decide_false by done.
  set (g := getSubstitution notification before after run).
  assert (before ++ (z ++ " "%char :: Index.rootly_mention ++ c :: g) ++ after
          = (before ++ z ++ [" "%char]) ++ Index.rootly_mention ++ c :: (g ++ after))
    as ->.
  { rewrite <- !app_assoc. cbn [app]. by rewrite <- !app_assoc. }
  by apply Index_has_marker_intro.
Qed.

(** X22.  A monitor that the earlier script has rewritten is left alone by
    it from then on.  When the monitor is read back, the mention occurs in
    its message, and the name taken from the mention begins with a character
    that is neither white space nor a dollar sign (so that it is not empty),
    the message that [updateDatadogMonitor] writes holds the marker
    [@webhooks-rootly-], so that [processMonitor] sends nothing for the
    monitor as written. *)
Theorem earlier_rewrite_is_skipped_next_time (remote : Index.Remote)
    (monitorId notification : str) (w : Index.World) (fetched : Monitor)
    (c : ascii) (run : str) :
  Index.monitor_by_id remote (Index.calls w) monitorId = Ok (Some fetched) ->
  occurs notification (monitor_message fetched) = true ->
  fragment_of notification = c :: run ->
  c <> chr_dollar ->
  is_space c = false ->
  exists written,
    last (Index.calls
            (Index.updateDatadogMonitor remote monitorId notification
               (Index.new_notification (fragment_of notification)) w).2)
    = Some (Index.write_call monitorId written) /\
    Index.has_marker (monitor_message written) = true /\
    forall remote' w',
      Index.processMonitor remote' written w' = (Index.Ret tt, w').
Proof.
  intros Hget Hocc Hfrag Hc Hsp.
  destruct (Index_updateDatadogMonitor_found remote monitorId notification
              (Index.new_notification (fragment_of notification)) w fetched Hget)
    as (r & Heq & _ & _).
  rewrite Heq. cbn [snd].
  assert (Index.has_marker
            (monitor_message
               (set_message fetched
                  (replace (monitor_message fetched) notification
                     (notification ++ lit " "
                      ++ Index.new_notification (fragment_of notification)))))
          = true) as Hmarked.
  { rewrite Hfrag. destruct fetched. by apply Index_replace_leaves_marker. }
  eexists. split; [|split; [exact Hmarked|]].
  - unfold Index.push_calls. cbn [Index.calls].
    change [Index.GetMonitor monitorId; ?x] with ([Index.GetMonitor monitorId] ++ [x]).
    by rewrite app_assoc, last_snoc.
  - intros remote' w'. unfold Index.processMonitor, Index.try_catch.
    by rewrite Hmarked.
Qed.

Lemma earlier_rewrite_is_skipped_next_time_witness :
  exists written,
    last (Index.calls
            (Index.updateDatadogMonitor
               (IndexExample.remote (Example.monitor "alert @pagerduty-checkout now")
                  (Ok tt))
               (lit "42") (lit "@pagerduty-checkout")
               (Index.new_notification (fragment_of (lit "@pagerduty-checkout")))
               IndexExample.directory).2)
    = Some (Index.write_call (lit "42") written) /\
    Index.has_marker (monitor_message written) = true.
Proof.
  destruct (earlier_rewrite_is_skipped_next_time
              (IndexExample.remote (Example.monitor "alert @pagerduty-checkout now")
                 (Ok tt))
              (lit "42") (lit "@pagerduty-checkout") IndexExample.directory
              (Example.monitor "alert @pagerduty-checkout now")
              "c"%char (lit "heckout"))
    as (written & Hlast & Hmarked & _).
  - reflexivity.
  - reflexivity.
  - reflexivity.
  - done.
  - reflexivity.
  - by exists written.
Defined.

(** ** The whole run of the earlier script *)

Lemma Index_for_each_returns {A} (body : A -> Index.M unit) (l : list A) :
  (forall x w, exists cs, body x w = (Index.Ret tt, Index.push_calls cs w)) ->
  forall w, exists cs,
    Index.for_each l body w = (Index.Ret tt, Index.push_calls cs w).
Proof.
  intros Hbody. induction l as [|x l IH]; intros w.
  - exists []. by rewrite Index_push_calls_nil.
  - cbn [Index.for_each]. unfold Index.bind.
    destruct (Hbody x w) as (cs & ->).
    destruct (IH (Index.push_calls cs w)) as (cs' & ->).
    exists (cs ++ cs'). by rewrite Index_push_calls_app.
Qed.

(** X23.  When both listings end, [main] of the earlier script lists the
    PagerDuty services from offset 0 in steps of 25 and caches them, lists
    the monitors from page 1, processes the monitors one after the other in
    the order listed, and returns normally; the cache is not touched after
    the listing. *)
Theorem earlier_main_runs (remote : Index.Remote) (fuel : nat) (w : Index.World)
    (pd_pages : list (list PagerdutyService)) (pd_stop : Reply (list PagerdutyService))
    (m_pages : list (list Monitor)) (m_stop : Reply (list Monitor)) :
  serves (Index.pagerduty_page remote) 0 25 pd_pages pd_stop ->
  ends_pagination pd_stop = true -> length pd_pages < fuel ->
  serves (Index.monitors_page remote) 1 1 m_pages m_stop ->
  ends_pagination m_stop = true -> length m_pages < fuel ->
  let listed :=
    Index.push_calls (map Index.GetMonitors (page_params 1 1 (S (length m_pages))))
      (Index.set_pagerdutyServicesCache (concat pd_pages)
         (Index.push_calls
            (map Index.GetPagerdutyServices (page_params 0 25 (S (length pd_pages))))
            w)) in
  Index.main remote fuel w
  = (Index.Ret tt,
     (Index.for_each (concat m_pages) (Index.processMonitor remote) listed).2) /\
  Index.pagerdutyServicesCache (Index.main remote fuel w).2 = concat pd_pages.
Proof.
  intros Hpd Hpds Hpdf Hm Hms Hmf listed.
  assert (Index.main remote fuel w
          = (Index.Ret tt,
             (Index.for_each (concat m_pages) (Index.processMonitor remote) listed).2))
    as Hmain.
  { unfold Index.main, Index.fetchAndCachePagerdutyServices,
      Index.fetchDatadogMonitors.
    unfold Index.try_catch, Index.bind, Index.modify.
    rewrite (Index_paginate_serves _ _ _ pd_stop pd_pages Hpds) by done.
    rewrite (Index_paginate_serves _ _ _ m_stop m_pages Hms) by done.
    cbn [app]. fold listed.
    destruct (Index_for_each_returns (Index.processMonitor remote) (concat m_pages)
                (fun x w0 =>
                   let '(ex_intro _ cs (conj H _)) :=
                     Index_processMonitor_cases remote x w0 in
                   ex_intro _ cs H) listed) as (cs & ->).
    done. }
  split; [done|]. rewrite Hmain. cbn [snd].
  destruct (Index_for_each_returns (Index.processMonitor remote) (concat m_pages)
              (fun x w0 =>
                 let '(ex_intro _ cs (conj H _)) :=
                   Index_processMonitor_cases remote x w0 in
                 ex_intro _ cs H) listed) as (cs & ->).
  done.
Qed.

Lemma earlier_main_runs_witness :
  (Index.main
     (IndexExample.remote (Example.monitor "alert @pagerduty-checkout now") (Ok tt))
     3 Index.initial_world).1
  = Index.Ret tt.
Proof.
  pose proof (earlier_main_runs
                (IndexExample.remote (Example.monitor "alert @pagerduty-checkout now")
                   (Ok tt))
                3 Index.initial_world
                [ Index.pagerdutyServicesCache IndexExample.directory ] (Ok [])
                [ [Example.monitor "alert @pagerduty-checkout now"] ] (Ok [])) as H.
  cbv zeta in H. destruct H as [H _].
  - simpl. repeat split; done.
  - done.
  - simpl. lia.
  - simpl. repeat split; done.
  - done.
  - simpl. lia.
  - by rewrite H.
Defined.

(** * Every monitor in the report *)

(** X24.  When no webhook call throws, no monitor goes unreported:
    [processMonitor] records at least one outcome for the monitor, and at
    least one per mention when the message holds no marker, so that the loop
    of [main] records at least as many outcomes as there are monitors. *)
Theorem every_monitor_is_reported (cfg : Config) (remote : Remote)
    (scheds : list (list nat)) (monitors : list Monitor) (w : World) :
  calm cfg remote ->
  (forall sched monitor w0,
      length (results w0) < length (results (processMonitor cfg remote sched monitor w0)) /\
      (has_marker (monitor_message monitor) = false ->
       length (results w0)
       + length (match_all pagerduty_mention (monitor_message monitor))
       <= length (results (processMonitor cfg remote sched monitor w0)))) /\
  length (results w) + length monitors
  <= length (results (process_monitors cfg remote scheds monitors w)).
Proof.
  intros Hcalm. split.
  - intros sched monitor w0.
    pose proof (processMonitor_calm_reports cfg remote sched monitor w0 Hcalm) as H.
    split; [lia|]. intros Hmark. rewrite Hmark in H. lia.
  - by apply process_monitors_calm_reports.
Qed.

Lemma every_monitor_is_reported_witness :
  length (results Example.directory) + 2
  <= length (results
               (process_monitors Example.dry
                  (Example.remote (Ok None) (Ok tt)) []
                  [Example.monitor "alert @pagerduty-checkout";
                   Example.monitor "nobody to page"]
                  Example.directory)).
Proof.
  apply (every_monitor_is_reported Example.dry (Example.remote (Ok None) (Ok tt)) []
           [Example.monitor "alert @pagerduty-checkout";
            Example.monitor "nobody to page"] Example.directory).
  by left.
Defined.
